(** * Workflow orchestration core of pydantic-deep: a shallow embedding

    The development follows the layout of [pydantic_deep/orchestration]:
    [models.py], [state.py], [routing.py], [strategy_selector.py],
    [executor.py], [coordinator.py] and [cache.py].  Python dictionaries
    are insertion-ordered association lists (the code iterates over
    them), Python lists are lists, [str | None] is [option string],
    [datetime.now()] readings are taken from a clock oracle.  A finite
    [float] is the rational it denotes, floats compare as rationals,
    and the rounded product of two floats is an operation of its own,
    [float_mul]. *)

From Stdlib Require Import ZArith List String Ascii Bool Lia QArith.
From Stdlib Require Import Permutation Sorted DecimalString Relations ListDec.
Import ListNotations.
Local Open Scope string_scope.
Local Open Scope list_scope.
Local Open Scope Z_scope.

(** ** Python containers *)

Module Py.

(** [x in l] for a list of strings. *)
Definition mem (x : string) (l : list string) : bool :=
  existsb (String.eqb x) l.

(** [l.remove(x)]: drops the first occurrence (the callers guard it
    with [x in l], so the [ValueError] of an absent element is never
    raised). *)
Fixpoint remove (x : string) (l : list string) : list string :=
  match l with
  | [] => []
  | y :: r => if String.eqb x y then r else y :: remove x r
  end.

(** [if x in l: l.remove(x)] *)
Definition discard (x : string) (l : list string) : list string :=
  if mem x l then remove x l else l.

(** [if x not in l: l.append(x)] *)
Definition add (x : string) (l : list string) : list string :=
  if mem x l then l else l ++ [x].

(** A [dict] with string keys, in insertion order. *)
Definition dict (V : Type) : Type := list (string * V).

Fixpoint get {V} (d : dict V) (k : string) : option V :=
  match d with
  | [] => None
  | (k', v) :: r => if String.eqb k k' then Some v else get r k
  end.

(** [d[k] = v]: an existing key keeps its position. *)
Fixpoint set {V} (d : dict V) (k : string) (v : V) : dict V :=
  match d with
  | [] => [(k, v)]
  | (k', v') :: r =>
      if String.eqb k k' then (k', v) :: r else (k', v') :: set r k v
  end.

(** [del d[k]] *)
Fixpoint del {V} (d : dict V) (k : string) : dict V :=
  match d with
  | [] => []
  | (k', v') :: r => if String.eqb k k' then r else (k', v') :: del r k
  end.

Definition keys {V} (d : dict V) : list string := map fst d.

Definition has {V} (d : dict V) (k : string) : bool :=
  match get d k with Some _ => true | None => false end.

(** [d.get(k, dflt)] *)
Definition get_or {V} (d : dict V) (k : string) (dflt : V) : V :=
  match get d k with Some v => v | None => dflt end.

(** [s in t] for strings: substring test. *)
Fixpoint substring_of (s t : string) : bool :=
  if String.prefix s t then true
  else match t with
       | EmptyString => false
       | String _ t' => substring_of s t'
       end.

(** Truthiness of [str | None]. *)
Definition truthy (o : option string) : bool :=
  match o with
  | Some s => negb (String.eqb s "")
  | None => false
  end.

End Py.

(** ** models.py *)

Inductive TaskStatus : Set :=
| PENDING | READY | RUNNING | COMPLETED | FAILED | SKIPPED | RETRYING.

Inductive ExecutionStrategy : Set :=
| SEQUENTIAL | PARALLEL | CONDITIONAL | DAG.

Inductive AgentCapability : Set :=
| GENERAL | CODE_ANALYSIS | CODE_GENERATION | TESTING | DEBUGGING
| DOCUMENTATION | DATA_PROCESSING | FILE_OPERATIONS | API_INTEGRATION
| RESEARCH.

Inductive WorkflowStatus : Set :=
| WfPending | WfRunning | WfCompleted | WfFailed | WfPartial.

Definition TaskStatus_eqb (a b : TaskStatus) : bool :=
  match a, b with
  | PENDING, PENDING | READY, READY | RUNNING, RUNNING
  | COMPLETED, COMPLETED | FAILED, FAILED | SKIPPED, SKIPPED
  | RETRYING, RETRYING => true
  | _, _ => false
  end.

Definition cap_code (c : AgentCapability) : nat :=
  match c with
  | GENERAL => 0 | CODE_ANALYSIS => 1 | CODE_GENERATION => 2
  | TESTING => 3 | DEBUGGING => 4 | DOCUMENTATION => 5
  | DATA_PROCESSING => 6 | FILE_OPERATIONS => 7 | API_INTEGRATION => 8
  | RESEARCH => 9
  end%nat.

Definition cap_eqb (a b : AgentCapability) : bool :=
  Nat.eqb (cap_code a) (cap_code b).

(** Values of [dict[str, Any]] parameters, as far as [json.dumps]
    accepts them. *)
#[local] Set Warnings "-register-all".
Inductive json : Type :=
| JNull
| JBool (b : bool)
| JInt (n : Z)
| JStr (s : string)
| JList (l : list json)
| JDict (d : list (string * json)).

Record RetryConfig : Type := mkRetry {
  max_retries : nat;
  backoff_multiplier : Q;
  initial_delay : Q;
  max_delay : Q
}.

Definition default_retry : RetryConfig :=
  mkRetry 3 (2 # 1) (1 # 1) (60 # 1).

Record TaskDefinition : Type := mkTask {
  id : string;
  description : string;
  depends_on : list string;
  required_capabilities : list AgentCapability;
  required_skills : list string;
  priority : Z;
  retry_config : RetryConfig;
  parameters : Py.dict json;
  expected_output_type : option string;
  agent_type : option string;
  condition : option string
}.

(** [TaskDefinition(id=i, description=d)] with every default. *)
Definition task_default (i d : string) : TaskDefinition :=
  mkTask i d [] [GENERAL] [] 5 default_retry [] None None None.

Record TaskResult : Type := mkResult {
  task_id : string;
  status : TaskStatus;
  output : option string;
  error : option string;
  started_at : option Z;
  completed_at : option Z;
  duration_seconds : option Z;
  retry_count : Z;
  agent_used : option string
}.

Record WorkflowDefinition : Type := mkWorkflow {
  wf_id : string;
  tasks : list TaskDefinition;
  execution_strategy : ExecutionStrategy;
  default_timeout_seconds : option Q;
  max_parallel_tasks : nat;
  continue_on_failure : bool
}.

Record WorkflowState : Type := mkState {
  workflow_id : string;
  wstatus : WorkflowStatus;
  task_results : Py.dict TaskResult;
  current_tasks : list string;
  pending_tasks : list string;
  completed_tasks : list string;
  failed_tasks : list string;
  wstarted_at : option Z;
  wcompleted_at : option Z;
  werror : option string
}.

Record AgentRouting : Type := mkRouting {
  r_agent_type : string;
  capabilities : list AgentCapability;
  r_priority : Z;
  max_concurrent_tasks : Z
}.

(** [WorkflowState.get_task_status] *)
Definition get_task_status (s : WorkflowState) (tid : string) : TaskStatus :=
  match Py.get (task_results s) tid with
  | Some r => status r
  | None =>
      if Py.mem tid (current_tasks s) then RUNNING
      else if Py.mem tid (pending_tasks s) then PENDING
      else if Py.mem tid (completed_tasks s) then COMPLETED
      else if Py.mem tid (failed_tasks s) then FAILED
      else PENDING
  end.

(** [WorkflowState.is_task_ready] *)
Definition is_task_ready (s : WorkflowState) (t : TaskDefinition) : bool :=
  forallb (fun dep => TaskStatus_eqb (get_task_status s dep) COMPLETED)
          (depends_on t).

(** ** state.py *)

Record StateManager : Type := mkSM {
  workflow : WorkflowDefinition;
  state : WorkflowState
}.

Definition with_state (sm : StateManager) (s : WorkflowState) : StateManager :=
  mkSM (workflow sm) s.

(** [StateManager.__init__] *)
Definition StateManager_init (wf : WorkflowDefinition) : StateManager :=
  mkSM wf (mkState (wf_id wf) WfPending [] [] (map id (tasks wf)) [] []
                   None None None).

Definition start_workflow (now : Z) (sm : StateManager) : StateManager :=
  let s := state sm in
  with_state sm
    (mkState (workflow_id s) WfRunning (task_results s) (current_tasks s)
       (pending_tasks s) (completed_tasks s) (failed_tasks s)
       (Some now) (wcompleted_at s) (werror s)).

Definition complete_workflow (now : Z) (sm : StateManager) : StateManager :=
  let s := state sm in
  with_state sm
    (mkState (workflow_id s) WfCompleted (task_results s) (current_tasks s)
       (pending_tasks s) (completed_tasks s) (failed_tasks s)
       (wstarted_at s) (Some now) (werror s)).

Definition fail_workflow (now : Z) (err : string) (sm : StateManager)
  : StateManager :=
  let s := state sm in
  with_state sm
    (mkState (workflow_id s) WfFailed (task_results s) (current_tasks s)
       (pending_tasks s) (completed_tasks s) (failed_tasks s)
       (wstarted_at s) (Some now) (Some err)).

(** Replaces the four membership lists and the result map, the fields the
    task transitions write. *)
Definition put_tasks (s : WorkflowState) (res : Py.dict TaskResult)
    (cur pend comp fail : list string) : WorkflowState :=
  mkState (workflow_id s) (wstatus s) res cur pend comp fail
          (wstarted_at s) (wcompleted_at s) (werror s).

(** [(completed_at - started_at).total_seconds()] when [started_at] is
    set. *)
Definition duration_from (started : option Z) (now : Z) (old : option Z)
  : option Z :=
  match started with
  | Some t0 => Some (now - t0)
  | None => old
  end.

(** [StateManager.start_task] *)
Definition start_task (now : Z) (tid : string) (sm : StateManager)
  : StateManager :=
  let s := state sm in
  let pend := Py.discard tid (pending_tasks s) in
  let cur := Py.add tid (current_tasks s) in
  let res :=
    match Py.get (task_results s) tid with
    | None =>
        Py.set (task_results s) tid
          (mkResult tid RUNNING None None (Some now) None None 0 None)
    | Some r =>
        Py.set (task_results s) tid
          (mkResult (task_id r) RUNNING (output r) (error r) (Some now)
             (completed_at r) (duration_seconds r) (retry_count r)
             (agent_used r))
    end in
  with_state sm (put_tasks s res cur pend (completed_tasks s) (failed_tasks s)).

(** [StateManager.complete_task] *)
Definition complete_task (now : Z) (tid : string) (out : option string)
    (agent : option string) (sm : StateManager) : StateManager :=
  let s := state sm in
  let cur := Py.discard tid (current_tasks s) in
  let comp := Py.add tid (completed_tasks s) in
  let res :=
    match Py.get (task_results s) tid with
    | None => task_results s
    | Some r =>
        Py.set (task_results s) tid
          (mkResult (task_id r) COMPLETED out (error r) (started_at r)
             (Some now) (duration_from (started_at r) now (duration_seconds r))
             (retry_count r) agent)
    end in
  with_state sm (put_tasks s res cur (pending_tasks s) comp (failed_tasks s)).

(** [StateManager.fail_task] *)
Definition fail_task (now : Z) (tid : string) (err : string)
    (sm : StateManager) : StateManager :=
  let s := state sm in
  let cur := Py.discard tid (current_tasks s) in
  let fail := Py.add tid (failed_tasks s) in
  let res :=
    match Py.get (task_results s) tid with
    | None => task_results s
    | Some r =>
        Py.set (task_results s) tid
          (mkResult (task_id r) FAILED (output r) (Some err) (started_at r)
             (Some now) (duration_from (started_at r) now (duration_seconds r))
             (retry_count r) (agent_used r))
    end in
  with_state sm (put_tasks s res cur (pending_tasks s) (completed_tasks s) fail).

(** [StateManager.retry_task] *)
Definition retry_task (tid : string) (sm : StateManager) : StateManager :=
  let s := state sm in
  let fail := Py.discard tid (failed_tasks s) in
  let pend := Py.add tid (pending_tasks s) in
  let res :=
    match Py.get (task_results s) tid with
    | None => task_results s
    | Some r =>
        Py.set (task_results s) tid
          (mkResult (task_id r) RETRYING (output r) (error r) (started_at r)
             (completed_at r) (duration_seconds r) (retry_count r + 1)
             (agent_used r))
    end in
  with_state sm (put_tasks s res (current_tasks s) pend (completed_tasks s) fail).

(** [StateManager.skip_task]; [now1] and [now2] are the two clock
    readings taken when a fresh result is built. *)
Definition skip_task (now1 now2 : Z) (tid : string) (reason : string)
    (sm : StateManager) : StateManager :=
  let s := state sm in
  let pend := Py.discard tid (pending_tasks s) in
  let res :=
    match Py.get (task_results s) tid with
    | None =>
        Py.set (task_results s) tid
          (mkResult tid SKIPPED None (Some reason) (Some now1) (Some now2)
             None 0 None)
    | Some r =>
        Py.set (task_results s) tid
          (mkResult (task_id r) SKIPPED (output r) (Some reason)
             (started_at r) (completed_at r) (duration_seconds r)
             (retry_count r) (agent_used r))
    end in
  with_state sm
    (put_tasks s res (current_tasks s) pend (completed_tasks s) (failed_tasks s)).

Definition is_workflow_complete (sm : StateManager) : bool :=
  (Nat.eqb (List.length (pending_tasks (state sm))) 0
   && Nat.eqb (List.length (current_tasks (state sm))) 0)%bool.

Definition has_failed_tasks (sm : StateManager) : bool :=
  Nat.ltb 0 (List.length (failed_tasks (state sm))).

(** [StateManager._evaluate_condition] *)
Definition evaluate_condition (sm : StateManager) (cond : string) : bool :=
  existsb (fun tid => Py.substring_of tid cond) (completed_tasks (state sm)).

(** [StateManager.get_task_by_id] *)
Definition get_task_by_id (sm : StateManager) (tid : string)
  : option TaskDefinition :=
  find (fun t => String.eqb (id t) tid) (tasks (workflow sm)).

(** [StateManager.build_dependency_graph] *)
Definition build_dependency_graph (wf : WorkflowDefinition)
  : Py.dict (list string) :=
  fold_left (fun g t => Py.set g (id t) (depends_on t)) (tasks wf) [].

Module Kahn.

(** [in_degree[dep] = in_degree.get(dep, 0)] for every dependency,
    then [in_degree[task_id] += 1] once per listed dependency. *)
Definition count_node (d : Py.dict Z) (item : string * list string)
  : Py.dict Z :=
  let '(tid, deps) := item in
  let d1 := fold_left (fun d dep => Py.set d dep (Py.get_or d dep 0)) deps d in
  fold_left (fun d _ => Py.set d tid (Py.get_or d tid 0 + 1)) deps d1.

Definition in_degrees (wf : WorkflowDefinition) : Py.dict Z :=
  fold_left count_node (build_dependency_graph wf)
    (fold_left (fun d t => Py.set d (id t) 0) (tasks wf) []).

(** One turn of the inner [for other_id, deps in graph.items()]. *)
Definition relax (tid : string) (acc : Py.dict Z * list string)
    (item : string * list string) : Py.dict Z * list string :=
  let '(d, q) := acc in
  let '(other, deps) := item in
  if Py.mem tid deps then
    let v := Py.get_or d other 0 - 1 in
    (Py.set d other v, if v =? 0 then q ++ [other] else q)
  else (d, q).

(** The [while queue:] loop; [None] when the fuel runs out. *)
Fixpoint loop (fuel : nat) (graph : Py.dict (list string))
    (d : Py.dict Z) (queue result : list string) : option (list string) :=
  match fuel with
  | O => None
  | S f =>
      match queue with
      | [] => Some result
      | tid :: q =>
          let '(d', q') := fold_left (relax tid) graph (d, q) in
          loop f graph d' q' (result ++ [tid])
      end
  end.

Definition initial_queue (d : Py.dict Z) : list string :=
  map fst (filter (fun kv => snd kv =? 0) d).

End Kahn.

Definition cycle_message : string := "Circular dependency detected in workflow".

(** [StateManager.topological_sort]: [inl msg] is the [ValueError]. The
    outer [None] (fuel exhausted) never occurs, see
    [topological_sort_total]. *)
Definition topological_sort (sm : StateManager)
  : option (string + list string) :=
  let wf := workflow sm in
  let graph := build_dependency_graph wf in
  let d := Kahn.in_degrees wf in
  match Kahn.loop (S (List.length d)) graph d (Kahn.initial_queue d) [] with
  | None => None
  | Some result =>
      if Nat.eqb (List.length result) (List.length (tasks wf))
      then Some (inr result)
      else Some (inl cycle_message)
  end.

Module Samples.

Definition dep_task (i : string) (deps : list string) : TaskDefinition :=
  mkTask i "" deps [GENERAL] [] 5 default_retry [] None None None.

Definition wf_of (ts : list TaskDefinition) (cof : bool)
  : WorkflowDefinition :=
  mkWorkflow "wf" ts DAG None 5 cof.

(** The workflow of [test_dag_executor_with_circular_dependency]. *)
Definition two_cycle (cof : bool) : WorkflowDefinition :=
  wf_of [dep_task "task1" ["task2"]; dep_task "task2" ["task1"]] cof.

Definition chain : WorkflowDefinition :=
  wf_of [dep_task "C" ["B"]; dep_task "A" []; dep_task "B" ["A"]] false.

(** A two-cycle next to a task that names two ids nobody defines. *)
Definition masked_cycle : WorkflowDefinition :=
  wf_of [dep_task "A" ["B"]; dep_task "B" ["A"]; dep_task "C" ["X"; "Y"]]
        false.

End Samples.

(** ** routing.py *)

Record TaskRouter : Type := mkRouter {
  agent_routing : list AgentRouting;
  agent_load : Py.dict Z
}.

(** [required_caps.issubset(agent_caps)] *)
Definition agent_matches_capabilities (a : AgentRouting)
    (required : list AgentCapability) : bool :=
  forallb (fun c => existsb (cap_eqb c) (capabilities a)) required.

Definition find_suitable_agents (r : TaskRouter) (t : TaskDefinition)
  : list AgentRouting :=
  filter (fun a => agent_matches_capabilities a (required_capabilities t))
         (agent_routing r).

Definition get_agent_load (r : TaskRouter) (agent : string) : Z :=
  Py.get_or (agent_load r) agent 0.

(** The tuple [(load, -priority, -specificity)]. *)
Definition sort_key (r : TaskRouter) (a : AgentRouting) : Z * Z * Z :=
  (get_agent_load r (r_agent_type a),
   - r_priority a,
   - Z.of_nat (List.length (capabilities a))).

(** Python's order on tuples of three integers. *)
Definition key_ltb (x y : Z * Z * Z) : bool :=
  let '(a1, b1, c1) := x in
  let '(a2, b2, c2) := y in
  (a1 <? a2) || ((a1 =? a2) && ((b1 <? b2) || ((b1 =? b2) && (c1 <? c2)))).

Definition key_leb (x y : Z * Z * Z) : bool := negb (key_ltb y x).

(** [list.sort(key=...)] is stable: an element goes in front of the
    first element of the sorted tail that is not smaller. *)
Fixpoint insert_by {A} (key : A -> Z * Z * Z) (x : A) (l : list A) : list A :=
  match l with
  | [] => [x]
  | y :: r =>
      if key_leb (key x) (key y) then x :: y :: r
      else y :: insert_by key x r
  end.

Definition sort_by {A} (key : A -> Z * Z * Z) (l : list A) : list A :=
  fold_right (insert_by key) [] l.

Definition has_capacity (r : TaskRouter) (a : AgentRouting) : bool :=
  get_agent_load r (r_agent_type a) <? max_concurrent_tasks a.

(** The list that [_select_best_agent] sorts. *)
Definition candidates (r : TaskRouter) (suitable : list AgentRouting)
  : list AgentRouting :=
  match filter (has_capacity r) suitable with
  | [] => suitable
  | available => available
  end.

(** [TaskRouter._select_best_agent]; [None] is the [IndexError] of
    [available_agents[0]] on an empty list. *)
Definition select_best_agent (r : TaskRouter) (suitable : list AgentRouting)
  : option AgentRouting :=
  hd_error (sort_by (sort_key r) (candidates r suitable)).

Definition general_purpose : string := "general-purpose".

(** [TaskRouter.route_task] *)
Definition route_task (r : TaskRouter) (t : TaskDefinition) : string :=
  if Py.truthy (agent_type t) then
    match agent_type t with Some a => a | None => general_purpose end
  else
    match find_suitable_agents r t with
    | [] => general_purpose
    | suitable =>
        match select_best_agent r suitable with
        | Some best => r_agent_type best
        | None => general_purpose
        end
    end.

Definition increment_agent_load (agent : string) (r : TaskRouter) : TaskRouter :=
  mkRouter (agent_routing r)
           (Py.set (agent_load r) agent (get_agent_load r agent + 1)).

Definition decrement_agent_load (agent : string) (r : TaskRouter) : TaskRouter :=
  mkRouter (agent_routing r)
           (Py.set (agent_load r) agent (Z.max 0 (get_agent_load r agent - 1))).

(** [create_default_routing] *)
Definition create_default_routing : list AgentRouting :=
  [ mkRouting "general-purpose" [GENERAL] 5 3;
    mkRouting "code-analyzer" [CODE_ANALYSIS; DEBUGGING; GENERAL] 7 2;
    mkRouting "code-generator" [CODE_GENERATION; GENERAL] 7 2;
    mkRouting "test-specialist" [TESTING; CODE_ANALYSIS; GENERAL] 6 2;
    mkRouting "doc-writer" [DOCUMENTATION; GENERAL] 6 2;
    mkRouting "data-processor" [DATA_PROCESSING; FILE_OPERATIONS; GENERAL] 6 2;
    mkRouting "researcher" [RESEARCH; GENERAL] 5 3 ].

(** ** strategy_selector.py *)

Definition has_dependencies (wf : WorkflowDefinition) : bool :=
  existsb (fun t => Nat.ltb 0 (List.length (depends_on t))) (tasks wf).

(** [any(task.condition is not None ...)] *)
Definition has_conditions (wf : WorkflowDefinition) : bool :=
  existsb (fun t => match condition t with Some _ => true | None => false end)
          (tasks wf).

Definition task_count (wf : WorkflowDefinition) : nat := List.length (tasks wf).

(** [recommend_strategy], branch for branch. *)
Definition recommend_strategy (wf : WorkflowDefinition) : ExecutionStrategy :=
  match tasks wf with
  | [] => SEQUENTIAL
  | _ =>
      if has_conditions wf then CONDITIONAL
      else if negb (has_dependencies wf) then
        if Nat.ltb 1 (task_count wf) then PARALLEL else SEQUENTIAL
      else if has_dependencies wf then DAG
      else SEQUENTIAL
  end.

(** [auto_select_strategy] *)
Definition auto_select_strategy (wf : WorkflowDefinition) : ExecutionStrategy :=
  match execution_strategy wf with
  | DAG => recommend_strategy wf
  | s => s
  end.

(** The decision table of the specification, read with "a non-empty
    condition" as a condition string that is present and not empty. *)
Definition decision_table_nonempty (wf : WorkflowDefinition)
  : ExecutionStrategy :=
  if existsb (fun t => Py.truthy (condition t)) (tasks wf) then CONDITIONAL
  else if negb (has_dependencies wf) && Nat.ltb 1 (task_count wf) then PARALLEL
  else if has_dependencies wf then DAG
  else SEQUENTIAL.

(** The same table with "has a condition" read as [condition is not
    None]. *)
Definition decision_table (wf : WorkflowDefinition) : ExecutionStrategy :=
  if has_conditions wf then CONDITIONAL
  else if negb (has_dependencies wf) && Nat.ltb 1 (task_count wf) then PARALLEL
  else if has_dependencies wf then DAG
  else SEQUENTIAL.

(** ** coordinator.py and executor.py

    One workflow run threads a [World]: the state manager, the router,
    the number of clock readings and of agent invocations so far, and a
    trace of what the driver did.  A computation is a function
    [World -> option (A * World)]; [None] means that a loop ran out of
    fuel. *)

Inductive Event : Type :=
| EvInvoke (tid agent : string)
| EvRetry (tid : string)
| EvSleep (delay : Q)
| EvProgress (snapshot : WorkflowState).

Record World : Type := mkWorld {
  sm : StateManager;
  router : TaskRouter;
  clock : nat;
  calls : nat;
  trace : list Event
}.

Definition M (A : Type) : Type := World -> option (A * World).

Definition ret {A} (a : A) : M A := fun w => Some (a, w).

Definition bind {A B} (m : M A) (k : A -> M B) : M B :=
  fun w => match m w with
           | Some (a, w') => k a w'
           | None => None
           end.

Declare Scope world_scope.
Delimit Scope world_scope with world.
Notation "x <- m ;; k" := (bind m (fun x => k))
  (at level 61, m at next level, right associativity) : world_scope.
Notation "m ;;; k" := (bind m (fun _ => k))
  (at level 61, right associativity) : world_scope.
Local Open Scope world_scope.

Definition get_world : M World := fun w => Some (w, w).

Definition on_sm (f : StateManager -> StateManager) : M unit :=
  fun w => Some (tt, mkWorld (f (sm w)) (router w) (clock w) (calls w) (trace w)).

Definition on_router (f : TaskRouter -> TaskRouter) : M unit :=
  fun w => Some (tt, mkWorld (sm w) (f (router w)) (clock w) (calls w) (trace w)).

Definition emit (e : Event) : M unit :=
  fun w => Some (tt, mkWorld (sm w) (router w) (clock w) (calls w)
                             (trace w ++ [e])).

(** [progress_callback(state_manager.state)] *)
Definition progress : M unit :=
  fun w => emit (EvProgress (state (sm w))) w.

(** [for x in l: body(x)] *)
Fixpoint for_each {A} (l : list A) (body : A -> M unit) : M unit :=
  match l with
  | [] => ret tt
  | x :: r => body x ;;; for_each r body
  end.

(** Python's [min(a, b)]: [b] when [b < a], else [a]. *)
Definition py_min (a b : Q) : Q := if Qlt_le_dec b a then b else a.

(** [a * b] on floats.  Python rounds the product to binary64; which
    rational that is, is left to the instance. *)
Class FloatArith : Type := { float_mul : Q -> Q -> Q }.

(** Products without rounding: the instance of the concrete runs, whose
    delays multiply exactly in binary64 as well, and of the statements
    that bind no instance. *)
#[global] Instance exact_products : FloatArith := {| float_mul := Qmult |}.

Section Substrate.

Context {float_arith : FloatArith}.

(** [now_at k] is what the [k]-th call of [datetime.now()] returns. *)
Variable now_at : nat -> Z.

(** The agent substrate behind [_execute_single_task]: the prompt is a
    function of the task and of the state, so the substrate is given
    those, with the number of earlier invocations and the routed agent
    type.  [inl out] is the returned data, [inr msg] an exception with
    [str(e) = msg]. *)
Variable agent_run :
  nat -> TaskDefinition -> string -> WorkflowState -> string + string.

Definition now : M Z :=
  fun w => Some (now_at (clock w),
                 mkWorld (sm w) (router w) (S (clock w)) (calls w) (trace w)).

Definition execute_single_task (t : TaskDefinition) (agent : string)
  : M (string + string) :=
  fun w =>
    Some (agent_run (calls w) t agent (state (sm w)),
          mkWorld (sm w) (router w) (clock w) (S (calls w))
                  (trace w ++ [EvInvoke (id t) agent])).

Definition start_task_m (tid : string) : M unit :=
  t0 <- now ;; on_sm (start_task t0 tid).

(** [complete_task] and [fail_task] read the clock only under
    [if result:], when the task has a result to stamp. *)
Definition complete_task_m (tid out agent : string) : M unit :=
  w <- get_world ;;
  if Py.has (task_results (state (sm w))) tid
  then t0 <- now ;; on_sm (complete_task t0 tid (Some out) (Some agent))
  else on_sm (complete_task 0 tid (Some out) (Some agent)).

Definition fail_task_m (tid err : string) : M unit :=
  w <- get_world ;;
  if Py.has (task_results (state (sm w))) tid
  then t0 <- now ;; on_sm (fail_task t0 tid err)
  else on_sm (fail_task 0 tid err).

Definition retry_task_m (tid : string) : M unit :=
  on_sm (retry_task tid) ;;; emit (EvRetry tid).

(** [skip_task] reads the clock twice, and only when it builds a fresh
    result. *)
Definition skip_task_m (tid reason : string) : M unit :=
  w <- get_world ;;
  if Py.has (task_results (state (sm w))) tid
  then on_sm (skip_task 0 0 tid reason)
  else t1 <- now ;; t2 <- now ;; on_sm (skip_task t1 t2 tid reason).

(** The [while retry_count <= max_retries] loop of the driver. *)
Fixpoint retry_loop (fuel : nat) (t : TaskDefinition) (agent : string)
    (retry_count : nat) (delay : Q) : M unit :=
  match fuel with
  | O => fun _ => None
  | S fuel' =>
      let cfg := retry_config t in
      if Nat.leb retry_count (max_retries (retry_config t)) then
        r <- execute_single_task t agent ;;
        match r with
        | inl out =>
            complete_task_m (id t) out agent ;;;
            on_router (decrement_agent_load agent) ;;;
            progress
        | inr error_msg =>
            if Nat.ltb retry_count (max_retries (retry_config t)) then
              retry_task_m (id t) ;;;
              progress ;;;
              emit (EvSleep delay) ;;;
              retry_loop fuel' t agent (S retry_count)
                (py_min (float_mul delay (backoff_multiplier cfg)) (max_delay cfg))
            else
              fail_task_m (id t) error_msg ;;;
              on_router (decrement_agent_load agent) ;;;
              progress
        end
      else
        fail_task_m (id t) "Unexpected error in retry logic" ;;;
        on_router (decrement_agent_load agent)
  end.

(** The driver [execute_task] built by [_create_task_executor]. *)
Definition execute_task (t : TaskDefinition) : M unit :=
  w <- get_world ;;
  let agent := route_task (router w) t in
  on_router (increment_agent_load agent) ;;;
  start_task_m (id t) ;;;
  progress ;;;
  retry_loop (S (S (max_retries (retry_config t)))) t agent 0
             (initial_delay (retry_config t)).

(** [StateManager.get_ready_tasks], which skips in place. *)
Fixpoint get_ready_tasks_from (ts : list TaskDefinition)
    (ready : list TaskDefinition) : M (list TaskDefinition) :=
  match ts with
  | [] => ret ready
  | t :: r =>
      w <- get_world ;;
      if Py.mem (id t) (pending_tasks (state (sm w)))
         && is_task_ready (state (sm w)) t
      then
        if Py.truthy (condition t)
           && negb (evaluate_condition (sm w)
                      (match condition t with Some c => c | None => "" end))
        then skip_task_m (id t) "Condition not met" ;;;
             get_ready_tasks_from r ready
        else get_ready_tasks_from r (ready ++ [t])
      else get_ready_tasks_from r ready
  end.

Definition get_ready_tasks : M (list TaskDefinition) :=
  w <- get_world ;; get_ready_tasks_from (tasks (workflow (sm w))) [].

Definition stop_on_failure (w : World) : bool :=
  negb (continue_on_failure (workflow (sm w))) && has_failed_tasks (sm w).

(** [SequentialExecutor.execute] *)
Definition SequentialExecutor_execute : M unit :=
  w0 <- get_world ;;
  for_each (tasks (workflow (sm w0)))
    (fun t =>
       w <- get_world ;;
       if stop_on_failure w
       then skip_task_m (id t) "Previous task failed"
       else execute_task t).

(** [ConditionalExecutor.execute] *)
Definition ConditionalExecutor_execute : M unit :=
  w0 <- get_world ;;
  for_each (tasks (workflow (sm w0)))
    (fun t =>
       w <- get_world ;;
       if negb (is_task_ready (state (sm w)) t)
       then skip_task_m (id t) "Dependencies not satisfied"
       else if Py.truthy (condition t)
               && negb (evaluate_condition (sm w)
                          (match condition t with Some c => c | None => "" end))
       then skip_task_m (id t) "Condition not met"
       else if stop_on_failure w
       then skip_task_m (id t) "Previous task failed"
       else execute_task t).

Section Scheduling.

(** What the event loop does with the coroutines of the parallel and
    DAG executors is left open: [wait_first_completed active] stands
    for [asyncio.wait(active, return_when=FIRST_COMPLETED)] and returns
    the drivers still running, [wait_all active] for [asyncio.wait]
    and [asyncio.gather] over drivers that all run to their end. *)
Variable wait_first_completed :
  list TaskDefinition -> M (list TaskDefinition).
Variable wait_all : list TaskDefinition -> M unit.

(** [ParallelExecutor.execute] *)
Definition ParallelExecutor_execute : M unit :=
  w <- get_world ;; wait_all (tasks (workflow (sm w))).

(** The [while not is_workflow_complete()] loop of [DAGExecutor.execute].
    The driver above raises nothing, so the [except] clause of
    [_execute_task_wrapper] is never entered. *)
Fixpoint dag_loop (fuel : nat) (active : list TaskDefinition) : M unit :=
  match fuel with
  | O => fun _ => None
  | S fuel' =>
      w <- get_world ;;
      if is_workflow_complete (sm w) then ret tt
      else
        ready <- get_ready_tasks ;;
        w1 <- get_world ;;
        if stop_on_failure w1 then
          for_each ready (fun t => skip_task_m (id t) "Previous task failed") ;;;
          match active with
          | [] => ret tt
          | _ => wait_all active
          end
        else
          let room := (max_parallel_tasks (workflow (sm w1))
                       - List.length active)%nat in
          let active' := active ++ firstn room ready in
          let ready' := skipn room ready in
          match active' with
          | _ :: _ =>
              still <- wait_first_completed active' ;;
              dag_loop fuel' still
          | [] =>
              match ready' with
              | [] => ret tt
              | _ => dag_loop fuel' []
              end
          end
  end.

(** [DAGExecutor.execute] *)
Definition DAGExecutor_execute (fuel : nat) : M unit :=
  w <- get_world ;;
  match topological_sort (sm w) with
  | None => fun _ => None
  | Some (inl e) =>
      for_each (tasks (workflow (sm w))) (fun t => fail_task_m (id t) e)
  | Some (inr _) => dag_loop fuel []
  end.

(** [ExecutorFactory.create_executor(...).execute()] *)
Definition create_executor (fuel : nat) (strategy : ExecutionStrategy)
  : M unit :=
  match strategy with
  | SEQUENTIAL => SequentialExecutor_execute
  | PARALLEL => ParallelExecutor_execute
  | DAG => DAGExecutor_execute fuel
  | CONDITIONAL => ConditionalExecutor_execute
  end.

(** How [executor.execute()] ends inside [execute_workflow]. *)
Inductive Outcome : Type :=
| Returned (w : World)
| TimedOut (w : World)
| Raised (msg : string) (w : World).

(** The code after [executor.execute()]: the completion rule and the two
    [except] clauses, then the final progress callback. *)
Definition finish_workflow (wf : WorkflowDefinition) (o : Outcome) : M unit :=
  fun _ =>
    match o with
    | Returned w =>
        ((if has_failed_tasks (sm w) && negb (continue_on_failure wf)
          then t0 <- now ;; on_sm (fail_workflow t0 "One or more tasks failed")
          else t0 <- now ;; on_sm (complete_workflow t0)) ;;;
         progress) w
    | TimedOut w =>
        (t0 <- now ;; on_sm (fail_workflow t0 "Workflow execution timed out") ;;;
         progress) w
    | Raised msg w =>
        (t0 <- now ;;
         on_sm (fail_workflow t0
                  (String.append "Workflow execution error: " msg)) ;;;
         progress) w
    end.

(** [TaskOrchestrator.execute_workflow] for a run in which the executor
    returns in time and raises nothing. *)
Definition execute_workflow (fuel : nat) (wf : WorkflowDefinition)
    (auto_strategy : bool) : M unit :=
  on_sm (fun _ => StateManager_init wf) ;;;
  (let strategy := if auto_strategy then auto_select_strategy wf
                   else execution_strategy wf in
   t0 <- now ;;
   on_sm (start_workflow t0) ;;;
   create_executor fuel strategy ;;;
   w <- get_world ;;
   finish_workflow wf (Returned w)).

End Scheduling.

(** The schedule in which no agent call suspends: each coroutine runs
    to its end as soon as the event loop reaches it. *)
Definition run_all (active : list TaskDefinition) : M unit :=
  for_each active execute_task.

Definition run_first (active : list TaskDefinition)
  : M (list TaskDefinition) :=
  run_all active ;;; ret [].

End Substrate.

(** A fresh orchestrator: default routing, no load, nothing run yet. *)
Definition fresh_world (wf : WorkflowDefinition) : World :=
  mkWorld (StateManager_init wf) (mkRouter create_default_routing []) 0 0 [].

Definition final_state (r : option (unit * World)) : option WorkflowState :=
  match r with
  | Some (_, w) => Some (state (sm w))
  | None => None
  end.

(** ** cache.py *)

Module Json.

Local Open Scope string_scope.

Definition quote : string := String (ascii_of_nat 34) EmptyString.
Definition backslash : string := String (ascii_of_nat 92) EmptyString.

Definition hex_digit (n : nat) : ascii :=
  if Nat.ltb n 10 then ascii_of_nat (48 + n) else ascii_of_nat (87 + n).

(** [json.dumps] escapes the quote, the backslash and every character
    outside [' '..'~']; characters are code points below 256. *)
Definition escape_char (c : ascii) : string :=
  let n := nat_of_ascii c in
  if Nat.eqb n 34 then backslash ++ quote
  else if Nat.eqb n 92 then backslash ++ backslash
  else if Nat.eqb n 10 then backslash ++ "n"
  else if Nat.eqb n 13 then backslash ++ "r"
  else if Nat.eqb n 9 then backslash ++ "t"
  else if Nat.eqb n 8 then backslash ++ "b"
  else if Nat.eqb n 12 then backslash ++ "f"
  else if Nat.ltb n 32 || Nat.ltb 126 n then
    backslash ++ "u00"
    ++ String (hex_digit (n / 16)) (String (hex_digit (n mod 16)) EmptyString)
  else String c EmptyString.

Fixpoint escape (s : string) : string :=
  match s with
  | EmptyString => EmptyString
  | String c r => escape_char c ++ escape r
  end.

Definition dump_string (s : string) : string := quote ++ escape s ++ quote.

Definition dump_int (n : Z) : string :=
  DecimalString.NilZero.string_of_int (Z.to_int n).

(** [sorted(dct.items())]: a stable insertion sort on the keys. *)
Fixpoint insert_item {V} (x : string * V) (l : list (string * V))
  : list (string * V) :=
  match l with
  | [] => [x]
  | y :: r =>
      if String.leb (fst x) (fst y) then x :: y :: r
      else y :: insert_item x r
  end.

Definition sort_items {V} (l : list (string * V)) : list (string * V) :=
  fold_right insert_item [] l.

Definition join_items (items : list string) : string :=
  String.concat ", " items.

Definition dump_member (kv : string * string) : string :=
  dump_string (fst kv) ++ ": " ++ snd kv.

(** [json.dumps(v, sort_keys=True)] with the default separators.  The
    members of an object are rendered first and sorted afterwards, which
    gives the same text as sorting first. *)
Fixpoint dumps (v : json) : string :=
  match v with
  | JNull => "null"
  | JBool true => "true"
  | JBool false => "false"
  | JInt n => dump_int n
  | JStr s => dump_string s
  | JList l => "[" ++ join_items (map dumps l) ++ "]"
  | JDict d =>
      "{" ++ join_items
               (map dump_member
                  (sort_items (map (fun kv => (fst kv, dumps (snd kv))) d)))
          ++ "}"
  end.

End Json.

(** [str(c)] of a member of the [str]-mixin enum *)
Definition str_capability (c : AgentCapability) : string :=
  String.append "AgentCapability."
  match c with
  | GENERAL => "GENERAL" | CODE_ANALYSIS => "CODE_ANALYSIS"
  | CODE_GENERATION => "CODE_GENERATION" | TESTING => "TESTING"
  | DEBUGGING => "DEBUGGING" | DOCUMENTATION => "DOCUMENTATION"
  | DATA_PROCESSING => "DATA_PROCESSING"
  | FILE_OPERATIONS => "FILE_OPERATIONS"
  | API_INTEGRATION => "API_INTEGRATION" | RESEARCH => "RESEARCH"
  end.

(** [str(result.output)] *)
Definition str_output (o : option string) : string :=
  match o with Some s => s | None => "None" end.

Inductive CacheStrategy : Set := NONE | MEMORY | DISK | HYBRID.

Record CacheConfig : Type := mkCacheConfig {
  strategy : CacheStrategy;
  ttl_seconds : option Z;
  max_size : nat;
  cache_dir : bool;
  include_dependencies : bool
}.

Record CacheEntry : Type := mkEntry {
  key : string;
  result : TaskResult;
  created_at : Z;
  accessed_at : Z;
  access_count : Z;
  dependency_keys : list string
}.

(** Truthiness of [dict | None]. *)
Definition nonempty_dict {V} (d : option (Py.dict V)) : bool :=
  match d with
  | Some (_ :: _) => true
  | _ => false
  end.

(** The [dep_outputs] dictionary of [CacheKey.generate]. *)
Definition dep_outputs (t : TaskDefinition) (deps : Py.dict TaskResult)
  : Py.dict json :=
  fold_left
    (fun acc dep =>
       match Py.get deps dep with
       | Some r => Py.set acc dep (JStr (str_output (output r)))
       | None => acc
       end)
    (depends_on t) [].

Definition key_components (t : TaskDefinition)
    (dependency_results : option (Py.dict TaskResult))
    (include_deps : bool) : json :=
  let base :=
    [ ("task_id", JStr (id t));
      ("description", JStr (description t));
      ("parameters", JDict (parameters t));
      ("required_capabilities",
       JList (map (fun c => JStr (str_capability c)) (required_capabilities t)));
      ("required_skills", JList (map JStr (required_skills t))) ] in
  if include_deps && nonempty_dict dependency_results then
    JDict (Py.set base "dependencies"
             (JDict (dep_outputs t
                       (match dependency_results with
                        | Some d => d | None => [] end))))
  else JDict base.

Definition key_json (t : TaskDefinition)
    (dependency_results : option (Py.dict TaskResult))
    (include_deps : bool) : string :=
  Json.dumps (key_components t dependency_results include_deps).

Record ResultCache : Type := mkCache {
  config : CacheConfig;
  memory_cache : Py.dict CacheEntry;
  disk_files : Py.dict (TaskResult * Z);
  hits : Z;
  misses : Z;
  evictions : Z;
  invalidations : Z
}.

Definition uses_memory (c : ResultCache) : bool :=
  match strategy (config c) with MEMORY | HYBRID => true | _ => false end.

Definition uses_disk (c : ResultCache) : bool :=
  match strategy (config c) with DISK | HYBRID => true | _ => false end.

(** [ResultCache.__init__]: the disk strategies always get a directory. *)
Definition ResultCache_init (cfg : CacheConfig) : ResultCache :=
  mkCache
    (mkCacheConfig (strategy cfg) (ttl_seconds cfg) (max_size cfg)
       (match strategy cfg with
        | DISK | HYBRID => true
        | _ => cache_dir cfg
        end)
       (include_dependencies cfg))
    [] [] 0 0 0 0.

Definition with_memory (c : ResultCache) (m : Py.dict CacheEntry)
  : ResultCache :=
  mkCache (config c) m (disk_files c) (hits c) (misses c) (evictions c)
          (invalidations c).

(** [ResultCache._is_valid] *)
Definition is_valid (now : Z) (c : ResultCache) (e : CacheEntry) : bool :=
  match ttl_seconds (config c) with
  | None => true
  | Some ttl => now - created_at e <? ttl
  end.

(** The key that [min(keys, key=accessed_at)] returns: the first of the
    least recently used ones. *)
Fixpoint lru_key (m : Py.dict CacheEntry) : option string :=
  match m with
  | [] => None
  | (k, e) :: r =>
      match lru_key r with
      | Some k' =>
          match Py.get r k' with
          | Some e' => if accessed_at e' <? accessed_at e then Some k' else Some k
          | None => Some k
          end
      | None => Some k
      end
  end.

(** [ResultCache._evict_lru] *)
Definition evict_lru (c : ResultCache) : ResultCache :=
  match lru_key (memory_cache c) with
  | None => c
  | Some k =>
      mkCache (config c) (Py.del (memory_cache c) k) (disk_files c) (hits c)
              (misses c) (evictions c + 1) (invalidations c)
  end.

(** [ResultCache._store_in_memory]; the clock is read once per cache
    call. *)
Definition store_in_memory (now : Z) (k : string) (r : TaskResult)
    (dep_keys : list string) (c : ResultCache) : ResultCache :=
  let c1 := if Nat.leb (max_size (config c)) (List.length (memory_cache c))
            then evict_lru c else c in
  with_memory c1 (Py.set (memory_cache c1) k (mkEntry k r now now 0 dep_keys)).

(** [ResultCache._save_to_disk], for writes that succeed. *)
Definition save_to_disk (now : Z) (k : string) (r : TaskResult)
    (c : ResultCache) : ResultCache :=
  if cache_dir (config c) then
    mkCache (config c) (memory_cache c) (Py.set (disk_files c) k (r, now))
            (hits c) (misses c) (evictions c) (invalidations c)
  else c.

(** [ResultCache._load_from_disk], for reads that succeed; an expired
    file is unlinked. *)
Definition load_from_disk (now : Z) (k : string) (c : ResultCache)
  : option TaskResult * ResultCache :=
  if cache_dir (config c) then
    match Py.get (disk_files c) k with
    | None => (None, c)
    | Some (r, mtime) =>
        match ttl_seconds (config c) with
        | Some ttl =>
            if ttl <=? now - mtime then
              (None,
               mkCache (config c) (memory_cache c) (Py.del (disk_files c) k)
                       (hits c) (misses c) (evictions c) (invalidations c))
            else (Some r, c)
        | None => (Some r, c)
        end
    end
  else (None, c).

Definition count_hit (c : ResultCache) : ResultCache :=
  mkCache (config c) (memory_cache c) (disk_files c) (hits c + 1) (misses c)
          (evictions c) (invalidations c).

Definition count_miss (c : ResultCache) : ResultCache :=
  mkCache (config c) (memory_cache c) (disk_files c) (hits c) (misses c + 1)
          (evictions c) (invalidations c).

Definition count_invalidations (n : Z) (c : ResultCache) : ResultCache :=
  mkCache (config c) (memory_cache c) (disk_files c) (hits c) (misses c)
          (evictions c) (invalidations c + n).

Section Hashing.

(** [hashlib.sha256(s.encode()).hexdigest()] *)
Variable sha256_hex : string -> string.

(** [CacheKey.generate] *)
Definition generate (t : TaskDefinition)
    (dependency_results : option (Py.dict TaskResult))
    (include_deps : bool) : string :=
  sha256_hex (key_json t dependency_results include_deps).

(** The disk part of [ResultCache.get]. *)
Definition get_from_disk (now : Z) (k : string) (c : ResultCache)
  : option TaskResult * ResultCache :=
  if uses_disk c then
    match load_from_disk now k c with
    | (Some r, c1) =>
        let c2 := count_hit c1 in
        (Some r,
         match strategy (config c) with
         | HYBRID => store_in_memory now k r [] c2
         | _ => c2
         end)
    | (None, c1) => (None, count_miss c1)
    end
  else (None, count_miss c).

(** [ResultCache.get] *)
Definition cache_get (now : Z) (t : TaskDefinition)
    (dependency_results : option (Py.dict TaskResult)) (c : ResultCache)
  : option TaskResult * ResultCache :=
  match strategy (config c) with
  | NONE => (None, c)
  | _ =>
      let k := generate t dependency_results (include_dependencies (config c)) in
      match (if uses_memory c then Py.get (memory_cache c) k else None) with
      | Some e =>
          if is_valid now c e then
            (Some (result e),
             count_hit
               (with_memory c
                  (Py.set (memory_cache c) k
                     (mkEntry (key e) (result e) (created_at e) now
                        (access_count e + 1) (dependency_keys e)))))
          else get_from_disk now k c
      | None => get_from_disk now k c
      end
  end.

(** The [dep_keys] list of [ResultCache.put]. *)
Definition dep_keys_of (t : TaskDefinition)
    (dependency_results : option (Py.dict TaskResult)) (c : ResultCache)
  : list string :=
  if include_dependencies (config c) && nonempty_dict dependency_results then
    flat_map
      (fun dep =>
         if Py.has (match dependency_results with Some d => d | None => [] end)
                   dep
         then [generate (task_default dep "") None false]
         else [])
      (depends_on t)
  else [].

(** [ResultCache.put] *)
Definition cache_put (now : Z) (t : TaskDefinition) (r : TaskResult)
    (dependency_results : option (Py.dict TaskResult)) (c : ResultCache)
  : ResultCache :=
  match strategy (config c) with
  | NONE => c
  | _ =>
      let k := generate t dependency_results (include_dependencies (config c)) in
      let dks := dep_keys_of t dependency_results c in
      let c1 := if uses_memory c then store_in_memory now k r dks c else c in
      if uses_disk c then save_to_disk now k r c1 else c1
  end.

(** [hashlib.sha256(task_id.encode()).hexdigest()[:16]] *)
Definition dependent_key (tid : string) : string :=
  String.substring 0 16 (sha256_hex tid).

(** [ResultCache.invalidate_dependents] *)
Definition invalidate_dependents (tid : string) (c : ResultCache)
  : Z * ResultCache :=
  let task_key := dependent_key tid in
  let keys_to_remove :=
    map fst (filter (fun kv => Py.mem task_key (dependency_keys (snd kv)))
                    (memory_cache c)) in
  let m := fold_left (fun m k => Py.del m k) keys_to_remove (memory_cache c) in
  let count := Z.of_nat (List.length keys_to_remove) in
  (count, count_invalidations count (with_memory c m)).

End Hashing.

(** ** Specification-side notions *)

(** Size of the set of capabilities of a list (duplicates counted once). *)
Fixpoint capability_set_size (caps : list AgentCapability) : nat :=
  match caps with
  | [] => 0
  | c :: r =>
      if existsb (cap_eqb c) r then capability_set_size r
      else S (capability_set_size r)
  end.

Module Stub.

(** The clock that shows the number of readings taken before. *)
Definition clock_ticks (k : nat) : Z := Z.of_nat k.

(** An agent that echoes the task id. *)
Definition echo (k : nat) (t : TaskDefinition) (agent : string)
    (s : WorkflowState) : string + string :=
  inl (String.append "ok:" (id t)).

(** An agent that always raises. *)
Definition boom (k : nat) (t : TaskDefinition) (agent : string)
    (s : WorkflowState) : string + string :=
  inr "boom".

(** An agent that raises on task [A] only. *)
Definition boom_on_A (k : nat) (t : TaskDefinition) (agent : string)
    (s : WorkflowState) : string + string :=
  if String.eqb (id t) "A" then inr "boom"
  else inl (String.append "ok:" (id t)).

(** A task that is never retried. *)
Definition once (i : string) : TaskDefinition :=
  mkTask i "" [] [GENERAL] [] 5 (mkRetry 0 (2 # 1) (1 # 1) (60 # 1)) []
         None None None.

Definition a_then_b (cof : bool) : WorkflowDefinition :=
  mkWorkflow "ab" [once "A"; once "B"] SEQUENTIAL None 5 cof.

(** [execute_workflow] on a fresh orchestrator, with coroutines that
    never suspend. *)
Definition run (agent : nat -> TaskDefinition -> string -> WorkflowState
                        -> string + string)
    (wf : WorkflowDefinition) (w : World) : option (unit * World) :=
  execute_workflow clock_ticks agent (run_first clock_ticks agent)
    (run_all clock_ticks agent) 16 wf false w.

End Stub.

(** What a trace shows: agent invocations, [retry_task] calls and the
    arguments of [asyncio.sleep], in order. *)
Definition invocations (ev : list Event) : nat :=
  List.length (filter (fun e => match e with EvInvoke _ _ => true | _ => false end) ev).

Definition retries (ev : list Event) : nat :=
  List.length (filter (fun e => match e with EvRetry _ => true | _ => false end) ev).

Definition sleeps (ev : list Event) : list Q :=
  flat_map (fun e => match e with EvSleep d => [d] | _ => [] end) ev.

(** The backoff sequence of the specification: [d_0 = initial_delay],
    [d_(k+1) = min(d_k * backoff_multiplier, max_delay)], the product
    being the one of the floats. *)
Fixpoint delay_at {float_arith : FloatArith} (cfg : RetryConfig) (k : nat)
  : Q :=
  match k with
  | O => initial_delay cfg
  | S k' => py_min (float_mul (delay_at cfg k') (backoff_multiplier cfg))
                   (max_delay cfg)
  end.

(** The workflow of the caching example: an expensive task and a task
    that depends on it, under the default DAG strategy. *)
Definition cached_workflow : WorkflowDefinition :=
  mkWorkflow "cached-workflow"
    [ mkTask "expensive-task" "This is an expensive computation" []
             [GENERAL] [] 5 default_retry [("input", JStr "data")]
             None None None;
      mkTask "another-task" "Another expensive task" ["expensive-task"]
             [GENERAL] [] 5 default_retry [] None None None ]
    DAG None 5 false.

(** The delays slept from a given delay on. *)
Fixpoint backoff_from {float_arith : FloatArith} (cfg : RetryConfig) (d : Q)
    (n : nat) : list Q :=
  match n with
  | O => []
  | S n' =>
      d :: backoff_from cfg
             (py_min (float_mul d (backoff_multiplier cfg)) (max_delay cfg)) n'
  end.

Definition has_result (w : World) (tid : string) : Prop :=
  exists r, Py.get (task_results (state (sm w))) tid = Some r.

(** The head of a list is below every element. *)
Definition head_least {A} (key : A -> Z * Z * Z) (l : list A) : Prop :=
  match l with
  | [] => True
  | b :: _ => forall c, In c l -> key_leb (key b) (key c) = true
  end.

(** ** Notions for the topological sort *)

(** An item of the graph that lists [tid] among its dependencies. *)
Definition hit (tid : string) (items : Py.dict (list string)) (v : string) : bool :=
  existsb (fun it => String.eqb (fst it) v && Py.mem tid (snd it)) items.

(** The nodes the inner loop appends to the queue. *)
Definition pushed (tid : string) (d : Py.dict Z) (items : Py.dict (list string))
  : list string :=
  map fst (filter (fun it => Py.mem tid (snd it)
                             && (Py.get_or d (fst it) 0 - 1 =? 0)) items).

(** An edge of the dependency graph the code builds. *)
Definition edge (wf : WorkflowDefinition) (a b : string) : Prop :=
  exists deps, In (a, deps) (build_dependency_graph wf) /\ In b deps.

Definition has_cycle (wf : WorkflowDefinition) : Prop :=
  exists a, clos_trans string (edge wf) a a.

(** Every id in a [depends_on] names a task of the workflow. *)
Definition known_dependencies (wf : WorkflowDefinition) : Prop :=
  forall t dep, In t (tasks wf) -> In dep (depends_on t) ->
                In dep (map id (tasks wf)).

(** What every turn of the [while queue:] loop preserves. *)
Record queue_inv (K : list string) (d : Py.dict Z) (queue result : list string) : Prop := {
  inv_nodup : NoDup (result ++ queue);
  inv_done : forall v, In v (result ++ queue) -> Py.get_or d v 0 <= 0;
  inv_K : incl (result ++ queue) K
}.

Definition zero_degrees (wf : WorkflowDefinition) : Py.dict Z :=
  fold_left (fun d t => Py.set d (id t) 0) (tasks wf) [].

(** The nodes that lie on a cycle. *)
Definition on_cycle (wf : WorkflowDefinition) (v : string) : Prop := clos_trans string (edge wf) v v.

(** In-degrees count the listed dependencies that were not popped yet,
    and no node of a cycle is ever queued. *)
Definition cycle_inv (wf : WorkflowDefinition) (d : Py.dict Z) (queue result : list string) : Prop :=
  (forall v deps, In (v, deps) (build_dependency_graph wf) ->
     Py.get_or d v 0
     = Z.of_nat (List.length deps)
       - Z.of_nat (List.length (filter (fun u => Py.mem u deps) result)))
  /\ (forall v, on_cycle wf v -> ~ In v (result ++ queue)).

(** The same task with another parameters dictionary. *)
Definition with_parameters (t : TaskDefinition) (p : Py.dict json)
  : TaskDefinition :=
  mkTask (id t) (description t) (depends_on t) (required_capabilities t)
         (required_skills t) (priority t) (retry_config t) p
         (expected_output_type t) (agent_type t) (condition t).

(** Every dependency key kept in memory is a full hex digest. *)
Definition full_dependency_keys (c : ResultCache) : Prop :=
  forall k e, In (k, e) (memory_cache c) ->
              forall dk, In dk (dependency_keys e) -> String.length dk = 64%nat.

(** A stand-in digest of the right length, for running the cache. *)
Definition stub_digest (s : string) : string :=
  "0000000000000000000000000000000000000000000000000000000000000000".

(** The four membership lists share no id and repeat none. *)
Definition sets_disjoint (s : WorkflowState) : Prop :=
  NoDup (pending_tasks s ++ current_tasks s ++ completed_tasks s
         ++ failed_tasks s).

(** Task [A], retried once, and task [B] that depends on it, under the
    DAG strategy. *)
Definition retried_chain (cof : bool) : WorkflowDefinition :=
  mkWorkflow "w"
    [ mkTask "A" "" [] [GENERAL] [] 5 (mkRetry 1 (2 # 1) (1 # 1) (3 # 1)) []
             None None None;
      mkTask "B" "" ["A"] [GENERAL] [] 5 (mkRetry 1 (2 # 1) (1 # 1) (3 # 1)) []
             None None None ]
    DAG None 5 cof.

(** ** Further notions used by the properties *)

(** No executor has a negative load counter. *)
Definition loads_nonneg (r : TaskRouter) : Prop :=
  forall a, 0 <= get_agent_load r a.

(** [TaskRouter.reset_load] *)
Definition reset_load (r : TaskRouter) : TaskRouter :=
  mkRouter (agent_routing r) [].

(** An agent that fails its first two invocations with [boom] and then
    answers [ok]. *)
Definition flaky_agent (k : nat) (t : TaskDefinition) (agent : string)
    (s : WorkflowState) : string + string :=
  if Nat.ltb k 2 then inr "boom" else inl "ok".

(** An agent that raises on its first [n] invocations and answers [ok]
    from then on. *)
Definition failing_until (n k : nat) (t : TaskDefinition) (agent : string)
    (s : WorkflowState) : string + string :=
  if Nat.ltb k n then inr "boom" else inl "ok".

(** A single task with two retries. *)
Definition retry_twice : TaskDefinition :=
  mkTask "A" "" [] [GENERAL] [] 5 (mkRetry 2 (2 # 1) (1 # 1) (60 # 1)) []
         None None None.

(** The retry count a task starts its driver with. *)
Definition retries_so_far (w : World) (tid : string) : Z :=
  match Py.get (task_results (state (sm w))) tid with
  | Some r => retry_count r
  | None => 0
  end.

(** Between two states only the entries of task [tid] may differ. *)
Definition only_touches (tid : string) (s s' : WorkflowState) : Prop :=
  wstatus s' = wstatus s
  /\ forall x, x <> tid ->
       Py.get (task_results s') x = Py.get (task_results s) x
       /\ (In x (pending_tasks s') <-> In x (pending_tasks s))
       /\ (In x (current_tasks s') <-> In x (current_tasks s))
       /\ (In x (completed_tasks s') <-> In x (completed_tasks s))
       /\ (In x (failed_tasks s') <-> In x (failed_tasks s)).

(** Task [x] is recorded as completed. *)
Definition completed_result (s : WorkflowState) (x : string) : Prop :=
  In x (completed_tasks s)
  /\ exists r, Py.get (task_results s) x = Some r /\ status r = COMPLETED.


(** The world in which the executor starts: a fresh state manager, the
    workflow marked running at the first clock reading. *)
Definition started_world (now_at : nat -> Z) (wf : WorkflowDefinition)
    (w : World) : World :=
  mkWorld (start_workflow (now_at (clock w)) (StateManager_init wf))
          (router w) (S (clock w)) (calls w) (trace w).

(** The world in which the retry loop of the driver starts: the executor
    assigned, the task started, the progress callback fired. *)
Definition driver_start (now_at : nat -> Z) (t : TaskDefinition) (w : World)
  : World :=
  let m := start_task (now_at (clock w)) (id t) (sm w) in
  mkWorld m (increment_agent_load (route_task (router w) t) (router w))
          (S (clock w)) (calls w) (trace w ++ [EvProgress (state m)]).

(** A task with one dependency and results for both, for running the
    cache. *)
Definition report_task : TaskDefinition :=
  mkTask "report" "Write the report" ["fetch"] [GENERAL] [] 5 default_retry []
         None None None.

Definition report_result : TaskResult :=
  mkResult "report" COMPLETED (Some "done") None (Some 0) (Some 1) (Some 1) 0
           (Some "general-purpose").

Definition fetch_result (finished retried : Z) : TaskResult :=
  mkResult "fetch" COMPLETED (Some "rows") None (Some 0) (Some finished)
           (Some finished) retried None.

(** A cache as [ResultCache(CacheConfig(...))] builds it, with a TTL of
    60 seconds. *)
Definition cache_of (s : CacheStrategy) (size : nat) : ResultCache :=
  ResultCache_init (mkCacheConfig s (Some 60) size false true).

(** A memory tier with two entries, the second one read less recently. *)
Definition two_entries : ResultCache :=
  mkCache (mkCacheConfig MEMORY None 2 false true)
    [ ("k1", mkEntry "k1" report_result 0 5 1 []);
      ("k2", mkEntry "k2" report_result 1 3 0 []) ]
    [] 1 0 0 0.

(** What the loop keeps besides [queue_inv]: in-degrees count the listed
    dependencies that were not popped yet; a queued node has all its
    dependencies popped; the result lists every node after its
    dependencies; a node with no dependency left is queued or popped. *)
Definition order_inv (wf : WorkflowDefinition) (d : Py.dict Z)
    (queue result : list string) : Prop :=
  (forall v deps, In (v, deps) (build_dependency_graph wf) ->
     Py.get_or d v 0
     = Z.of_nat (List.length deps)
       - Z.of_nat (List.length (filter (fun u => Py.mem u deps) result)))
  /\ (forall v deps, In v queue -> In (v, deps) (build_dependency_graph wf) ->
        incl deps result)
  /\ (forall l1 v l2 deps, result = l1 ++ v :: l2 ->
        In (v, deps) (build_dependency_graph wf) -> incl deps l1)
  /\ (forall v deps, In (v, deps) (build_dependency_graph wf) ->
        Py.get_or d v 0 <= 0 -> In v (result ++ queue)).

(** Consecutive elements of the list are related, each one to the one
    before it. *)
Fixpoint walk (R : string -> string -> Prop) (l : list string) : Prop :=
  match l with
  | a :: r => match r with
              | b :: _ => R b a /\ walk R r
              | [] => True
              end
  | [] => True
  end.

(** Task [b] lists its only dependency twice. *)
Definition doubled_dependency : WorkflowDefinition :=
  Samples.wf_of [Samples.dep_task "a" []; Samples.dep_task "b" ["a"; "a"]]
                false.







(** A router whose code analyzer already runs one task, and a task that
    needs code analysis. *)
Definition busy_router : TaskRouter :=
  mkRouter create_default_routing [("code-analyzer", 1)].

Definition analysis_task : TaskDefinition :=
  mkTask "T" "" [] [CODE_ANALYSIS] [] 5 default_retry [] None None None.

(** What holds between two turns of the DAG loop when every agent call
    succeeds and returns without suspending: nothing runs, nothing has
    failed, every task is pending without a result or completed with
    one, and the completed list names every task after its
    dependencies.  [c0] is the number of agent calls made before the
    workflow. *)
Record dag_inv (wf : WorkflowDefinition) (c0 : nat) (w : World) : Prop := {
  di_workflow : workflow (sm w) = wf;
  di_current : current_tasks (state (sm w)) = [];
  di_failed : failed_tasks (state (sm w)) = [];
  di_nodup : NoDup (pending_tasks (state (sm w))
                    ++ completed_tasks (state (sm w)));
  di_ids : forall x, In x (map id (tasks wf))
                     <-> In x (pending_tasks (state (sm w))
                               ++ completed_tasks (state (sm w)));
  di_pending : forall x, In x (pending_tasks (state (sm w))) ->
                         Py.get (task_results (state (sm w))) x = None;
  di_completed : forall x, In x (completed_tasks (state (sm w))) ->
                   exists r, Py.get (task_results (state (sm w))) x = Some r
                             /\ status r = COMPLETED;
  di_order : forall t l1 l2, In t (tasks wf) ->
               completed_tasks (state (sm w)) = l1 ++ id t :: l2 ->
               incl (depends_on t) l1;
  di_calls : calls w = (c0 + List.length (completed_tasks (state (sm w))))%nat
}.

(** The one-task workflow that [TaskOrchestrator.execute_task] builds,
    with the defaults of [WorkflowDefinition]. *)
Definition adhoc_workflow (t : TaskDefinition) (workflow_id : string)
  : WorkflowDefinition :=
  mkWorkflow workflow_id [t] DAG None 5 false.

(** [TaskOrchestrator.execute_task], the ad-hoc entry point; [None] is
    the [KeyError] of [state.task_results[task.id]]. *)
Definition TaskOrchestrator_execute_task
    (now_at : nat -> Z)
    (agent_run : nat -> TaskDefinition -> string -> WorkflowState
                 -> string + string)
    (wait_first_completed : list TaskDefinition -> M (list TaskDefinition))
    (wait_all : list TaskDefinition -> M unit)
    (fuel : nat) (t : TaskDefinition) (workflow_id : string)
  : M (option TaskResult) :=
  execute_workflow now_at agent_run wait_first_completed wait_all fuel
    (adhoc_workflow t workflow_id) false ;;;
  w <- get_world ;;
  ret (Py.get (task_results (state (sm w))) (id t)).


(** The inner function [_traverse] of [get_dependency_chain], with its
    two closure variables [visited] and [chain] passed along; [None]
    when the fuel runs out. *)
Fixpoint traverse (fuel : nat) (sm : StateManager) (tid : string)
    (st : list string * list string) : option (list string * list string) :=
  match fuel with
  | O => None
  | S f =>
      let '(visited, chain) := st in
      if Py.mem tid visited then Some st
      else
        match get_task_by_id sm tid with
        | None => Some (tid :: visited, chain)
        | Some t =>
            match fold_left
                    (fun acc dep =>
                       match acc with
                       | Some st' => traverse f sm dep st'
                       | None => None
                       end)
                    (depends_on t) (Some (tid :: visited, chain)) with
            | Some (v, c) => Some (v, c ++ [tid])
            | None => None
            end
        end
  end.

(** [StateManager.get_dependency_chain]; the recursion is never deeper
    than the number of tasks plus one, see [get_dependency_chain_spec]
    (the recursion limit of the interpreter is left out). *)
Definition get_dependency_chain (sm : StateManager) (task_id : string)
  : option (list string) :=
  match get_task_by_id sm task_id with
  | None => Some []
  | Some _ =>
      match traverse (S (List.length (tasks (workflow sm)))) sm task_id
                     ([], []) with
      | Some (_, chain) => Some chain
      | None => None
      end
  end.

(** Task [a] lists [b] as a dependency, with tasks looked up as
    [get_task_by_id] does. *)
Definition dep_of (sm : StateManager) (a b : string) : Prop :=
  exists t, get_task_by_id sm a = Some t /\ In b (depends_on t).

Definition is_task (sm : StateManager) (x : string) : Prop :=
  exists t, get_task_by_id sm x = Some t.

(** The task ids that [visited] does not hold yet. *)
Definition unvisited (sm : StateManager) (visited : list string) : nat :=
  List.length (filter (fun x => negb (Py.mem x visited))
                      (map id (tasks (workflow sm)))).

(** What one call of [_traverse] does to [visited] and [chain]. *)
Record traversed (sm : StateManager) (from : list string)
    (visited v chain c new : list string) : Prop := {
  tr_chain : c = chain ++ new;
  tr_visited : incl visited v;
  tr_new : forall x, In x new ->
             is_task sm x /\ ~ In x visited /\ In x v
             /\ exists a, In a from /\ clos_refl_trans string (dep_of sm) a x;
  tr_nodup : NoDup new;
  tr_appended : forall x, is_task sm x -> In x v -> In x visited \/ In x new;
  tr_closed : forall x t, In x new -> get_task_by_id sm x = Some t ->
                incl (depends_on t) v;
  tr_order : forall n1 x n2 t d, new = n1 ++ x :: n2 ->
               get_task_by_id sm x = Some t -> In d (depends_on t) ->
               is_task sm d ->
               In d visited \/ In d n1 \/ clos_trans string (dep_of sm) d d
}.

(** [ResultCache.invalidate].  [glob_matches pattern name] stands for
    [Path.glob]; the files of the directory are [<key>.cache]. *)
Definition invalidate (glob_matches : string -> string -> bool)
    (tid : string) (c : ResultCache) : Z * ResultCache :=
  let keys_to_remove :=
    filter (fun k => Py.substring_of tid k) (Py.keys (memory_cache c)) in
  let m := fold_left (fun m k => Py.del m k) keys_to_remove (memory_cache c) in
  let files_to_remove :=
    if cache_dir (config c)
    then filter (fun k => glob_matches
                            (String.append "*" (String.append tid "*.cache"))
                            (String.append k ".cache"))
                (Py.keys (disk_files c))
    else [] in
  let d := fold_left (fun d k => Py.del d k) files_to_remove (disk_files c) in
  let count :=
    Z.of_nat (List.length keys_to_remove + List.length files_to_remove) in
  (count,
   mkCache (config c) m d (hits c) (misses c) (evictions c)
           (invalidations c + count)).

(** A lower-case hexadecimal digit, as [hexdigest] writes them. *)
Definition is_hex (ch : ascii) : bool :=
  existsb (Ascii.eqb ch) (list_ascii_of_string "0123456789abcdef").

(** Every key of the memory tier is a string of hexadecimal digits. *)
Definition hex_keys (c : ResultCache) : Prop :=
  forall k, In k (Py.keys (memory_cache c)) ->
            forallb is_hex (list_ascii_of_string k) = true.

(** * Properties *)

(** ** Python containers *)

Lemma mem_In x l : Py.mem x l = true <-> In x l.
Proof.
  unfold Py.mem. rewrite existsb_exists. split.
  - intros [y [Hy He]]. apply String.eqb_eq in He. now subst.
  - intros H. exists x. split; [assumption | apply String.eqb_refl].
Qed.

Lemma mem_false x l : Py.mem x l = false <-> ~ In x l.
Proof.
  rewrite <- mem_In. destruct (Py.mem x l); split; congruence.
Qed.

Lemma remove_In x y l : In y (Py.remove x l) -> In y l.
Proof.
  induction l as [|z l IH]; simpl; [tauto|].
  destruct (String.eqb x z); simpl; intuition.
Qed.

Lemma remove_NoDup x l : NoDup l -> NoDup (Py.remove x l).
Proof.
  induction 1 as [|z l Hz Hl IH]; simpl; [constructor|].
  destruct (String.eqb x z); [assumption|].
  constructor; [|assumption]. intros H. apply Hz. eapply remove_In, H.
Qed.

Lemma remove_gone x l : NoDup l -> ~ In x (Py.remove x l).
Proof.
  induction 1 as [|z l Hz Hl IH]; simpl; [tauto|].
  destruct (String.eqb_spec x z) as [->|Hne]; [assumption|].
  simpl. intuition congruence.
Qed.

Lemma add_In x y l : In y (Py.add x l) <-> y = x \/ In y l.
Proof.
  unfold Py.add. destruct (Py.mem x l) eqn:E.
  - apply mem_In in E. intuition congruence.
  - rewrite in_app_iff. simpl. intuition.
Qed.

Lemma add_NoDup x l : NoDup l -> NoDup (Py.add x l).
Proof.
  unfold Py.add. destruct (Py.mem x l) eqn:E; [tauto|].
  intros H. apply mem_false in E.
  apply NoDup_app; [assumption | repeat constructor; simpl; tauto |].
  simpl. intros a Ha [->|[]]. contradiction.
Qed.

Lemma get_set_same {V} (d : Py.dict V) k v : Py.get (Py.set d k v) k = Some v.
Proof.
  induction d as [|[k' v'] d IH]; simpl.
  - now rewrite String.eqb_refl.
  - destruct (String.eqb k k') eqn:E; simpl; rewrite E; [reflexivity | exact IH].
Qed.

Lemma get_set_other {V} (d : Py.dict V) k k' v :
  k <> k' -> Py.get (Py.set d k v) k' = Py.get d k'.
Proof.
  intros Hne. induction d as [|[k0 v0] d IH]; simpl.
  - destruct (String.eqb_spec k' k); congruence.
  - destruct (String.eqb_spec k k0) as [->|Hk]; simpl.
    + destruct (String.eqb_spec k' k0); congruence.
    + destruct (String.eqb k' k0); [reflexivity | exact IH].
Qed.

(** ** Strategy selector *)

(** C10 (as amended): [recommend_strategy] is the decision table applied
    in order, where "has a condition" means that the condition is not
    [None]: conditional if some task has a condition, else parallel if no
    task has dependencies and there is more than one task, else dag if
    some task has dependencies, else sequential. *)
Theorem recommend_strategy_decision_table (wf : WorkflowDefinition) :
  recommend_strategy wf = decision_table wf.
Proof.
  unfold recommend_strategy, decision_table, has_conditions,
    has_dependencies, task_count.
  destruct (tasks wf) as [|t ts]; [reflexivity|].
  destruct (existsb _ (t :: ts)); [reflexivity|].
  destruct (existsb _ (t :: ts)); simpl; [reflexivity|].
  destruct ts; reflexivity.
Qed.

(** C10 (as stated) fails: two independent tasks whose condition is the
    empty string are sent to the conditional strategy, where the table
    with "non-empty condition" prescribes the parallel one. *)
Lemma recommend_strategy_empty_condition :
  let t (i : string) :=
    mkTask i "" [] [GENERAL] [] 5 default_retry [] None None (Some "") in
  let wf := mkWorkflow "w" [t "a"; t "b"] DAG None 5 false in
  recommend_strategy wf = CONDITIONAL
  /\ decision_table_nonempty wf = PARALLEL
  /\ recommend_strategy wf <> decision_table_nonempty wf.
Proof. repeat split. discriminate. Qed.

(** ** State store: skipping *)




(** ** Router *)

Ltac key_order :=
  unfold key_leb, key_ltb in *;
  repeat match goal with
         | p : (Z * Z * Z)%type |- _ => destruct p as [[? ?] ?]
         end;
  rewrite ?negb_true_iff, ?negb_false_iff in *;
  rewrite ?orb_true_iff, ?orb_false_iff, ?andb_true_iff, ?andb_false_iff,
    ?Z.ltb_lt, ?Z.ltb_ge, ?Z.eqb_eq, ?Z.eqb_neq in *;
  lia.

Lemma key_leb_refl x : key_leb x x = true.
Proof. key_order. Qed.

Lemma key_leb_total x y : key_leb x y = false -> key_leb y x = true.
Proof. key_order. Qed.

Lemma key_leb_trans x y z :
  key_leb x y = true -> key_leb y z = true -> key_leb x z = true.
Proof. key_order. Qed.

Lemma cap_eqb_eq a b : cap_eqb a b = true <-> a = b.
Proof.
  split; [|intros ->; apply Nat.eqb_refl].
  destruct a, b; simpl; intros H; try reflexivity; discriminate H.
Qed.

Lemma agent_matches_superset a required :
  agent_matches_capabilities a required = true
  <-> forall c, In c required -> In c (capabilities a).
Proof.
  unfold agent_matches_capabilities. rewrite forallb_forall.
  split; intros H c Hc.
  - apply H in Hc. apply existsb_exists in Hc as [c' [Hin He]].
    apply cap_eqb_eq in He. now subst.
  - apply existsb_exists. exists c. split; [auto | now apply cap_eqb_eq].
Qed.

Section SortBy.

Context {A : Type} (key : A -> Z * Z * Z).

Lemma insert_by_In x y l : In y (insert_by key x l) <-> y = x \/ In y l.
Proof.
  induction l as [|z l IH]; simpl; [intuition|].
  destruct (key_leb (key x) (key z)); simpl; [intuition|].
  rewrite IH. intuition.
Qed.

Lemma sort_by_In y l : In y (sort_by key l) <-> In y l.
Proof.
  induction l as [|z l IH]; simpl; [tauto|].
  rewrite insert_by_In, IH. intuition.
Qed.

Lemma insert_by_head_least x l :
  head_least key l -> head_least key (insert_by key x l).
Proof.
  destruct l as [|y r]; simpl.
  - intros _ c [<-|[]]. apply key_leb_refl.
  - intros Hy. destruct (key_leb (key x) (key y)) eqn:E.
    + intros c [<-|Hc]; [apply key_leb_refl|].
      eapply key_leb_trans; [exact E | apply Hy, Hc].
    + intros c [<-|Hc]; [apply key_leb_refl|].
      apply insert_by_In in Hc as [->|Hc].
      * now apply key_leb_total.
      * apply Hy. now right.
Qed.

Lemma sort_by_head_least l : head_least key (sort_by key l).
Proof.
  induction l as [|x l IH]; simpl; [exact I|].
  now apply insert_by_head_least.
Qed.

Lemma sort_by_nonempty l : l <> [] -> sort_by key l <> [].
Proof.
  intros Hl E. destruct l as [|x l]; [congruence|].
  assert (In x (sort_by key (x :: l))) as H by (apply sort_by_In; now left).
  rewrite E in H. exact H.
Qed.

End SortBy.

Lemma candidates_nonempty r suitable :
  suitable <> [] -> candidates r suitable <> [].
Proof.
  unfold candidates. destruct (filter (has_capacity r) suitable); congruence.
Qed.

(** The candidates are the suitable agents with spare capacity, or all
    the suitable agents when none has any. *)
Lemma candidates_spec r suitable a :
  In a (candidates r suitable)
  <-> In a suitable
      /\ (has_capacity r a = true
          \/ forall b, In b suitable -> has_capacity r b = false).
Proof.
  unfold candidates.
  destruct (filter (has_capacity r) suitable) as [|x l] eqn:E.
  - split.
    + intros H. split; [assumption|]. right. intros b Hb.
      destruct (has_capacity r b) eqn:Hc; [|reflexivity].
      assert (In b (filter (has_capacity r) suitable)) as Hin
          by (apply filter_In; auto).
      rewrite E in Hin. destruct Hin.
    + tauto.
  - rewrite <- E, filter_In. split; [tauto|].
    intros [Hin [Hc|Hnone]]; [tauto|].
    assert (In x (filter (has_capacity r) suitable)) as Hx
        by (rewrite E; now left).
    apply filter_In in Hx as [Hx1 Hx2]. rewrite (Hnone x Hx1) in Hx2.
    discriminate.
Qed.

Section SortHead.

Context {A : Type} (key : A -> Z * Z * Z).

(** Where the head of the sorted list stood: everything before it is
    strictly above it, everything after it is not below it. *)
Lemma sort_by_head_split l : forall b,
  hd_error (sort_by key l) = Some b ->
  exists l1 l2,
    l = l1 ++ b :: l2
    /\ (forall c, In c l1 -> key_leb (key c) (key b) = false)
    /\ (forall c, In c l2 -> key_leb (key b) (key c) = true).
Proof.
  induction l as [|x l IH]; intros b; [discriminate|].
  change (sort_by key (x :: l)) with (insert_by key x (sort_by key l)).
  destruct (sort_by key l) as [|y rest] eqn:E.
  - destruct l as [|z l].
    + simpl. intros [= <-]. exists [], []. repeat split; intros c [].
    + exfalso. apply (sort_by_nonempty key (z :: l)); [discriminate | exact E].
  - destruct (IH y eq_refl) as [l1 [l2 [El [H1 H2]]]].
    simpl. destruct (key_leb (key x) (key y)) eqn:Exy; simpl; intros [= <-].
    + exists [], l. split; [reflexivity|]. split; [intros c []|].
      intros c Hc. rewrite El in Hc. apply in_app_or in Hc as [Hc|[<-|Hc]].
      * apply key_leb_trans with (key y); [exact Exy|].
        apply key_leb_total. now apply H1.
      * exact Exy.
      * apply key_leb_trans with (key y); [exact Exy | now apply H2].
    + exists (x :: l1), l2. split; [now rewrite El|].
      split; [|exact H2].
      intros c [<-|Hc]; [exact Exy | now apply H1].
Qed.

End SortHead.

Lemma filter_split {A} (f : A -> bool) l : forall l1 b l2,
  filter f l = l1 ++ b :: l2 ->
  exists m1 m2,
    l = m1 ++ b :: m2 /\ filter f m1 = l1 /\ filter f m2 = l2 /\ f b = true.
Proof.
  induction l as [|x l IH]; intros l1 b l2 E; simpl in E.
  - destruct l1; discriminate.
  - destruct (f x) eqn:Ex.
    + destruct l1 as [|y l1]; simpl in E.
      * injection E as Hx El. subst x. exists [], l. simpl. auto.
      * injection E as Hx El. subst y.
        destruct (IH l1 b l2 El) as [m1 [m2 [Em [E1 [E2 Eb]]]]].
        exists (x :: m1), m2. simpl. rewrite Ex, E1, Em. auto.
    + destruct (IH l1 b l2 E) as [m1 [m2 [Em [E1 [E2 Eb]]]]].
      exists (x :: m1), m2. simpl. rewrite Ex, Em. auto.
Qed.

(** The order of the sort key, spelled out. *)
Lemma sort_key_leb r a b :
  key_leb (sort_key r a) (sort_key r b) = true
  <-> get_agent_load r (r_agent_type a) < get_agent_load r (r_agent_type b)
      \/ (get_agent_load r (r_agent_type a) = get_agent_load r (r_agent_type b)
          /\ (r_priority b < r_priority a
              \/ (r_priority b = r_priority a
                  /\ (List.length (capabilities b)
                      <= List.length (capabilities a))%nat))).
Proof.
  unfold key_leb, key_ltb, sort_key.
  rewrite negb_true_iff, orb_false_iff, andb_false_iff, orb_false_iff,
    andb_false_iff, !Z.ltb_ge, !Z.eqb_neq.
  lia.
Qed.

Lemma sort_key_gtb r a b :
  key_leb (sort_key r b) (sort_key r a) = false
  <-> get_agent_load r (r_agent_type a) < get_agent_load r (r_agent_type b)
      \/ (get_agent_load r (r_agent_type a) = get_agent_load r (r_agent_type b)
          /\ (r_priority b < r_priority a
              \/ (r_priority b = r_priority a
                  /\ (List.length (capabilities b)
                      < List.length (capabilities a))%nat))).
Proof.
  unfold key_leb, key_ltb, sort_key.
  rewrite negb_false_iff, orb_true_iff, andb_true_iff, orb_true_iff,
    andb_true_iff, !Z.ltb_lt, !Z.eqb_eq.
  lia.
Qed.

(** The executor [_select_best_agent] returns, by its place in the
    configuration. *)
Lemma select_best_agent_place r required best :
  let suits := fun a =>
    forall c, In c required -> In c (capabilities a) in
  let spare := fun a =>
    get_agent_load r (r_agent_type a) < max_concurrent_tasks a in
  select_best_agent r
    (filter (fun a => agent_matches_capabilities a required) (agent_routing r))
  = Some best ->
  exists before after,
    agent_routing r = before ++ best :: after
    /\ suits best
    /\ (spare best
        \/ forall b, In b (agent_routing r) -> suits b -> ~ spare b)
    /\ (forall c, In c before -> suits c -> spare c \/ ~ spare best ->
          key_leb (sort_key r c) (sort_key r best) = false)
    /\ (forall c, In c after -> suits c -> spare c \/ ~ spare best ->
          key_leb (sort_key r best) (sort_key r c) = true).
Proof.
  intros suits spare. unfold select_best_agent. intros Hhd.
  set (matches := fun a => agent_matches_capabilities a required) in *.
  assert (forall a, matches a = true <-> suits a) as Hsuits
      by (intros a; apply agent_matches_superset).
  assert (forall a, has_capacity r a = true <-> spare a) as Hspare
      by (intros a; apply Z.ltb_lt).
  apply sort_by_head_split in Hhd as [l1 [l2 [El [H1 H2]]]].
  unfold candidates in El.
  destruct (filter (has_capacity r) (filter matches (agent_routing r)))
    as [|x l] eqn:E.
  - apply filter_split in El as [m1 [m2 [Em [E1 [E2 Eb]]]]].
    assert (forall b, In b (agent_routing r) -> suits b -> ~ spare b) as Hnone.
    { intros b Hb Hsb Hsp.
      assert (In b (filter (has_capacity r) (filter matches (agent_routing r))))
        as Hin.
      { apply filter_In. split; [|now apply Hspare].
        apply filter_In. split; [exact Hb | now apply Hsuits]. }
      rewrite E in Hin. exact Hin. }
    exists m1, m2. split; [exact Em|]. split; [now apply Hsuits|].
    split; [right; exact Hnone|]. split.
    + intros c Hc Hsc _. apply H1. rewrite <- E1. apply filter_In.
      split; [exact Hc | now apply Hsuits].
    + intros c Hc Hsc _. apply H2. rewrite <- E2. apply filter_In.
      split; [exact Hc | now apply Hsuits].
  - rewrite <- E in El.
    apply filter_split in El as [s1 [s2 [Es [F1 [F2 Fb]]]]].
    apply filter_split in Es as [m1 [m2 [Em [E1 [E2 Eb]]]]].
    apply Hspare in Fb.
    exists m1, m2. split; [exact Em|]. split; [now apply Hsuits|].
    split; [left; exact Fb|]. split.
    + intros c Hc Hsc [Hsp|Hsp]; [|contradiction]. apply H1.
      rewrite <- F1. apply filter_In. split; [|now apply Hspare].
      rewrite <- E1. apply filter_In. split; [exact Hc | now apply Hsuits].
    + intros c Hc Hsc [Hsp|Hsp]; [|contradiction]. apply H2.
      rewrite <- F2. apply filter_In. split; [|now apply Hspare].
      rewrite <- E2. apply filter_In. split; [exact Hc | now apply Hsuits].
Qed.

(** C6 (as amended): an [agent_type] that is set and not empty is
    returned verbatim; otherwise, with no configured executor whose
    capabilities include the required ones, the result is
    "general-purpose"; otherwise it is the [agent_type] of a configured
    executor [best] that provides the required capabilities, and that
    has a load strictly below its [max_concurrent_tasks] unless no
    suitable executor has; among the suitable executors that are under
    their limit (all the suitable ones when none is) no one has a lower
    load than [best], none of equal load has a higher priority, none of
    equal load and priority has a longer capability list, and those
    listed before [best] in the configuration are strictly behind it in
    that order. *)
Theorem route_task_selection (r : TaskRouter) (t : TaskDefinition) :
  let load := fun a => get_agent_load r (r_agent_type a) in
  let suits := fun a =>
    forall c, In c (required_capabilities t) -> In c (capabilities a) in
  let spare := fun a => load a < max_concurrent_tasks a in
  (forall a, agent_type t = Some a -> a <> "" -> route_task r t = a)
  /\ (forall a, In a (find_suitable_agents r t)
                <-> In a (agent_routing r) /\ suits a)
  /\ (Py.truthy (agent_type t) = false ->
      find_suitable_agents r t = [] -> route_task r t = general_purpose)
  /\ (Py.truthy (agent_type t) = false ->
      find_suitable_agents r t <> [] ->
      exists before best after,
        agent_routing r = before ++ best :: after
        /\ route_task r t = r_agent_type best
        /\ suits best
        /\ (spare best
            \/ forall b, In b (agent_routing r) -> suits b -> ~ spare b)
        /\ (forall c, In c (agent_routing r) -> suits c ->
              spare c \/ ~ spare best ->
              load best < load c
              \/ (load best = load c
                  /\ (r_priority c < r_priority best
                      \/ (r_priority c = r_priority best
                          /\ (List.length (capabilities c)
                              <= List.length (capabilities best))%nat))))
        /\ (forall c, In c before -> suits c ->
              spare c \/ ~ spare best ->
              load best < load c
              \/ (load best = load c
                  /\ (r_priority c < r_priority best
                      \/ (r_priority c = r_priority best
                          /\ (List.length (capabilities c)
                              < List.length (capabilities best))%nat))))).
Proof.
  intros load suits spare.
  split; [|split; [|split]].
  - intros a Ha Hne. unfold route_task. rewrite Ha. simpl.
    destruct (String.eqb_spec a ""); [contradiction | reflexivity].
  - intros a. unfold find_suitable_agents.
    rewrite filter_In, agent_matches_superset. tauto.
  - intros Hset Hnone. unfold route_task. now rewrite Hset, Hnone.
  - intros Hset Hsome. unfold route_task. rewrite Hset.
    destruct (find_suitable_agents r t) as [|s0 ss] eqn:Es; [congruence|].
    rewrite <- Es.
    destruct (select_best_agent r (find_suitable_agents r t))
      as [best|] eqn:Eb.
    + destruct (select_best_agent_place r (required_capabilities t) best Eb)
        as [before [after [Er [Hs [Hsp [Hbefore Hafter]]]]]].
      exists before, best, after.
      split; [exact Er|]. split; [reflexivity|]. split; [exact Hs|].
      split; [exact Hsp|]. split.
      * intros c Hc Hsc He. apply sort_key_leb.
        rewrite Er in Hc. apply in_app_or in Hc as [Hc|[<-|Hc]].
        -- apply key_leb_total. now apply Hbefore.
        -- apply key_leb_refl.
        -- now apply Hafter.
      * intros c Hc Hsc He. apply sort_key_gtb. now apply Hbefore.
    + exfalso. unfold select_best_agent in Eb.
      apply (sort_by_nonempty (sort_key r)
               (candidates r (find_suitable_agents r t))).
      * apply candidates_nonempty. rewrite Es. discriminate.
      * destruct (sort_by _ _); [reflexivity | discriminate].
Qed.

Lemma route_task_selection_witness :
  exists before best after,
    agent_routing busy_router = before ++ best :: after
    /\ route_task busy_router analysis_task = r_agent_type best
    /\ get_agent_load busy_router (r_agent_type best)
       < max_concurrent_tasks best.
Proof.
  destruct (proj2 (proj2 (proj2
              (route_task_selection busy_router analysis_task)))
              eq_refl)
    as [before [best [after [Er [Ert [_ [[Hsp|Hn] _]]]]]]].
  - discriminate.
  - exists before, best, after. auto.
  - exfalso.
    apply (Hn (mkRouting "code-analyzer"
                 [CODE_ANALYSIS; DEBUGGING; GENERAL] 7 2)).
    + simpl. auto.
    + simpl. tauto.
    + vm_compute. reflexivity.
Defined.
(** C6 (as stated) fails twice.  An [agent_type] set to the empty string
    is not returned.  And between two idle executors of equal priority
    the one with the longer capability list wins although its capability
    set is the smaller one. *)
Lemma route_task_counterexample :
  let t0 := mkTask "t" "d" [] [GENERAL] [] 5 default_retry [] None
                   (Some "") None in
  let x := mkRouting "X" [GENERAL; GENERAL; GENERAL] 5 1 in
  let y := mkRouting "Y" [GENERAL; TESTING] 5 1 in
  let r := mkRouter [x; y] [] in
  (agent_type t0 = Some ""
   /\ route_task (mkRouter create_default_routing []) t0 = "code-analyzer")
  /\ (find_suitable_agents r (task_default "t" "d") = [x; y]
      /\ candidates r [x; y] = [x; y]
      /\ get_agent_load r "X" = get_agent_load r "Y"
      /\ r_priority x = r_priority y
      /\ (capability_set_size (capabilities x)
          < capability_set_size (capabilities y))%nat
      /\ route_task r (task_default "t" "d") = "X").
Proof. simpl. repeat split. lia. Qed.

(** ** Coordinator: the status of a finished workflow *)

Lemma bind_Some {A B} (m : M A) (k : A -> M B) w r :
  bind m k w = Some r ->
  exists a w1, m w = Some (a, w1) /\ k a w1 = Some r.
Proof.
  unfold bind. destruct (m w) as [[a w1]|]; [|discriminate].
  intros H. now exists a, w1.
Qed.

(** What [complete_task] and [fail_task] do to the world: the time is
    read, and the clock advanced, only when the task has a result. *)
Lemma complete_task_m_run now_at tid out agent w :
  complete_task_m now_at tid out agent w
  = Some (tt, mkWorld
                (complete_task (now_at (clock w)) tid (Some out) (Some agent)
                               (sm w))
                (router w)
                (if Py.has (task_results (state (sm w))) tid
                 then S (clock w) else clock w)
                (calls w) (trace w)).
Proof.
  unfold complete_task_m, get_world, now, on_sm, bind, Py.has, complete_task.
  destruct (Py.get (task_results (state (sm w))) tid) eqn:E;
    cbn [sm state]; rewrite E; reflexivity.
Qed.

Lemma fail_task_m_run now_at tid err w :
  fail_task_m now_at tid err w
  = Some (tt, mkWorld (fail_task (now_at (clock w)) tid err (sm w))
                (router w)
                (if Py.has (task_results (state (sm w))) tid
                 then S (clock w) else clock w)
                (calls w) (trace w)).
Proof.
  unfold fail_task_m, get_world, now, on_sm, bind, Py.has, fail_task.
  destruct (Py.get (task_results (state (sm w))) tid) eqn:E;
    cbn [sm state]; rewrite E; reflexivity.
Qed.

Ltac stamp :=
  unfold bind; rewrite ?complete_task_m_run, ?fail_task_m_run; cbn beta iota.

Lemma has_failed_tasks_spec m :
  has_failed_tasks m = true <-> failed_tasks (state m) <> [].
Proof.
  unfold has_failed_tasks. destruct (failed_tasks (state m)); simpl.
  - split; [discriminate | congruence].
  - split; [discriminate | reflexivity].
Qed.

(** The completion rule, on the world the executor returned. *)
Lemma finish_workflow_returned now_at wf w w0 :
  exists w',
    finish_workflow now_at wf (Returned w) w0 = Some (tt, w')
    /\ failed_tasks (state (sm w')) = failed_tasks (state (sm w))
    /\ completed_tasks (state (sm w')) = completed_tasks (state (sm w))
    /\ task_results (state (sm w')) = task_results (state (sm w))
    /\ wstatus (state (sm w')) =
       if has_failed_tasks (sm w) && negb (continue_on_failure wf)
       then WfFailed else WfCompleted.
Proof.
  unfold finish_workflow.
  destruct (has_failed_tasks (sm w) && negb (continue_on_failure wf));
    eexists; (split; [reflexivity|]); simpl; repeat split.
Qed.

(** C1 (as amended): when [execute_workflow] finishes without timeout or
    executor exception, the final status is [failed] iff some task is in
    [failed_tasks] and [continue_on_failure] is false, and [completed]
    otherwise; [partial] is never assigned. *)
Theorem execute_workflow_final_status
    (now_at : nat -> Z)
    (agent_run : nat -> TaskDefinition -> string -> WorkflowState
                 -> string + string)
    (wait_first_completed : list TaskDefinition -> M (list TaskDefinition))
    (wait_all : list TaskDefinition -> M unit)
    (fuel : nat) (wf : WorkflowDefinition) (auto_strategy : bool)
    (w w' : World) :
  execute_workflow now_at agent_run wait_first_completed wait_all fuel wf
    auto_strategy w = Some (tt, w') ->
  let s := state (sm w') in
  (wstatus s = WfFailed
   <-> failed_tasks s <> [] /\ continue_on_failure wf = false)
  /\ (wstatus s = WfCompleted
      <-> failed_tasks s = [] \/ continue_on_failure wf = true)
  /\ wstatus s <> WfPartial.
Proof.
  unfold execute_workflow. intros H.
  do 5 (apply bind_Some in H as [? [? [_ H]]]).
  match type of H with
  | finish_workflow _ _ (Returned ?x) ?y = _ =>
      destruct (finish_workflow_returned now_at wf x y)
        as [w1 [E [Hf [_ [_ Hs]]]]]
  end.
  rewrite E in H. injection H as <-. simpl.
  rewrite Hs, Hf.
  match goal with
  | |- context [has_failed_tasks ?m] =>
      pose proof (has_failed_tasks_spec m) as Hspec;
      destruct (has_failed_tasks m)
  end;
    destruct (continue_on_failure wf); simpl;
    destruct (failed_tasks _) as [|f fs] eqn:Ef;
    repeat split; try congruence; try tauto; try discriminate;
    try (intros _; apply Hspec; reflexivity);
    try (destruct Hspec as [Hs1 Hs2]; exfalso;
         first [ now apply Hs1 | discriminate (Hs2 ltac:(discriminate)) ]);
    intuition congruence.
Qed.

Lemma execute_workflow_final_status_witness :
  exists w',
    execute_workflow Stub.clock_ticks Stub.boom
      (run_first Stub.clock_ticks Stub.boom) (run_all Stub.clock_ticks Stub.boom)
      0 (Stub.a_then_b false) false (fresh_world (Stub.a_then_b false))
    = Some (tt, w')
    /\ wstatus (state (sm w')) = WfFailed.
Proof.
  assert (exists w',
    execute_workflow Stub.clock_ticks Stub.boom
      (run_first Stub.clock_ticks Stub.boom) (run_all Stub.clock_ticks Stub.boom)
      0 (Stub.a_then_b false) false (fresh_world (Stub.a_then_b false))
    = Some (tt, w')
    /\ failed_tasks (state (sm w')) <> []) as [w' [E Hf]].
  { vm_compute. eexists. split; [reflexivity | discriminate]. }
  exists w'. split; [exact E|].
  apply (proj1 (execute_workflow_final_status _ _ _ _ _ _ _ _ _ E)).
  split; [exact Hf | reflexivity].
Defined.

(** C1 (as stated) fails: with [continue_on_failure] set, task [A]
    failing and task [B] completing, the workflow ends [completed], not
    [partial]. *)
Lemma execute_workflow_never_partial :
  exists s ra rb,
    final_state (Stub.run Stub.boom_on_A (Stub.a_then_b true)
                   (fresh_world (Stub.a_then_b true))) = Some s
    /\ Py.get (task_results s) "A" = Some ra /\ status ra = FAILED
    /\ Py.get (task_results s) "B" = Some rb /\ status rb = COMPLETED
    /\ failed_tasks s = ["A"] /\ completed_tasks s = ["B"]
    /\ continue_on_failure (Stub.a_then_b true) = true
    /\ wstatus s = WfCompleted.
Proof.
  do 3 eexists.
  split; [vm_compute; reflexivity|].
  vm_compute. repeat split.
Qed.

(** ** Driver: the retry loop *)

Lemma backoff_from_delay_at {float_arith : FloatArith} cfg n k :
  backoff_from cfg (delay_at cfg k) n = map (delay_at cfg) (seq k n).
Proof.
  revert k. induction n as [|n IH]; intros k; simpl; [reflexivity|].
  f_equal. apply (IH (S k)).
Qed.

(** The driver is its retry loop run from [driver_start]. *)
Lemma execute_task_unfold {float_arith : FloatArith} now_at agent_run t w :
  execute_task now_at agent_run t w
  = retry_loop now_at agent_run (S (S (max_retries (retry_config t)))) t
      (route_task (router w) t) 0 (initial_delay (retry_config t))
      (driver_start now_at t w).
Proof. reflexivity. Qed.

Section Driver.

Context {float_arith : FloatArith}.
Variable now_at : nat -> Z.
Variable agent_run :
  nat -> TaskDefinition -> string -> WorkflowState -> string + string.
Variable t : TaskDefinition.
Variable agent : string.


Hypothesis always_fails :
  forall k a s, exists msg, agent_run k t a s = inr msg.

(** With an agent that fails every time, the loop runs through all the
    retries that are left and then fails the task. *)
Lemma retry_loop_failing n : forall rc delay fuel w,
  (rc + n = max_retries (retry_config t))%nat -> (n < fuel)%nat ->
  has_result w (id t) ->
  exists w' ev,
    retry_loop now_at agent_run fuel t agent rc delay w = Some (tt, w')
    /\ calls w' = (calls w + S n)%nat
    /\ trace w' = trace w ++ ev
    /\ invocations ev = S n
    /\ retries ev = n
    /\ sleeps ev = backoff_from (retry_config t) delay n
    /\ (exists r, Py.get (task_results (state (sm w'))) (id t) = Some r
                  /\ status r = FAILED)
    /\ In (id t) (failed_tasks (state (sm w'))).
Proof.
  induction n as [|n IH]; intros rc delay fuel w Hrc Hfuel [r0 Hr0];
    (destruct fuel as [|fuel]; [lia|]); cbn [retry_loop]; cbv zeta;
    (replace (Nat.leb rc (max_retries (retry_config t))) with true
      by (symmetry; apply Nat.leb_le; lia)).
  - replace (Nat.ltb rc (max_retries (retry_config t))) with false
      by (symmetry; apply Nat.ltb_ge; lia).
    unfold bind at 1, execute_single_task.
    destruct (always_fails (calls w) agent (state (sm w))) as [msg ->].
    stamp. do 2 eexists.
    split; [reflexivity|]. simpl.
    rewrite Hr0, get_set_same, <- app_assoc. simpl.
    split; [lia|]. split; [reflexivity|].
    repeat split.
    + eexists. split; reflexivity.
    + apply add_In. now left.
  - replace (Nat.ltb rc (max_retries (retry_config t))) with true
      by (symmetry; apply Nat.ltb_lt; lia).
    unfold bind at 1, execute_single_task.
    destruct (always_fails (calls w) agent (state (sm w))) as [msg ->].
    unfold retry_task_m, progress, emit, on_sm, bind. cbn beta iota.
    match goal with
    | |- context [retry_loop _ _ fuel t agent (S rc) ?d ?w1] =>
        destruct (IH (S rc) d fuel w1)
          as [w' [ev [E [Hc [Ht [Hi [Hr [Hs [Hres Hin]]]]]]]]];
          [lia | lia | |]
    end.
    + unfold has_result. simpl. rewrite Hr0. eexists. apply get_set_same.
    + exists w'. eexists. split; [exact E|].
      simpl in Hc, Ht. rewrite <- !app_assoc in Ht. simpl in Ht.
      split; [lia|]. split; [exact Ht|].
      unfold invocations, retries, sleeps in *. simpl.
      rewrite Hi, Hr, Hs. repeat split; assumption.
Qed.

(** What that leaves in the state store: a [failed] result, and the id
    in [pending_tasks] once [retry_task] was called. *)
Lemma retry_loop_failing_state n : forall rc delay fuel w,
  (rc + n = max_retries (retry_config t))%nat -> (n < fuel)%nat ->
  has_result w (id t) ->
  exists w',
    retry_loop now_at agent_run fuel t agent rc delay w = Some (tt, w')
    /\ workflow (sm w') = workflow (sm w)
    /\ (exists r, Py.get (task_results (state (sm w'))) (id t) = Some r
                  /\ status r = FAILED)
    /\ ((1 <= n)%nat \/ In (id t) (pending_tasks (state (sm w))) ->
        In (id t) (pending_tasks (state (sm w')))).
Proof.
  induction n as [|n IH]; intros rc delay fuel w Hrc Hfuel [r0 Hr0];
    (destruct fuel as [|fuel]; [lia|]); cbn [retry_loop]; cbv zeta;
    (replace (Nat.leb rc (max_retries (retry_config t))) with true
      by (symmetry; apply Nat.leb_le; lia)).
  - replace (Nat.ltb rc (max_retries (retry_config t))) with false
      by (symmetry; apply Nat.ltb_ge; lia).
    unfold bind at 1, execute_single_task.
    destruct (always_fails (calls w) agent (state (sm w))) as [msg ->].
    stamp. eexists. split; [reflexivity|]. simpl.
    rewrite Hr0, get_set_same.
    split; [reflexivity|]. split; [eexists; split; reflexivity|].
    intros [H|H]; [lia | exact H].
  - replace (Nat.ltb rc (max_retries (retry_config t))) with true
      by (symmetry; apply Nat.ltb_lt; lia).
    unfold bind at 1, execute_single_task.
    destruct (always_fails (calls w) agent (state (sm w))) as [msg ->].
    unfold retry_task_m, progress, emit, on_sm, bind. cbn beta iota.
    match goal with
    | |- context [retry_loop _ _ fuel t agent (S rc) ?d ?w1] =>
        destruct (IH (S rc) d fuel w1) as [w' [E [Hw [Hres Hp]]]];
          [lia | lia | |]
    end.
    + unfold has_result. simpl. rewrite Hr0. eexists. apply get_set_same.
    + exists w'. split; [exact E|]. split; [exact Hw|]. split; [exact Hres|].
      intros _. apply Hp. right. simpl. apply add_In. now left.
Qed.

End Driver.


(** One call of the driver, taken alone: when the agent fails on every
    attempt, the call invokes it [max_retries + 1] times, calls
    [retry_task] [max_retries] times, sleeps [d_0 = initial_delay],
    [d_(k+1) = min(d_k * backoff_multiplier, max_delay)] between the
    attempts, whatever the product of two floats is, and returns with a
    [failed] result; with [max_retries = 0] there is one attempt and no
    [retry_task] call. *)
Lemma execute_task_retries_exhausted
    (float_arith : FloatArith)
    (now_at : nat -> Z)
    (agent_run : nat -> TaskDefinition -> string -> WorkflowState
                 -> string + string)
    (t : TaskDefinition) (w : World) :
  (forall k a s, exists msg, agent_run k t a s = inr msg) ->
  let n := max_retries (retry_config t) in
  exists w' ev,
    execute_task now_at agent_run t w = Some (tt, w')
    /\ trace w' = trace w ++ ev
    /\ calls w' = (calls w + (n + 1))%nat
    /\ invocations ev = (n + 1)%nat
    /\ retries ev = n
    /\ (retries ev <= n)%nat
    /\ sleeps ev = map (delay_at (retry_config t)) (seq 0 n)
    /\ (exists r, Py.get (task_results (state (sm w'))) (id t) = Some r
                  /\ status r = FAILED)
    /\ In (id t) (failed_tasks (state (sm w')))
    /\ (n = 0%nat -> invocations ev = 1%nat /\ retries ev = 0%nat).
Proof.
  intros Hfail n.
  unfold execute_task, get_world, start_task_m, progress, emit, on_router,
    on_sm, now, bind. cbn beta iota.
  match goal with
  | |- context [retry_loop _ _ ?f t ?a 0%nat ?d ?w1] =>
      destruct (retry_loop_failing now_at agent_run t a Hfail n 0%nat d f w1)
        as [w' [ev [E [Hc [Ht [Hi [Hr [Hs [Hres Hin]]]]]]]]];
        [reflexivity | unfold n; lia | |]
  end.
  - unfold has_result. simpl.
    destruct (Py.get (task_results (state (sm w))) (id t));
      eexists; apply get_set_same.
  - exists w'. eexists. split; [exact E|].
    simpl in Hc, Ht. rewrite <- app_assoc in Ht.
    split; [exact Ht|]. split; [lia|].
    unfold invocations, retries, sleeps in *. simpl.
    rewrite Hi, Hr, Hs.
    change (initial_delay (retry_config t)) with (delay_at (retry_config t) 0).
    rewrite backoff_from_delay_at.
    repeat split; try assumption; try lia.
Qed.

Lemma execute_task_retries_exhausted_witness :
  let t := mkTask "A" "" [] [GENERAL] [] 5
             (mkRetry 2 (2 # 1) (1 # 1) (3 # 1)) [] None None None in
  exists w' ev,
    execute_task Stub.clock_ticks Stub.boom t
      (fresh_world (mkWorkflow "w" [t] SEQUENTIAL None 5 false))
    = Some (tt, w')
    /\ trace w' = ev
    /\ invocations ev = 3%nat
    /\ retries ev = 2%nat
    /\ sleeps ev = map (delay_at (retry_config t)) [0; 1]%nat.
Proof.
  intros t.
  destruct (execute_task_retries_exhausted exact_products Stub.clock_ticks
              Stub.boom t
              (fresh_world (mkWorkflow "w" [t] SEQUENTIAL None 5 false)))
    as [w' [ev [E [Ht [_ [Hi [Hr [_ [Hs _]]]]]]]]].
  - intros k a s. exists "boom". reflexivity.
  - exists w', ev. repeat split; assumption.
Defined.

(** *** A task that failed after a retry, under the DAG executor

    [retry_task] puts the id back into [pending_tasks] and the driver,
    which retries in its own loop, never takes it out again.  When the
    driver has returned, the DAG executor finds the failed task pending
    and ready. *)

Lemma execute_task_failing_state {float_arith : FloatArith}
    (now_at : nat -> Z)
    (agent_run : nat -> TaskDefinition -> string -> WorkflowState
                 -> string + string)
    (t : TaskDefinition) (w : World) :
  (forall k a s, exists msg, agent_run k t a s = inr msg) ->
  (1 <= max_retries (retry_config t))%nat ->
  exists w',
    execute_task now_at agent_run t w = Some (tt, w')
    /\ workflow (sm w') = workflow (sm w)
    /\ get_task_status (state (sm w')) (id t) = FAILED
    /\ In (id t) (pending_tasks (state (sm w'))).
Proof.
  intros Hfail Hmax. rewrite execute_task_unfold.
  destruct (retry_loop_failing_state now_at agent_run t
              (route_task (router w) t) Hfail
              (max_retries (retry_config t)) 0%nat
              (initial_delay (retry_config t))
              (S (S (max_retries (retry_config t))))
              (driver_start now_at t w))
    as [w' [E [Hw [[r [Hr Hs]] Hp]]]]; [reflexivity | lia | |].
  - unfold has_result. simpl.
    destruct (Py.get (task_results (state (sm w))) (id t));
      eexists; apply get_set_same.
  - exists w'. split; [exact E|]. split; [exact Hw|].
    split; [unfold get_task_status; now rewrite Hr|].
    apply Hp. now left.
Qed.

Section Relaunch.

Context {float_arith : FloatArith}.
Variable now_at : nat -> Z.

(** With [continue_on_failure], task [A] of [retried_chain] is ready
    again at every turn of the loop when its agent always raises: each
    turn runs its driver anew, and the loop has not ended when the fuel
    is spent, whatever the fuel. *)
Lemma dag_loop_relaunches fuel : forall w,
  workflow (sm w) = retried_chain true ->
  In "A" (pending_tasks (state (sm w))) ->
  get_task_status (state (sm w)) "A" <> COMPLETED ->
  dag_loop now_at (run_first now_at Stub.boom) (run_all now_at Stub.boom)
    fuel [] w = None.
Proof.
  induction fuel as [|fuel IH]; intros w Hw Hp Hs; [reflexivity|].
  cbn [dag_loop]. unfold bind at 1, get_world.
  assert (is_workflow_complete (sm w) = false) as ->.
  { unfold is_workflow_complete.
    destruct (pending_tasks (state (sm w))); [destruct Hp | reflexivity]. }
  assert (get_ready_tasks now_at w
          = Some ([hd (Stub.once "A") (tasks (retried_chain true))], w)) as Er.
  { unfold get_ready_tasks, bind, get_world. rewrite Hw.
    cbn [tasks retried_chain get_ready_tasks_from]. unfold bind, get_world.
    cbn [id depends_on condition is_task_ready forallb Py.truthy].
    rewrite (proj2 (mem_In "A" _) Hp). cbn [andb].
    destruct (get_task_status (state (sm w)) "A") eqn:E;
      try (rewrite andb_false_r; reflexivity).
    congruence. }
  unfold bind at 1. rewrite Er. cbv beta iota.
  unfold bind at 1, get_world.
  assert (stop_on_failure w = false) as ->
      by (unfold stop_on_failure; now rewrite Hw).
  rewrite Hw. cbn [max_parallel_tasks retried_chain List.length Nat.sub
                   firstn skipn app hd tasks].
  unfold run_first, run_all. cbn [for_each]. unfold bind.
  match goal with
  | |- context [execute_task now_at Stub.boom ?a w] =>
      destruct (execute_task_failing_state now_at Stub.boom a w)
        as [w' [E [Hw' [Hs' Hp']]]]
  end.
  - intros k a s. now exists "boom".
  - simpl. lia.
  - rewrite E. unfold ret. apply IH.
    + now rewrite Hw'.
    + exact Hp'.
    + simpl in Hs'. rewrite Hs'. discriminate.
Qed.

End Relaunch.

(** C7 at its failing inputs.  In [retried_chain] task [A] allows one
    retry.  When its agent raises on every attempt and the workflow is
    fail-fast, the driver makes its two invocations and its one
    [retry_task] call, and the DAG executor then skips the task: its
    result ends [skipped], not [failed].  With [continue_on_failure]
    the executor starts the driver of [A] again: with an agent that
    raises four times, [retry_task] is called twice for [A], above
    [max_retries = 1], in five invocations; and with the agent that
    raises every time the executor has not returned after any number of
    turns, for any clock and any product of floats. *)
Theorem retried_failure_under_dag :
  (exists w ra,
     Stub.run Stub.boom (retried_chain false)
       (fresh_world (retried_chain false)) = Some (tt, w)
     /\ invocations (trace w) = 2%nat
     /\ retries (trace w) = 1%nat
     /\ Py.get (task_results (state (sm w))) "A" = Some ra
     /\ status ra = SKIPPED
     /\ error ra = Some "Previous task failed")
  /\ (exists w,
        Stub.run (failing_until 4) (retried_chain true)
          (fresh_world (retried_chain true)) = Some (tt, w)
        /\ filter (fun e => match e with EvRetry _ => true | _ => false end)
             (trace w)
           = [EvRetry "A"; EvRetry "A"]
        /\ filter (fun e => match e with
                            | EvInvoke tid _ => String.eqb tid "A"
                            | _ => false
                            end)
             (trace w)
           = repeat (EvInvoke "A" "code-analyzer") 5)
  /\ (forall (float_arith : FloatArith) (now_at : nat -> Z) (fuel : nat)
             (w : World),
        execute_workflow now_at Stub.boom (run_first now_at Stub.boom)
          (run_all now_at Stub.boom) fuel (retried_chain true) false w
        = None).
Proof.
  split; [|split].
  - do 2 eexists. split; [vm_compute; reflexivity|].
    vm_compute. repeat split.
  - eexists. split; [vm_compute; reflexivity|].
    vm_compute. split; reflexivity.
  - intros float_arith now_at fuel w.
    unfold execute_workflow, on_sm, now, bind.
    cbn [execution_strategy retried_chain create_executor].
    unfold DAGExecutor_execute, bind, get_world.
    match goal with
    | |- context [topological_sort ?m] =>
        replace (topological_sort m)
          with (@Some (string + list string) (inr ["A"; "B"]))
          by (vm_compute; reflexivity)
    end.
    rewrite dag_loop_relaunches; [reflexivity | reflexivity | |].
    + simpl. now left.
    + simpl. discriminate.
Qed.

(** C2 at the caching example: on one orchestrator the second run of the
    workflow invokes the agent for both tasks again (four invocations in
    all), and the results it records are those of the second run. *)
Theorem rerun_invokes_agent_again :
  exists w1 w2,
    Stub.run Stub.echo cached_workflow (fresh_world cached_workflow)
    = Some (tt, w1)
    /\ Stub.run Stub.echo cached_workflow w1 = Some (tt, w2)
    /\ wstatus (state (sm w1)) = WfCompleted
    /\ wstatus (state (sm w2)) = WfCompleted
    /\ calls w1 = 2%nat
    /\ calls w2 = 4%nat
    /\ invocations (skipn (List.length (trace w1)) (trace w2)) = 2%nat.
Proof.
  do 2 eexists.
  split; [vm_compute; reflexivity|].
  split; [vm_compute; reflexivity|].
  vm_compute. repeat split.
Qed.

(** ** Topological sort *)

Lemma get_or_set {V} (d : Py.dict V) k k' v dflt :
  Py.get_or (Py.set d k v) k' dflt
  = if String.eqb k k' then v else Py.get_or d k' dflt.
Proof.
  unfold Py.get_or. destruct (String.eqb_spec k k') as [->|Hne].
  - now rewrite get_set_same.
  - now rewrite get_set_other.
Qed.

Lemma keys_set {V} (d : Py.dict V) k v :
  Py.keys (Py.set d k v)
  = if Py.mem k (Py.keys d) then Py.keys d else Py.keys d ++ [k].
Proof.
  induction d as [|[k0 v0] d IH]; simpl; [reflexivity|].
  destruct (String.eqb k k0) eqn:E; simpl; [reflexivity|].
  unfold Py.keys in *. rewrite IH.
  now destruct (Py.mem k (map fst d)).
Qed.

Lemma keys_set_In {V} (d : Py.dict V) k v x :
  In x (Py.keys (Py.set d k v)) <-> x = k \/ In x (Py.keys d).
Proof.
  rewrite keys_set. destruct (Py.mem k (Py.keys d)) eqn:E.
  - apply mem_In in E. intuition congruence.
  - rewrite in_app_iff. simpl. intuition.
Qed.

Lemma keys_set_NoDup {V} (d : Py.dict V) k v :
  NoDup (Py.keys d) -> NoDup (Py.keys (Py.set d k v)).
Proof.
  rewrite keys_set. intros H. exact (add_NoDup k _ H).
Qed.

Lemma In_get {V} (d : Py.dict V) k v :
  NoDup (Py.keys d) -> In (k, v) d -> Py.get d k = Some v.
Proof.
  induction d as [|[k0 v0] d IH]; simpl; [tauto|].
  intros Hnd [H|H].
  - injection H as -> ->. now rewrite String.eqb_refl.
  - inversion Hnd as [|? ? Hk0 Hd]; subst.
    destruct (String.eqb_spec k k0) as [->|Hne].
    + exfalso. apply Hk0. change (In (fst (k0, v)) (map fst d)).
      now apply in_map.
    + now apply IH.
Qed.

Lemma pushed_ext tid d1 d2 items :
  (forall it, In it items -> Py.get_or d1 (fst it) 0 = Py.get_or d2 (fst it) 0) ->
  pushed tid d1 items = pushed tid d2 items.
Proof.
  intros H. unfold pushed. f_equal. apply filter_ext_in.
  intros it Hit. now rewrite (H it Hit).
Qed.

Lemma relax_fold tid items : NoDup (Py.keys items) -> forall d q,
  exists d',
    fold_left (Kahn.relax tid) items (d, q) = (d', q ++ pushed tid d items)
    /\ forall v, Py.get_or d' v 0
                 = Py.get_or d v 0 - (if hit tid items v then 1 else 0).
Proof.
  induction items as [|[o deps] items IH]; intros Hnd d q.
  - exists d. simpl. split; [now rewrite app_nil_r | intros; lia].
  - inversion Hnd as [|? ? Ho Hitems]; subst. simpl.
    destruct (Py.mem tid deps) eqn:Emem; simpl.
    + set (d1 := Py.set d o (Py.get_or d o 0 - 1)).
      assert (pushed tid d1 items = pushed tid d items) as Hp.
      { apply pushed_ext. intros it Hit. unfold d1. rewrite get_or_set.
        destruct (String.eqb_spec o (fst it)) as [->|]; [|reflexivity].
        exfalso. apply Ho. now apply in_map. }
      destruct (IH Hitems d1
                  (if Py.get_or d o 0 - 1 =? 0 then q ++ [o] else q))
        as [d' [E Hd']].
      exists d'. split.
      * rewrite E, Hp. unfold pushed at 2. simpl. rewrite Emem. simpl.
        destruct (Py.get_or d o 0 - 1 =? 0); simpl;
          [now rewrite <- app_assoc | reflexivity].
      * intros v. rewrite Hd'. unfold d1. rewrite get_or_set.
        destruct (String.eqb_spec o v) as [->|Hne]; simpl; [|reflexivity].
        replace (hit tid items v) with false; [lia|].
        symmetry. apply not_true_is_false. intros Hh.
        apply existsb_exists in Hh as [it [Hit Hb]].
        apply andb_true_iff in Hb as [Hb _]. apply String.eqb_eq in Hb.
        apply Ho. rewrite <- Hb. now apply in_map.
    + destruct (IH Hitems d q) as [d' [E Hd']].
      exists d'. split.
      * rewrite E. unfold pushed at 2. simpl. now rewrite Emem.
      * intros v. rewrite Hd'. now rewrite andb_false_r.
Qed.

Lemma hit_spec tid items v deps :
  NoDup (Py.keys items) -> In (v, deps) items ->
  hit tid items v = Py.mem tid deps.
Proof.
  intros Hnd Hin. unfold hit.
  destruct (Py.mem tid deps) eqn:E.
  - apply existsb_exists. exists (v, deps). simpl.
    now rewrite String.eqb_refl, E.
  - apply not_true_is_false. intros H.
    apply existsb_exists in H as [[v' deps'] [Hin' Hb]]. simpl in Hb.
    apply andb_true_iff in Hb as [Hv Hm]. apply String.eqb_eq in Hv. subst v'.
    pose proof (In_get _ _ _ Hnd Hin) as H1.
    pose proof (In_get _ _ _ Hnd Hin') as H2.
    congruence.
Qed.

Lemma pushed_In tid d items v :
  In v (pushed tid d items)
  <-> exists deps, In (v, deps) items /\ Py.mem tid deps = true
                   /\ Py.get_or d v 0 = 1.
Proof.
  unfold pushed. rewrite in_map_iff. split.
  - intros [[v' deps] [<- Hin]]. apply filter_In in Hin as [Hin Hb].
    simpl in *. apply andb_true_iff in Hb as [Hm Hz].
    apply Z.eqb_eq in Hz. exists deps. repeat split; auto; lia.
  - intros [deps [Hin [Hm Hz]]]. exists (v, deps). split; [reflexivity|].
    apply filter_In. split; [assumption|]. simpl. rewrite Hm, Hz. reflexivity.
Qed.

Lemma NoDup_keys_filter {V} (f : string * V -> bool) (d : Py.dict V) :
  NoDup (Py.keys d) -> NoDup (map fst (filter f d)).
Proof.
  induction d as [|[k v] d IH]; simpl; [constructor|].
  intros H. inversion H as [|? ? Hk Hd]; subst.
  destruct (f (k, v)); simpl; [|now apply IH].
  constructor; [|now apply IH].
  intros Hin. apply Hk. apply in_map_iff in Hin as [x [<- Hx]].
  apply filter_In in Hx as [Hx _]. now apply in_map.
Qed.

Section KahnLoop.

Variable G : Py.dict (list string).
Hypothesis G_nodup : NoDup (Py.keys G).
Variable K : list string.
Hypothesis G_in_K : incl (Py.keys G) K.

Lemma queue_inv_step d tid q result d' q' :
  queue_inv K d (tid :: q) result ->
  fold_left (Kahn.relax tid) G (d, q) = (d', q') ->
  queue_inv K d' q' (result ++ [tid])
  /\ q' = q ++ pushed tid d G
  /\ forall v, Py.get_or d' v 0
               = Py.get_or d v 0 - (if hit tid G v then 1 else 0).
Proof.
  intros [Hnd Hdone HK] E.
  destruct (relax_fold tid G G_nodup d q) as [d1 [E1 Hd1]].
  rewrite E1 in E. injection E as <- <-.
  split; [|split; [reflexivity | exact Hd1]].
  assert (forall v, In v (pushed tid d G) -> ~ In v (result ++ tid :: q)) as Hfresh.
  { intros v Hv Hin. apply pushed_In in Hv as [deps [_ [_ Hz]]].
    apply Hdone in Hin. lia. }
  constructor.
  - rewrite <- app_assoc. simpl. rewrite app_comm_cons, app_assoc.
    apply NoDup_app; [exact Hnd | now apply NoDup_keys_filter |].
    intros v Hin Hv. exact (Hfresh v Hv Hin).
  - intros v Hin. rewrite Hd1.
    rewrite <- app_assoc in Hin. simpl in Hin.
    rewrite app_comm_cons, app_assoc in Hin.
    apply in_app_iff in Hin as [Hin|Hin].
    + apply Hdone in Hin. destruct (hit tid G v); lia.
    + apply pushed_In in Hin as [deps [Hin [Hm Hz]]].
      rewrite (hit_spec tid G v deps G_nodup Hin), Hm. lia.
  - intros v Hin. rewrite <- app_assoc in Hin. simpl in Hin.
    rewrite app_comm_cons, app_assoc in Hin.
    apply in_app_iff in Hin as [Hin|Hin]; [now apply HK|].
    apply pushed_In in Hin as [deps [Hin _]].
    apply G_in_K. change v with (fst (v, deps)). now apply in_map.
Qed.

(** A further invariant carried along. *)
Variable J : Py.dict Z -> list string -> list string -> Prop.
Hypothesis J_step : forall d tid q result d' q',
  queue_inv K d (tid :: q) result -> J d (tid :: q) result ->
  fold_left (Kahn.relax tid) G (d, q) = (d', q') ->
  J d' q' (result ++ [tid]).

Lemma loop_total fuel : forall d queue result,
  queue_inv K d queue result -> J d queue result ->
  (List.length K - List.length result < fuel)%nat ->
  exists res d',
    Kahn.loop fuel G d queue result = Some res
    /\ queue_inv K d' [] res /\ J d' [] res.
Proof.
  induction fuel as [|fuel IH]; intros d queue result Hinv HJ Hfuel; [lia|].
  destruct queue as [|tid q]; simpl.
  - exists result, d. auto.
  - destruct (fold_left (Kahn.relax tid) G (d, q)) as [d' q'] eqn:E.
    destruct (queue_inv_step _ _ _ _ _ _ Hinv E) as [Hinv' _].
    apply (IH d' q' (result ++ [tid]) Hinv' (J_step _ _ _ _ _ _ Hinv HJ E)).
    destruct Hinv as [Hnd _ HK].
    pose proof (NoDup_incl_length Hnd HK) as Hlen.
    rewrite !length_app in *. simpl in *. lia.
Qed.

End KahnLoop.

(** *** The dictionaries that [topological_sort] builds *)

Lemma set_In_inv {V} (d : Py.dict V) k v k' v' :
  In (k', v') (Py.set d k v) -> (k', v') = (k, v) \/ In (k', v') d.
Proof.
  induction d as [|[k0 v0] d IH]; simpl.
  - intros [H|[]]. left. congruence.
  - destruct (String.eqb_spec k k0) as [->|Hne]; simpl.
    + intros [H|H]; [left; congruence | auto].
    + intros [H|H]; [auto | destruct (IH H); auto].
Qed.

Lemma length_set {V} (d : Py.dict V) k v :
  List.length (Py.set d k v)
  = if Py.mem k (Py.keys d) then List.length d else S (List.length d).
Proof.
  induction d as [|[k0 v0] d IH]; simpl; [reflexivity|].
  destruct (String.eqb k k0); simpl; [reflexivity|].
  rewrite IH. unfold Py.keys, Py.mem.
  now destruct (existsb (String.eqb k) (map fst d)).
Qed.

Section Graph.

Variable wf : WorkflowDefinition.

Lemma graph_fold ts : forall g,
  NoDup (Py.keys g) ->
  let g' := fold_left (fun g t => Py.set g (id t) (depends_on t)) ts g in
  NoDup (Py.keys g')
  /\ (forall v deps, In (v, deps) g' ->
        In (v, deps) g \/ exists t, In t ts /\ id t = v /\ depends_on t = deps).
Proof.
  induction ts as [|t ts IH]; intros g Hg; simpl; [auto|].
  destruct (IH (Py.set g (id t) (depends_on t)) (keys_set_NoDup _ _ _ Hg))
    as [H1 H2].
  split; [exact H1|].
  intros v deps Hin. destruct (H2 v deps Hin) as [H|[t' [Ht' He]]].
  - apply set_In_inv in H as [H|H]; [|now left].
    injection H as -> ->. right. exists t. simpl. auto.
  - right. exists t'. simpl. auto.
Qed.

Lemma graph_NoDup : NoDup (Py.keys (build_dependency_graph wf)).
Proof. apply (graph_fold (tasks wf) []). constructor. Qed.

Lemma graph_from_task v deps :
  In (v, deps) (build_dependency_graph wf) -> exists t, In t (tasks wf) /\ id t = v /\ depends_on t = deps.
Proof.
  intros H. destruct (proj2 (graph_fold (tasks wf) [] (NoDup_nil _)) v deps H)
    as [[]|Ht]. exact Ht.
Qed.

Lemma zeros_fold ts : forall d,
  NoDup (Py.keys d) -> (forall v, Py.get_or d v 0 = 0) ->
  let d' := fold_left (fun d t => Py.set d (id t) 0) ts d in
  NoDup (Py.keys d')
  /\ (forall v, Py.get_or d' v 0 = 0)
  /\ (forall v, In v (Py.keys d') <-> In v (Py.keys d) \/ In v (map id ts))
  /\ (List.length d' <= List.length d + List.length ts)%nat.
Proof.
  induction ts as [|t ts IH]; intros d Hd Hz; simpl.
  - repeat split; auto; try tauto; lia.
  - destruct (IH (Py.set d (id t) 0)) as [H1 [H2 [H3 H4]]].
    + now apply keys_set_NoDup.
    + intros v. rewrite get_or_set. destruct (String.eqb (id t) v); auto.
    + repeat split; auto.
      * intros H. apply H3 in H as [H|H]; [|tauto].
        apply keys_set_In in H. intuition.
      * intros H. apply H3. rewrite keys_set_In. intuition.
      * rewrite length_set in H4.
        destruct (Py.mem (id t) (Py.keys d)); lia.
Qed.

Lemma count_node_spec tid deps d :
  NoDup (Py.keys d) ->
  let d' := Kahn.count_node d (tid, deps) in
  NoDup (Py.keys d')
  /\ (forall v, In v (Py.keys d) -> In v (Py.keys d'))
  /\ (forall v, Py.get_or d' v 0
                = Py.get_or d v 0
                  + (if String.eqb tid v then Z.of_nat (List.length deps) else 0))
  /\ (In tid (Py.keys d) -> incl deps (Py.keys d) ->
      Py.keys d' = Py.keys d).
Proof.
  intros Hd. unfold Kahn.count_node.
  set (f1 := fun d dep => Py.set d dep (Py.get_or d dep 0)).
  set (f2 := fun (d : Py.dict Z) (_ : string) =>
               Py.set d tid (Py.get_or d tid 0 + 1)).
  assert (forall l d0, NoDup (Py.keys d0) ->
            NoDup (Py.keys (fold_left f1 l d0))
            /\ (forall v, In v (Py.keys d0) -> In v (Py.keys (fold_left f1 l d0)))
            /\ (forall v, Py.get_or (fold_left f1 l d0) v 0 = Py.get_or d0 v 0)
            /\ (incl l (Py.keys d0) -> Py.keys (fold_left f1 l d0) = Py.keys d0))
    as Hf1.
  { induction l as [|x l IH]; intros d0 Hd0; simpl; [auto|].
    destruct (IH (f1 d0 x) (keys_set_NoDup _ _ _ Hd0)) as [A [B [C E]]].
    split; [exact A|]. split; [|split].
    - intros v Hv. apply B. apply keys_set_In. now right.
    - intros v. rewrite C. unfold f1. rewrite get_or_set.
      destruct (String.eqb_spec x v); congruence.
    - intros Hincl.
      assert (Py.keys (f1 d0 x) = Py.keys d0) as Hk.
      { unfold f1. rewrite keys_set.
        replace (Py.mem x (Py.keys d0)) with true; [reflexivity|].
        symmetry. apply mem_In. apply Hincl. now left. }
      rewrite E; [exact Hk|]. rewrite Hk. intros y Hy. apply Hincl. now right. }
  assert (forall (l : list string) d0, NoDup (Py.keys d0) ->
            NoDup (Py.keys (fold_left f2 l d0))
            /\ (forall v, In v (Py.keys d0) -> In v (Py.keys (fold_left f2 l d0)))
            /\ (forall v, Py.get_or (fold_left f2 l d0) v 0
                          = Py.get_or d0 v 0
                            + (if String.eqb tid v then Z.of_nat (List.length l)
                               else 0))
            /\ (In tid (Py.keys d0) -> Py.keys (fold_left f2 l d0) = Py.keys d0))
    as Hf2.
  { induction l as [|x l IH]; intros d0 Hd0.
    - simpl. repeat split; auto. intros v. destruct (String.eqb tid v); lia.
    - cbn [fold_left].
      destruct (IH (f2 d0 x) (keys_set_NoDup _ _ _ Hd0)) as [A [B [C E]]].
      split; [exact A|]. split; [|split].
      + intros v Hv. apply B. apply keys_set_In. now right.
      + intros v. rewrite C. unfold f2. rewrite get_or_set.
        destruct (String.eqb_spec tid v) as [->|_];
          [cbn [List.length]; lia | lia].
      + intros Hin.
        assert (Py.keys (f2 d0 x) = Py.keys d0) as Hk.
        { unfold f2. rewrite keys_set.
          replace (Py.mem tid (Py.keys d0)) with true; [reflexivity|].
          symmetry. now apply mem_In. }
        rewrite E; [exact Hk|]. now rewrite Hk. }
  destruct (Hf1 deps d Hd) as [A1 [B1 [C1 E1]]].
  destruct (Hf2 deps (fold_left f1 deps d) A1) as [A2 [B2 [C2 E2]]].
  split; [exact A2|]. split; [|split].
  - intros v Hv. apply B2, B1, Hv.
  - intros v. now rewrite C2, C1.
  - intros Hin Hincl. rewrite E2; [now apply E1 | now apply B1].
Qed.

Lemma degrees_fold items : forall d,
  NoDup (Py.keys d) -> NoDup (Py.keys items) ->
  let d' := fold_left Kahn.count_node items d in
  NoDup (Py.keys d')
  /\ (forall v, In v (Py.keys d) -> In v (Py.keys d'))
  /\ (forall v deps, In (v, deps) items ->
        Py.get_or d' v 0 = Py.get_or d v 0 + Z.of_nat (List.length deps))
  /\ ((forall v deps, In (v, deps) items ->
         In v (Py.keys d) /\ incl deps (Py.keys d)) ->
      Py.keys d' = Py.keys d).
Proof.
  induction items as [|[tid deps] items IH]; intros d Hd Hitems;
    cbv zeta; cbn [fold_left].
  - repeat split; auto. intros v deps [].
  - inversion Hitems as [|? ? Hk Hrest]; subst.
    destruct (count_node_spec tid deps d Hd) as [A [B [C E]]].
    destruct (IH (Kahn.count_node d (tid, deps)) A Hrest) as [A' [B' [C' E']]].
    split; [exact A'|]. split; [|split].
    + intros v Hv. apply B', B, Hv.
    + intros v deps' [H|H].
      * injection H as -> ->.
        assert (forall its d0, ~ In v (Py.keys its) ->
                  Py.get_or (fold_left Kahn.count_node its d0) v 0
                  = Py.get_or d0 v 0) as Hskip.
        { induction its as [|[k0 ds0] its IHi]; intros d0 Hn; simpl; [reflexivity|].
          simpl in Hn. rewrite IHi by tauto.
          unfold Kahn.count_node.
          assert (forall (l : list string) d1,
                    Py.get_or (fold_left (fun d _ =>
                       Py.set d k0 (Py.get_or d k0 0 + 1)) l d1) v 0
                    = Py.get_or d1 v 0) as H2.
          { induction l as [|x l IHl]; intros d1; simpl; [reflexivity|].
            rewrite IHl, get_or_set.
            destruct (String.eqb_spec k0 v); [tauto | reflexivity]. }
          assert (forall (l : list string) d1,
                    Py.get_or (fold_left (fun d dep =>
                       Py.set d dep (Py.get_or d dep 0)) l d1) v 0
                    = Py.get_or d1 v 0) as H1.
          { induction l as [|x l IHl]; intros d1; simpl; [reflexivity|].
            rewrite IHl, get_or_set.
            destruct (String.eqb_spec x v); congruence. }
          now rewrite H2, H1. }
        rewrite Hskip by exact Hk. rewrite C, String.eqb_refl. reflexivity.
      * rewrite (C' v deps' H), C.
        destruct (String.eqb_spec tid v) as [->|_]; [|lia].
        exfalso. apply Hk. change v with (fst (v, deps')). now apply in_map.
    + intros Hall.
      assert (Py.keys (Kahn.count_node d (tid, deps)) = Py.keys d) as Hkeys.
      { destruct (Hall tid deps (or_introl eq_refl)) as [H1 H2]. now apply E. }
      rewrite E'; [exact Hkeys|].
      intros v ds Hin. rewrite Hkeys. apply (Hall v ds). now right.
Qed.

End Graph.

Lemma in_degrees_facts wf :
  let G := build_dependency_graph wf in
  let D := Kahn.in_degrees wf in
  NoDup (Py.keys D)
  /\ incl (Py.keys G) (Py.keys D)
  /\ (forall v deps, In (v, deps) G ->
        Py.get_or D v 0 = Z.of_nat (List.length deps))
  /\ (known_dependencies wf -> (List.length D <= List.length (tasks wf))%nat).
Proof.
  intros G D.
  destruct (zeros_fold (tasks wf) [] (NoDup_nil _) (fun _ => eq_refl))
    as [Z1 [Z2 [Z3 Z4]]].
  destruct (degrees_fold G _ Z1 (graph_NoDup wf)) as [A [B [C E]]].
  fold (zero_degrees wf) in *.
  assert (forall v deps, In (v, deps) G -> In v (Py.keys (zero_degrees wf)))
    as HG.
  { intros v deps Hin. apply graph_from_task in Hin as [t [Ht [<- _]]].
    apply Z3. right. now apply in_map. }
  split; [exact A|]. split; [|split].
  - intros v Hv. apply in_map_iff in Hv as [[v' deps] [<- Hin]].
    apply B. exact (HG _ _ Hin).
  - intros v deps Hin. unfold D, Kahn.in_degrees. fold G. fold (zero_degrees wf).
    rewrite (C v deps Hin), Z2. lia.
  - intros Hknown.
    assert (Py.keys D = Py.keys (zero_degrees wf)) as Hk.
    { apply E. intros v deps Hin. split; [exact (HG _ _ Hin)|].
      apply graph_from_task in Hin as [t [Ht [_ <-]]].
      intros dep Hdep. apply Z3. right. exact (Hknown t dep Ht Hdep). }
    apply (f_equal (@List.length _)) in Hk. unfold Py.keys in Hk.
    rewrite !length_map in Hk. simpl in Z4. lia.
Qed.

Lemma initial_queue_inv (D : Py.dict Z) :
  NoDup (Py.keys D) ->
  queue_inv (Py.keys D) D (Kahn.initial_queue D) [].
Proof.
  intros HD. unfold Kahn.initial_queue. constructor; simpl.
  - now apply NoDup_keys_filter.
  - intros v Hv. apply in_map_iff in Hv as [[v' z] [<- Hin]].
    apply filter_In in Hin as [Hin Hz]. simpl in *. apply Z.eqb_eq in Hz.
    unfold Py.get_or. rewrite (In_get _ _ _ HD Hin). lia.
  - intros v Hv. apply in_map_iff in Hv as [x [<- Hin]].
    apply filter_In in Hin as [Hin _]. now apply in_map.
Qed.

(** The [while] loop of [topological_sort] always ends within the fuel
    it is given. *)
Lemma topological_sort_total (m : StateManager) :
  exists r, topological_sort m = Some r.
Proof.
  unfold topological_sort.
  destruct (in_degrees_facts (workflow m)) as [HD [HG _]].
  destruct (loop_total (build_dependency_graph (workflow m))
              (graph_NoDup (workflow m)) (Py.keys (Kahn.in_degrees (workflow m)))
              HG (fun _ _ _ => True) (fun _ _ _ _ _ _ _ _ _ => I)
              (S (List.length (Kahn.in_degrees (workflow m))))
              (Kahn.in_degrees (workflow m))
              (Kahn.initial_queue (Kahn.in_degrees (workflow m))) [])
    as [res [d' [E _]]].
  - now apply initial_queue_inv.
  - exact I.
  - unfold Py.keys. rewrite length_map. simpl. lia.
  - rewrite E. destruct (Nat.eqb _ _); eauto.
Qed.

Section Cycle.

Variable wf : WorkflowDefinition.
Hypothesis known : known_dependencies wf.

Lemma on_cycle_successor v :
  on_cycle wf v -> exists deps u, In (v, deps) (build_dependency_graph wf) /\ In u deps /\ on_cycle wf u.
Proof.
  unfold on_cycle in *. intros H. apply clos_trans_t1n in H.
  inversion H as [y [deps [Hin Hu]]|y z [deps [Hin Hu]] Hrest]; subst.
  - exists deps, v. repeat split; auto. apply t_step. exists deps. auto.
  - exists deps, y. repeat split; auto.
    apply clos_t1n_trans in Hrest.
    eapply t_trans; [exact Hrest|]. apply t_step. exists deps. auto.
Qed.

Lemma cycle_inv_step K d tid q result d' q' :
  queue_inv K d (tid :: q) result -> cycle_inv wf d (tid :: q) result ->
  fold_left (Kahn.relax tid) (build_dependency_graph wf) (d, q) = (d', q') ->
  cycle_inv wf d' q' (result ++ [tid]).
Proof.
  intros Hinv [HJ1 HJ2] E.
  destruct (relax_fold tid (build_dependency_graph wf) (graph_NoDup wf) d q) as [d1 [E1 Hd1]].
  rewrite E1 in E. injection E as <- <-.
  destruct Hinv as [Hnd Hdone _].
  split.
  - intros v deps Hin. rewrite Hd1, (HJ1 v deps Hin).
    rewrite (hit_spec tid (build_dependency_graph wf) v deps (graph_NoDup wf) Hin).
    rewrite filter_app, length_app. simpl.
    destruct (Py.mem tid deps); simpl; lia.
  - intros v Hv Hin. rewrite <- app_assoc in Hin. simpl in Hin.
    rewrite app_comm_cons, app_assoc in Hin.
    apply in_app_iff in Hin as [Hin|Hin]; [exact (HJ2 v Hv Hin)|].
    apply pushed_In in Hin as [deps [Hin [Hm Hz]]].
    destruct (on_cycle_successor v Hv) as [deps' [u [Hin' [Hu Hcu]]]].
    assert (deps' = deps) as ->.
    { pose proof (In_get _ _ _ (graph_NoDup wf) Hin) as H1.
      pose proof (In_get _ _ _ (graph_NoDup wf) Hin') as H2.
      congruence. }
    rewrite (HJ1 v deps Hin) in Hz.
    apply mem_In in Hm.
    set (F := filter (fun x => Py.mem x deps) result) in *.
    assert (NoDup (tid :: u :: F)) as HF.
    { assert (~ In tid result) as Ht.
      { intros H. apply NoDup_remove_2 in Hnd. apply Hnd.
        apply in_app_iff. now left. }
      assert (~ In u result) as Hur.
      { intros H. apply (HJ2 u Hcu). apply in_app_iff. now left. }
      assert (u <> tid) as Hne.
      { intros ->. apply (HJ2 tid Hcu). apply in_app_iff. right. now left. }
      constructor.
      - intros [H|H]; [congruence|]. apply filter_In in H. tauto.
      - constructor.
        + intros H. apply filter_In in H. tauto.
        + apply NoDup_filter. now apply NoDup_app_remove_r in Hnd. }
    assert (incl (tid :: u :: F) deps) as Hincl.
    { intros x [<-|[<-|Hx]]; auto.
      apply filter_In in Hx as [_ Hx]. now apply mem_In. }
    pose proof (NoDup_incl_length HF Hincl) as Hlen. simpl in Hlen. lia.
Qed.

Hypothesis cyclic : has_cycle wf.

Lemma topological_sort_cycle (s : WorkflowState) :
  topological_sort (mkSM wf s) = Some (inl cycle_message).
Proof.
  unfold topological_sort. simpl workflow.
  destruct (in_degrees_facts wf) as [HD [HG [Hdeg Hlen]]].
  destruct (loop_total (build_dependency_graph wf) (graph_NoDup wf) (Py.keys (Kahn.in_degrees wf)) HG
              (cycle_inv wf) (cycle_inv_step _) (S (List.length (Kahn.in_degrees wf)))
              (Kahn.in_degrees wf) (Kahn.initial_queue (Kahn.in_degrees wf)) [])
    as [res [d' [E [[Hnd _ HK] [_ HJ2]]]]].
  - now apply initial_queue_inv.
  - split.
    + intros v deps Hin. simpl. rewrite (Hdeg v deps Hin). lia.
    + intros v Hv Hin. simpl in Hin.
      apply in_map_iff in Hin as [[v' z] [Hv' Hin]]. simpl in Hv'. subst v'.
      apply filter_In in Hin as [Hin Hz]. simpl in Hz. apply Z.eqb_eq in Hz.
      subst z.
      destruct (on_cycle_successor v Hv) as [deps [u [Hin' [Hu _]]]].
      pose proof (Hdeg v deps Hin') as Hd.
      unfold Py.get_or in Hd. rewrite (In_get _ _ _ HD Hin) in Hd.
      destruct deps; [destruct Hu | simpl in Hd; lia].
  - unfold Py.keys. rewrite length_map. simpl. lia.
  - rewrite E.
    destruct cyclic as [a Ha].
    destruct (on_cycle_successor a Ha) as [deps [_ [Hin _]]].
    assert (In a (Py.keys (Kahn.in_degrees wf))) as HaK.
    { apply HG. change a with (fst (a, deps)). now apply in_map. }
    rewrite app_nil_r in *.
    assert (NoDup (a :: res)) as Hnd'.
    { constructor; [|exact Hnd]. intros H. exact (HJ2 a Ha H). }
    assert (incl (a :: res) (Py.keys (Kahn.in_degrees wf))) as Hincl.
    { intros x [<-|Hx]; auto. }
    pose proof (NoDup_incl_length Hnd' Hincl) as Hl. simpl in Hl.
    unfold Py.keys in Hl. rewrite length_map in Hl.
    specialize (Hlen known).
    replace (Nat.eqb (List.length res) (List.length (tasks wf))) with false;
      [reflexivity|].
    symmetry. apply Nat.eqb_neq. lia.
Qed.

End Cycle.

(** ** DAG executor: the cycle path *)

Section CyclePath.

Variable now_at : nat -> Z.

(** Marking every task failed: nothing is invoked, and every id ends in
    [failed_tasks]. *)
Lemma fail_all e ts : forall w,
  exists w',
    for_each ts (fun t => fail_task_m now_at (id t) e) w = Some (tt, w')
    /\ calls w' = calls w
    /\ workflow (sm w') = workflow (sm w)
    /\ wstatus (state (sm w')) = wstatus (state (sm w))
    /\ (forall x, In x (failed_tasks (state (sm w')))
                  <-> In x (failed_tasks (state (sm w))) \/ In x (map id ts)).
Proof.
  induction ts as [|t ts IH]; intros w.
  - exists w. simpl. repeat split; auto. tauto.
  - cbn [for_each]. unfold bind at 1.
    rewrite fail_task_m_run. cbn beta iota.
    match goal with
    | |- context [for_each ts _ ?w1] =>
        destruct (IH w1) as [w' [E [Hc [Hw [Hs Hf]]]]]
    end.
    exists w'. split; [exact E|]. simpl in *.
    repeat split; auto.
    + intros Hx. apply Hf in Hx as [Hx|Hx]; [|tauto].
      apply add_In in Hx. intuition.
    + intros Hx. apply Hf. rewrite add_In. intuition.
Qed.

End CyclePath.

(** C3 (as amended): for a workflow whose dependency graph has a cycle
    and whose [depends_on] ids all name tasks of the workflow, the DAG
    strategy terminates without invoking the agent, every task id ends
    in [failed_tasks], and the workflow status is [failed] when
    [continue_on_failure] is false and [completed] when it is true. *)
Theorem dag_cycle_fails_workflow
    (now_at : nat -> Z)
    (agent_run : nat -> TaskDefinition -> string -> WorkflowState
                 -> string + string)
    (wait_first_completed : list TaskDefinition -> M (list TaskDefinition))
    (wait_all : list TaskDefinition -> M unit)
    (fuel : nat) (wf : WorkflowDefinition) (w : World) :
  execution_strategy wf = DAG ->
  known_dependencies wf ->
  has_cycle wf ->
  exists w',
    execute_workflow now_at agent_run wait_first_completed wait_all fuel wf
      false w = Some (tt, w')
    /\ calls w' = calls w
    /\ (forall t, In t (tasks wf) -> In (id t) (failed_tasks (state (sm w'))))
    /\ wstatus (state (sm w'))
       = if continue_on_failure wf then WfCompleted else WfFailed.
Proof.
  intros Hdag Hknown Hcyc.
  unfold execute_workflow. rewrite Hdag. cbn [create_executor].
  unfold DAGExecutor_execute, get_world, now, on_sm, bind. cbn beta iota.
  unfold start_workflow, with_state, StateManager_init.
  cbn [sm router clock calls trace workflow state].
  rewrite (topological_sort_cycle wf Hknown Hcyc).
  match goal with
  | |- context [for_each (tasks ?wf0) _ ?w1] =>
      change (tasks wf0) with (tasks wf);
      destruct (fail_all now_at cycle_message (tasks wf) w1)
        as [w1' [E [Hc [Hw [Hs Hf]]]]]
  end.
  rewrite E.
  destruct (finish_workflow_returned now_at wf w1' w1')
    as [w' [E' [Hf' [_ [_ Hs']]]]].
  exists w'. split; [exact E'|].
  split; [|split].
  - unfold finish_workflow in E'.
    destruct (has_failed_tasks (sm w1') && negb (continue_on_failure wf));
      injection E' as <-; exact Hc.
  - intros t Ht. rewrite Hf'. apply Hf. right. now apply in_map.
  - rewrite Hs'.
    assert (has_failed_tasks (sm w1') = true) as ->.
    { apply has_failed_tasks_spec.
      destruct Hcyc as [a Ha].
      destruct (on_cycle_successor wf a Ha) as [deps [_ [Hin _]]].
      apply graph_from_task in Hin as [t [Ht _]].
      intros Hnil.
      assert (In (id t) (failed_tasks (state (sm w1')))) as Hin
          by (apply Hf; right; now apply in_map).
      rewrite Hnil in Hin. exact Hin. }
    now destruct (continue_on_failure wf).
Qed.

Lemma two_cycle_has_cycle cof : has_cycle (Samples.two_cycle cof).
Proof.
  exists "task1". apply t_trans with "task2"; apply t_step.
  - exists ["task2"]. simpl. tauto.
  - exists ["task1"]. simpl. tauto.
Qed.

Lemma two_cycle_known cof : known_dependencies (Samples.two_cycle cof).
Proof.
  intros t dep [<-|[<-|[]]] [<-|[]]; simpl; tauto.
Qed.

Lemma dag_cycle_fails_workflow_witness :
  exists w',
    execute_workflow Stub.clock_ticks Stub.echo
      (run_first Stub.clock_ticks Stub.echo) (run_all Stub.clock_ticks Stub.echo)
      4 (Samples.two_cycle false) false (fresh_world (Samples.two_cycle false))
    = Some (tt, w')
    /\ calls w' = 0%nat
    /\ wstatus (state (sm w')) = WfFailed.
Proof.
  destruct (dag_cycle_fails_workflow Stub.clock_ticks Stub.echo
              (run_first Stub.clock_ticks Stub.echo)
              (run_all Stub.clock_ticks Stub.echo)
              4 (Samples.two_cycle false)
              (fresh_world (Samples.two_cycle false))
              eq_refl (two_cycle_known false) (two_cycle_has_cycle false))
    as [w' [E [Hc [_ Hs]]]].
  exists w'. repeat split; assumption.
Defined.

(** C3 (as stated) fails.  On the two-task cycle no [TaskResult] is
    written at all; with [continue_on_failure] the same workflow ends
    [completed]; and a cycle next to a task with two unknown dependencies
    is not detected, so that nothing fails and nothing runs. *)
Lemma dag_cycle_counterexample :
  (exists s,
     final_state (Stub.run Stub.echo (Samples.two_cycle false)
                    (fresh_world (Samples.two_cycle false))) = Some s
     /\ wstatus s = WfFailed
     /\ task_results s = []
     /\ Py.get (task_results s) "task1" = None)
  /\ (exists s,
        final_state (Stub.run Stub.echo (Samples.two_cycle true)
                       (fresh_world (Samples.two_cycle true))) = Some s
        /\ wstatus s = WfCompleted)
  /\ (has_cycle Samples.masked_cycle
      /\ topological_sort (StateManager_init Samples.masked_cycle)
         = Some (inr ["X"; "Y"; "C"])
      /\ exists s,
           final_state (Stub.run Stub.echo Samples.masked_cycle
                          (fresh_world Samples.masked_cycle)) = Some s
           /\ wstatus s = WfCompleted
           /\ failed_tasks s = []
           /\ task_results s = []).
Proof.
  split; [|split; [|split; [|split]]].
  - eexists. split; [vm_compute; reflexivity|]. vm_compute. repeat split.
  - eexists. split; [vm_compute; reflexivity|]. reflexivity.
  - exists "A". apply t_trans with "B"; apply t_step.
    + exists ["B"]. simpl. tauto.
    + exists ["A"]. simpl. tauto.
  - vm_compute. reflexivity.
  - eexists. split; [vm_compute; reflexivity|]. vm_compute. repeat split.
Qed.

(** ** State store: the four membership lists *)

(** C4 at its failing inputs.  After the cycle path of the DAG executor
    every task id is both pending and failed; the state store alone
    shows the same after one [fail_task] on a task that was never
    started; and [retry_task] on a running task, as the driver calls it,
    leaves the id both current and pending. *)
Theorem membership_lists_overlap :
  (exists s,
     final_state (Stub.run Stub.echo (Samples.two_cycle false)
                    (fresh_world (Samples.two_cycle false))) = Some s
     /\ In "task1" (pending_tasks s) /\ In "task1" (failed_tasks s)
     /\ In "task2" (pending_tasks s) /\ In "task2" (failed_tasks s))
  /\ (let m := fail_task 1 "task1" cycle_message
                 (StateManager_init (Samples.two_cycle false)) in
      In "task1" (pending_tasks (state m))
      /\ In "task1" (failed_tasks (state m)))
  /\ (let m := retry_task "task1"
                 (start_task 1 "task1"
                    (StateManager_init (Samples.two_cycle false))) in
      In "task1" (current_tasks (state m))
      /\ In "task1" (pending_tasks (state m))).
Proof.
  split; [|split].
  - eexists. split; [vm_compute; reflexivity|]. simpl. tauto.
  - simpl. tauto.
  - simpl. tauto.
Qed.

(** ** Cache key *)

Lemma string_compare_lt_trans a : forall b c,
  String.compare a b = Lt -> String.compare b c = Lt -> String.compare a c = Lt.
Proof.
  induction a as [|x a IH]; intros [|y b] [|z c]; simpl; try discriminate; auto.
  destruct (Ascii.compare x y) eqn:Exy; try discriminate.
  - apply Ascii.compare_eq_iff in Exy. subst y.
    destruct (Ascii.compare x z); try discriminate; auto. apply IH.
  - intros _. destruct (Ascii.compare y z) eqn:Eyz; try discriminate.
    + apply Ascii.compare_eq_iff in Eyz. subst z. now rewrite Exy.
    + intros _. unfold Ascii.compare in *.
      rewrite N.compare_lt_iff in *.
      replace (N.compare (N_of_ascii x) (N_of_ascii z)) with Lt; [reflexivity|].
      symmetry. apply N.compare_lt_iff. lia.
Qed.

Lemma string_leb_trans a b c :
  String.leb a b = true -> String.leb b c = true -> String.leb a c = true.
Proof.
  unfold String.leb.
  destruct (String.compare a b) eqn:Eab; try discriminate;
    destruct (String.compare b c) eqn:Ebc; try discriminate; intros _ _.
  - apply String.compare_eq_iff in Eab. subst. now rewrite Ebc.
  - apply String.compare_eq_iff in Eab. subst. now rewrite Ebc.
  - apply String.compare_eq_iff in Ebc. subst. now rewrite Eab.
  - now rewrite (string_compare_lt_trans a b c Eab Ebc).
Qed.

Section SortItems.

Context {V : Type}.

Lemma insert_item_comm (x y : string * V) l :
  fst x <> fst y ->
  Json.insert_item x (Json.insert_item y l)
  = Json.insert_item y (Json.insert_item x l).
Proof.
  intros Hne. induction l as [|z l IH]; simpl.
  - destruct (String.leb (fst x) (fst y)) eqn:Exy,
             (String.leb (fst y) (fst x)) eqn:Eyx; try reflexivity.
    + elim Hne. now apply String.leb_antisym.
    + destruct (String.leb_total (fst x) (fst y)); congruence.
  - destruct (String.leb (fst y) (fst z)) eqn:Eyz,
             (String.leb (fst x) (fst z)) eqn:Exz; simpl;
      rewrite ?Eyz, ?Exz.
    + destruct (String.leb (fst x) (fst y)) eqn:Exy,
               (String.leb (fst y) (fst x)) eqn:Eyx; try reflexivity.
      * elim Hne. now apply String.leb_antisym.
      * destruct (String.leb_total (fst x) (fst y)); congruence.
    + destruct (String.leb (fst x) (fst y)) eqn:Exy; [|reflexivity].
      rewrite (string_leb_trans _ _ _ Exy Eyz) in Exz. discriminate.
    + destruct (String.leb (fst y) (fst x)) eqn:Eyx; [|reflexivity].
      rewrite (string_leb_trans _ _ _ Eyx Exz) in Eyz. discriminate.
    + now rewrite IH.
Qed.

(** Sorting forgets the insertion order of a dictionary. *)
Lemma sort_items_perm (l1 l2 : list (string * V)) :
  Permutation l1 l2 -> NoDup (map fst l1) ->
  Json.sort_items l1 = Json.sort_items l2.
Proof.
  induction 1 as [|x l l' Hp IH|x y l|l l' l'' Hp1 IH1 Hp2 IH2]; intros Hnd.
  - reflexivity.
  - simpl. f_equal. apply IH. now inversion Hnd.
  - simpl. apply insert_item_comm.
    inversion Hnd as [|? ? Hy _]; subst. simpl in Hy. intuition.
  - rewrite IH1 by assumption. apply IH2.
    eapply Permutation_NoDup; [|exact Hnd]. now apply Permutation_map.
Qed.

End SortItems.

Lemma dumps_dict_perm (p1 p2 : Py.dict json) :
  Permutation p1 p2 -> NoDup (Py.keys p1) ->
  Json.dumps (JDict p1) = Json.dumps (JDict p2).
Proof.
  intros Hp Hnd. cbn [Json.dumps].
  rewrite (sort_items_perm
             (map (fun kv => (fst kv, Json.dumps (snd kv))) p1)
             (map (fun kv => (fst kv, Json.dumps (snd kv))) p2)).
  - reflexivity.
  - now apply Permutation_map.
  - rewrite map_map. exact Hnd.
Qed.

Lemma key_json_parameter_order t p deps inc :
  Permutation (parameters t) p -> NoDup (Py.keys (parameters t)) ->
  key_json (with_parameters t p) deps inc = key_json t deps inc.
Proof.
  intros Hp Hnd. pose proof (dumps_dict_perm _ _ Hp Hnd) as Hd.
  unfold key_json, key_components.
  destruct (inc && nonempty_dict deps);
    cbn [with_parameters id description depends_on required_capabilities
         required_skills parameters Py.set String.eqb Ascii.eqb Bool.eqb];
    cbn [Json.dumps map fst snd] in *; rewrite Hd; reflexivity.
Qed.

(** C8: [CacheKey.generate] is a function of its arguments; two tasks
    that differ only in the order of the keys of [parameters] get the
    same key; and with [include_dependencies] false the key does not
    depend on [dependency_results]. *)
Theorem generate_deterministic (sha256_hex : string -> string)
    (t : TaskDefinition) (p : Py.dict json)
    (deps deps' : option (Py.dict TaskResult)) (inc : bool) :
  Permutation (parameters t) p -> NoDup (Py.keys (parameters t)) ->
  generate sha256_hex (with_parameters t p) deps inc
  = generate sha256_hex t deps inc
  /\ generate sha256_hex t deps false = generate sha256_hex t deps' false
  /\ key_json t deps false = key_json t None false.
Proof.
  intros Hp Hnd. unfold generate. split; [|split].
  - now rewrite key_json_parameter_order.
  - reflexivity.
  - reflexivity.
Qed.

Lemma generate_deterministic_witness :
  let t := mkTask "t" "d" ["a"] [GENERAL] [] 5 default_retry
                  [("b", JInt 2); ("a", JStr "x")] None None None in
  generate stub_digest (with_parameters t [("a", JStr "x"); ("b", JInt 2)])
           None true
  = generate stub_digest t None true.
Proof.
  intros t.
  apply (generate_deterministic stub_digest t
           [("a", JStr "x"); ("b", JInt 2)] None None true).
  - apply perm_swap.
  - repeat constructor; simpl; intuition discriminate.
Defined.

Example key_json_sample :
  key_json (mkTask "t" "d" ["a"] [GENERAL] ["s"] 5 default_retry
                   [("b", JInt 2); ("a", JBool true)] None None None)
           None false
  = String.concat Json.quote
      ["{"; "description"; ": "; "d"; ", "; "parameters"; ": {"; "a";
       ": true, "; "b"; ": 2}, "; "required_capabilities"; ": [";
       "AgentCapability.GENERAL"; "], "; "required_skills"; ": ["; "s";
       "], "; "task_id"; ": "; "t"; "}"].
Proof. reflexivity. Qed.

(** ** Cache: dependents are never invalidated *)

Lemma length_substring_prefix n : forall s,
  String.length (String.substring 0 n s) = Nat.min n (String.length s).
Proof.
  induction n as [|n IH]; intros [|c s]; simpl; auto.
Qed.

Lemma del_In_inv {V} (d : Py.dict V) k kv :
  In kv (Py.del d k) -> In kv d.
Proof.
  induction d as [|[k0 v0] d IH]; simpl; [tauto|].
  destruct (String.eqb k k0); simpl; intuition.
Qed.

Lemma filter_none {A} (f : A -> bool) l :
  (forall x, In x l -> f x = false) -> filter f l = [].
Proof.
  induction l as [|x l IH]; simpl; [reflexivity|].
  intros H. rewrite (H x (or_introl eq_refl)). apply IH. auto.
Qed.

Section Dependents.

Variable sha256_hex : string -> string.
Hypothesis hexdigest_length :
  forall s, String.length (sha256_hex s) = 64%nat.

Lemma dependent_key_length tid :
  String.length (dependent_key sha256_hex tid) = 16%nat.
Proof.
  unfold dependent_key. now rewrite length_substring_prefix, hexdigest_length.
Qed.

Lemma evict_lru_full c :
  full_dependency_keys c -> full_dependency_keys (evict_lru c).
Proof.
  unfold evict_lru. destruct (lru_key (memory_cache c)); [|auto].
  intros H k e Hin. apply (H k e). eapply del_In_inv, Hin.
Qed.

Lemma store_in_memory_full now k r dks c :
  (forall dk, In dk dks -> String.length dk = 64%nat) ->
  full_dependency_keys c ->
  full_dependency_keys (store_in_memory now k r dks c).
Proof.
  intros Hdks Hc. unfold store_in_memory.
  set (c1 := if Nat.leb _ _ then evict_lru c else c).
  assert (full_dependency_keys c1) as Hc1.
  { unfold c1. destruct (Nat.leb _ _); [now apply evict_lru_full | exact Hc]. }
  intros k' e Hin. simpl in Hin.
  apply set_In_inv in Hin as [Hin|Hin].
  - injection Hin as _ ->. exact Hdks.
  - exact (Hc1 k' e Hin).
Qed.

Lemma dep_keys_of_full t deps c dk :
  In dk (dep_keys_of sha256_hex t deps c) -> String.length dk = 64%nat.
Proof.
  unfold dep_keys_of.
  destruct (include_dependencies (config c) && nonempty_dict deps); [|intros []].
  intros Hin. apply in_flat_map in Hin as [dep [_ Hin]].
  destruct (Py.has _ dep); [|destruct Hin].
  destruct Hin as [<-|[]]. apply hexdigest_length.
Qed.

(** [put] and [get] keep the dependency keys full digests. *)
Lemma cache_put_full now t r deps c :
  full_dependency_keys c ->
  full_dependency_keys (cache_put sha256_hex now t r deps c).
Proof.
  intros Hc. unfold cache_put.
  destruct (strategy (config c)) eqn:Es; [exact Hc| | |];
    unfold uses_memory, uses_disk, save_to_disk; rewrite Es;
    try (destruct (cache_dir _));
    try exact Hc;
    try (apply store_in_memory_full; [apply dep_keys_of_full | exact Hc]).
  all: intros k e Hin; simpl in Hin;
    exact (store_in_memory_full now _ r _ c
             (dep_keys_of_full t deps c) Hc k e Hin).
Qed.

(** No entry whose dependency keys are full digests is ever selected. *)
Lemma invalidate_dependents_none tid c :
  full_dependency_keys c ->
  fst (invalidate_dependents sha256_hex tid c) = 0
  /\ memory_cache (snd (invalidate_dependents sha256_hex tid c))
     = memory_cache c.
Proof.
  intros Hc. unfold invalidate_dependents.
  replace (filter _ (memory_cache c)) with (@nil (string * CacheEntry)).
  - simpl. auto.
  - symmetry. apply filter_none. intros [k e] Hin. simpl.
    apply mem_false. intros Hmem.
    pose proof (Hc k e Hin _ Hmem) as Hlen.
    rewrite dependent_key_length in Hlen. discriminate.
Qed.

End Dependents.

(** C5 at its inputs: with a digest of 64 hex characters, the entry that
    [put] stored for a task with a dependency [D] present in [deps]
    lists the key of [D] among its dependency keys, and yet
    [invalidate_dependents(D)] returns 0 and leaves the memory tier as it
    was: it looks for the first 16 characters of another digest. *)
Theorem invalidate_dependents_misses
    (sha256_hex : string -> string) (now : Z) (t : TaskDefinition)
    (r : TaskResult) (deps : Py.dict TaskResult) (dep : string)
    (c : ResultCache) :
  (forall s, String.length (sha256_hex s) = 64%nat) ->
  full_dependency_keys c ->
  uses_memory c = true ->
  include_dependencies (config c) = true ->
  In dep (depends_on t) ->
  Py.has deps dep = true ->
  let c' := cache_put sha256_hex now t r (Some deps) c in
  let k := generate sha256_hex t (Some deps) true in
  (exists e, Py.get (memory_cache c') k = Some e
             /\ result e = r
             /\ In (generate sha256_hex (task_default dep "") None false)
                   (dependency_keys e))
  /\ fst (invalidate_dependents sha256_hex dep c') = 0
  /\ memory_cache (snd (invalidate_dependents sha256_hex dep c'))
     = memory_cache c'.
Proof.
  intros Hlen Hc Hmem Hinc Hdep Hhas c' k.
  split.
  - unfold c', k, cache_put. unfold uses_memory in Hmem.
    assert (nonempty_dict (Some deps) = true) as Hne.
    { destruct deps; [discriminate Hhas | reflexivity]. }
    assert (In (generate sha256_hex (task_default dep "") None false)
               (dep_keys_of sha256_hex t (Some deps) c)) as Hdk.
    { unfold dep_keys_of. rewrite Hinc, Hne. simpl.
      apply in_flat_map. exists dep. split; [exact Hdep|].
      rewrite Hhas. now left. }
    destruct (strategy (config c)) eqn:Es; try discriminate Hmem;
      unfold uses_memory, uses_disk, save_to_disk; rewrite Es, Hinc;
      try (destruct (cache_dir _)); simpl;
      eexists; (split; [apply get_set_same|]); simpl; auto.
  - apply invalidate_dependents_none; [exact Hlen|].
    now apply cache_put_full.
Qed.

Lemma invalidate_dependents_misses_witness :
  let cache := ResultCache_init (mkCacheConfig MEMORY None 1000 false true) in
  let t2 := mkTask "task2" "Depends on task1" ["task1"] [GENERAL] [] 5
                   default_retry [] None None None in
  let r1 := mkResult "task1" COMPLETED (Some "output1") None None None None 0
                     None in
  let r2 := mkResult "task2" COMPLETED (Some "result based on output1") None
                     None None None 0 None in
  let c' := cache_put stub_digest 0 t2 r2 (Some [("task1", r1)]) cache in
  fst (invalidate_dependents stub_digest "task1" c') = 0
  /\ List.length (memory_cache (snd (invalidate_dependents stub_digest "task1" c')))
     = 1%nat.
Proof.
  intros cache t2 r1 r2 c'.
  destruct (invalidate_dependents_misses stub_digest 0 t2 r2
              [("task1", r1)] "task1" cache)
    as [_ [H0 _]].
  - intros s. reflexivity.
  - intros k e [].
  - reflexivity.
  - reflexivity.
  - now left.
  - reflexivity.
  - split; [exact H0 | reflexivity].
Defined.

(** *** Where the lists do stay disjoint *)

Lemma count_remove x y l :
  count_occ string_dec (Py.remove x l) y
  = if String.eqb x y then pred (count_occ string_dec l y)
    else count_occ string_dec l y.
Proof.
  induction l as [|z l IH]; simpl.
  - now destruct (String.eqb x y).
  - destruct (String.eqb_spec x z) as [->|Hxz].
    + destruct (string_dec z y) as [->|Hzy].
      * now rewrite String.eqb_refl.
      * destruct (String.eqb_spec z y); congruence.
    + simpl. rewrite IH.
      destruct (string_dec z y) as [->|Hzy]; [|reflexivity].
      destruct (String.eqb_spec x y); congruence.
Qed.

Lemma count_discard x y l :
  count_occ string_dec (Py.discard x l) y
  = if String.eqb x y then pred (count_occ string_dec l y)
    else count_occ string_dec l y.
Proof.
  unfold Py.discard. destruct (Py.mem x l) eqn:E; [apply count_remove|].
  destruct (String.eqb_spec x y) as [->|]; [|reflexivity].
  apply mem_false in E.
  now rewrite (proj1 (count_occ_not_In string_dec l y) E).
Qed.

Lemma count_add x y l :
  count_occ string_dec (Py.add x l) y
  = if String.eqb x y then Nat.max 1 (count_occ string_dec l y)
    else count_occ string_dec l y.
Proof.
  unfold Py.add. destruct (Py.mem x l) eqn:E.
  - destruct (String.eqb_spec x y) as [->|]; [|reflexivity].
    apply mem_In in E. apply (count_occ_In string_dec) in E. lia.
  - rewrite count_occ_app. simpl. apply mem_false in E.
    destruct (string_dec x y) as [->|Hne].
    + rewrite String.eqb_refl.
      rewrite (proj1 (count_occ_not_In string_dec l y) E). reflexivity.
    + destruct (String.eqb_spec x y); [congruence | lia].
Qed.

Ltac count_lists :=
  unfold sets_disjoint in *; rewrite (NoDup_count_occ string_dec) in *;
  simpl;
  match goal with
  | H : forall x : string, (_ <= 1)%nat |- forall y : string, _ =>
      let y := fresh "y" in
      intros y; specialize (H y);
      rewrite !count_occ_app in *;
      rewrite ?count_discard, ?count_add
  end;
  match goal with
  | Hin : In ?tid _ |- context [String.eqb ?tid ?y] =>
      apply (count_occ_In string_dec) in Hin;
      destruct (String.eqb_spec tid y) as [->|_]; lia
  end.

(** Each transition keeps the four lists disjoint when the task sits in
    the list the transition takes it from. *)
Lemma guarded_transitions_disjoint (m : StateManager) (tid : string)
    (t1 t2 : Z) (out agent : option string) (msg : string) :
  sets_disjoint (state m) ->
  (In tid (pending_tasks (state m)) ->
   sets_disjoint (state (start_task t1 tid m)))
  /\ (In tid (current_tasks (state m)) ->
      sets_disjoint (state (complete_task t1 tid out agent m)))
  /\ (In tid (current_tasks (state m)) ->
      sets_disjoint (state (fail_task t1 tid msg m)))
  /\ (In tid (failed_tasks (state m)) ->
      sets_disjoint (state (retry_task tid m)))
  /\ (In tid (pending_tasks (state m)) ->
      sets_disjoint (state (skip_task t1 t2 tid msg m))).
Proof.
  intros H. repeat split; intros Hin; count_lists.
Qed.

(** *** Topological sort on the sample workflows *)

Example topo_chain :
  topological_sort (StateManager_init Samples.chain)
  = Some (inr ["A"; "B"; "C"]).
Proof. reflexivity. Qed.

Example topo_two_cycle :
  topological_sort (StateManager_init (Samples.two_cycle false))
  = Some (inl cycle_message).
Proof. reflexivity. Qed.

(** *** What the overlap leads to under the DAG executor

    A task that was retried is pending again when its driver returns.
    With fail-fast the executor then skips the task that failed and
    leaves its dependent pending; the result of [A] reads [skipped]. *)
Example dag_skips_the_failed_task :
  exists s ra,
    final_state (Stub.run Stub.boom (retried_chain false)
                   (fresh_world (retried_chain false))) = Some s
    /\ Py.get (task_results s) "A" = Some ra
    /\ status ra = SKIPPED
    /\ retry_count ra = 1
    /\ failed_tasks s = ["A"]
    /\ pending_tasks s = ["B"]
    /\ wstatus s = WfFailed.
Proof.
  do 2 eexists. split; [vm_compute; reflexivity|].
  vm_compute. repeat split.
Qed.

(** * Further properties of the code *)

(** ** Router: load counters *)

Lemma increment_then_decrement_restores_aux (r : TaskRouter) (a b : string) :
  0 <= get_agent_load r a ->
  get_agent_load (decrement_agent_load a (increment_agent_load a r)) b
  = get_agent_load r b.
Proof.
  intros Ha.
  unfold decrement_agent_load, increment_agent_load, get_agent_load in *.
  simpl. rewrite !get_or_set, String.eqb_refl.
  destruct (String.eqb_spec a b) as [->|_]; [lia | reflexivity].
Qed.

(** X1: releasing an executor right after assigning it restores its load
    counter, provided the counter was not negative, and no other counter
    moves. *)
Theorem increment_then_decrement_restores (r : TaskRouter) (a b : string) :
  0 <= get_agent_load r a ->
  get_agent_load (decrement_agent_load a (increment_agent_load a r)) b
  = get_agent_load r b.
Proof. apply increment_then_decrement_restores_aux. Qed.

Lemma increment_then_decrement_restores_witness :
  get_agent_load
    (decrement_agent_load "researcher"
       (increment_agent_load "researcher" (mkRouter create_default_routing [])))
    "researcher" = 0.
Proof.
  apply (increment_then_decrement_restores
           (mkRouter create_default_routing []) "researcher" "researcher").
  unfold get_agent_load, Py.get_or. simpl. lia.
Defined.

(** X2: load counters never become negative: a release stops at zero (an
    idle executor stays at zero), and both operations keep every counter
    non-negative. *)
Theorem loads_stay_nonneg (r : TaskRouter) (a : string) :
  0 <= get_agent_load (decrement_agent_load a r) a
  /\ (get_agent_load r a <= 0 ->
      get_agent_load (decrement_agent_load a r) a = 0)
  /\ (loads_nonneg r ->
      loads_nonneg (decrement_agent_load a r)
      /\ loads_nonneg (increment_agent_load a r)).
Proof.
  unfold loads_nonneg, decrement_agent_load, increment_agent_load,
    get_agent_load. simpl.
  split; [|split].
  - rewrite get_or_set, String.eqb_refl. lia.
  - intros H. rewrite get_or_set, String.eqb_refl. lia.
  - intros H. split; intros b; rewrite get_or_set;
      destruct (String.eqb a b); try apply H; specialize (H a); lia.
Qed.

Lemma loads_stay_nonneg_witness :
  loads_nonneg (decrement_agent_load "doc-writer"
                  (mkRouter create_default_routing [])).
Proof.
  apply (proj2 (proj2 (loads_stay_nonneg
                         (mkRouter create_default_routing []) "doc-writer"))).
  intros a. unfold get_agent_load, Py.get_or. simpl. lia.
Defined.

(** ** Strategy selector: what a recommendation implies *)

Lemma existsb_false_forall {A} (f : A -> bool) l :
  existsb f l = false <-> forall x, In x l -> f x = false.
Proof.
  induction l as [|y l IH]; simpl.
  - split; [intros _ x [] | reflexivity].
  - rewrite orb_false_iff, IH. split.
    + intros [Hy Hl] x [<-|Hx]; auto.
    + intros H. split; [apply H; now left | intros x Hx; apply H; now right].
Qed.

(** X3: the parallel strategy, which never looks at dependencies, is
    recommended only for at least two tasks none of which has a
    dependency or a condition; the sequential one only for at most one
    task; and whenever some task has a dependency the recommendation is
    dag or conditional. *)
Theorem recommendation_respects_dependencies (wf : WorkflowDefinition) :
  (recommend_strategy wf = PARALLEL ->
   (2 <= List.length (tasks wf))%nat
   /\ forall t, In t (tasks wf) -> depends_on t = [] /\ condition t = None)
  /\ (recommend_strategy wf = SEQUENTIAL -> (List.length (tasks wf) <= 1)%nat)
  /\ ((exists t, In t (tasks wf) /\ depends_on t <> []) ->
      recommend_strategy wf = DAG \/ recommend_strategy wf = CONDITIONAL).
Proof.
  unfold recommend_strategy, has_conditions, has_dependencies, task_count.
  destruct (tasks wf) as [|t0 ts] eqn:Et.
  - repeat split; try discriminate; simpl; try lia.
    intros [t [[] _]].
  - remember (t0 :: ts) as l eqn:El. clear El.
    destruct (existsb (fun t => match condition t with
                                | Some _ => true | None => false end) l) eqn:Ec;
      [repeat split; try discriminate; auto|].
    destruct (existsb (fun t => Nat.ltb 0 (List.length (depends_on t))) l) eqn:Ed;
      simpl.
    + repeat split; try discriminate; auto.
    + pose proof (proj1 (existsb_false_forall _ _) Ec) as Hc.
      pose proof (proj1 (existsb_false_forall _ _) Ed) as Hd.
      split; [|split].
      * destruct (Nat.ltb_spec 1 (List.length l)); [|discriminate].
        intros _. split; [lia|]. intros t Ht. split.
        -- specialize (Hd t Ht). cbn beta in Hd.
           destruct (depends_on t); [reflexivity|]. discriminate Hd.
        -- specialize (Hc t Ht). cbn beta in Hc.
           destruct (condition t); [discriminate|reflexivity].
      * destruct (Nat.ltb_spec 1 (List.length l)); [discriminate | lia].
      * intros [t [Ht Hne]]. specialize (Hd t Ht). cbn beta in Hd.
        destruct (depends_on t); [congruence | discriminate Hd].
Qed.

Lemma recommendation_respects_dependencies_witness :
  recommend_strategy Samples.chain = DAG
  \/ recommend_strategy Samples.chain = CONDITIONAL.
Proof.
  apply (proj2 (proj2 (recommendation_respects_dependencies Samples.chain))).
  exists (Samples.dep_task "C" ["B"]). split; [now left | discriminate].
Defined.

(** ** Driver: what one call does for any agent *)

Section DriverOutcomes.

Context {float_arith : FloatArith}.
Variable now_at : nat -> Z.
Variable agent_run :
  nat -> TaskDefinition -> string -> WorkflowState -> string + string.
Variable t : TaskDefinition.
Variable agent : string.

(** Whatever the agent does, the loop ends and releases the executor
    exactly once. *)
Lemma retry_loop_releases n : forall rc delay fuel w,
  (rc + n = max_retries (retry_config t))%nat -> (n < fuel)%nat ->
  exists w',
    retry_loop now_at agent_run fuel t agent rc delay w = Some (tt, w')
    /\ router w' = decrement_agent_load agent (router w).
Proof.
  induction n as [|n IH]; intros rc delay fuel w Hrc Hfuel;
    (destruct fuel as [|fuel]; [lia|]); cbn [retry_loop]; cbv zeta;
    (replace (Nat.leb rc (max_retries (retry_config t))) with true
      by (symmetry; apply Nat.leb_le; lia)).
  - replace (Nat.ltb rc (max_retries (retry_config t))) with false
      by (symmetry; apply Nat.ltb_ge; lia).
    unfold bind at 1, execute_single_task.
    destruct (agent_run (calls w) t agent (state (sm w))); stamp;
      eexists; (split; [reflexivity|]); reflexivity.
  - replace (Nat.ltb rc (max_retries (retry_config t))) with true
      by (symmetry; apply Nat.ltb_lt; lia).
    unfold bind at 1, execute_single_task.
    destruct (agent_run (calls w) t agent (state (sm w))).
    + stamp. eexists; (split; [reflexivity|]); reflexivity.
    + unfold retry_task_m, progress, emit, on_sm, bind. cbn beta iota.
      match goal with
      | |- context [retry_loop _ _ fuel t agent (S rc) ?d ?w1] =>
          destruct (IH (S rc) d fuel w1) as [w' [E Hr]]; [lia | lia |]
      end.
      exists w'. split; [exact E | exact Hr].
Qed.

Variable out : string.

(** The agent fails [j] times and then returns [out]. *)
Lemma retry_loop_succeeds j : forall rc delay fuel w r0,
  (rc + j <= max_retries (retry_config t))%nat -> (j < fuel)%nat ->
  Py.get (task_results (state (sm w))) (id t) = Some r0 ->
  (forall i a s, (i < j)%nat ->
     exists msg, agent_run (calls w + i) t a s = inr msg) ->
  (forall a s, agent_run (calls w + j) t a s = inl out) ->
  exists w' ev r,
    retry_loop now_at agent_run fuel t agent rc delay w = Some (tt, w')
    /\ calls w' = (calls w + S j)%nat
    /\ trace w' = trace w ++ ev
    /\ invocations ev = S j
    /\ retries ev = j
    /\ sleeps ev = backoff_from (retry_config t) delay j
    /\ Py.get (task_results (state (sm w'))) (id t) = Some r
    /\ status r = COMPLETED
    /\ output r = Some out
    /\ agent_used r = Some agent
    /\ retry_count r = retry_count r0 + Z.of_nat j
    /\ In (id t) (completed_tasks (state (sm w'))).
Proof.
  induction j as [|j IH]; intros rc delay fuel w r0 Hrc Hfuel Hr0 Hfail Hok;
    (destruct fuel as [|fuel]; [lia|]); cbn [retry_loop]; cbv zeta;
    (replace (Nat.leb rc (max_retries (retry_config t))) with true
      by (symmetry; apply Nat.leb_le; lia)).
  - unfold bind at 1, execute_single_task.
    specialize (Hok agent (state (sm w))).
    rewrite Nat.add_0_r in Hok. rewrite Hok.
    stamp. do 3 eexists. split; [reflexivity|]. simpl.
    rewrite Hr0, get_set_same, <- app_assoc. simpl.
    split; [lia|]. split; [reflexivity|].
    repeat split; simpl; try lia. apply add_In. now left.
  - replace (Nat.ltb rc (max_retries (retry_config t))) with true
      by (symmetry; apply Nat.ltb_lt; lia).
    unfold bind at 1, execute_single_task.
    destruct (Hfail 0%nat agent (state (sm w))) as [msg Hmsg]; [lia|].
    rewrite Nat.add_0_r in Hmsg. rewrite Hmsg.
    unfold retry_task_m, progress, emit, on_sm, bind. cbn beta iota.
    match goal with
    | |- context [retry_loop _ _ fuel t agent (S rc) ?d ?w1] =>
        destruct (IH (S rc) d fuel w1
                    (mkResult (task_id r0) RETRYING (output r0) (error r0)
                       (started_at r0) (completed_at r0) (duration_seconds r0)
                       (retry_count r0 + 1) (agent_used r0)))
          as [w' [ev [r [E [Hc [Ht [Hi [Hr [Hs [Hg [H1 [H2 [H3 [H4 H5]]]]]]]]]]]]]];
          [lia | lia | | | |]
    end.
    + simpl. rewrite Hr0. apply get_set_same.
    + intros i a s Hi. simpl.
      replace (S (calls w + i))%nat with (calls w + S i)%nat by lia.
      apply Hfail. lia.
    + intros a s. simpl.
      replace (S (calls w + j))%nat with (calls w + S j)%nat by lia.
      apply Hok.
    + exists w'. eexists. exists r. split; [exact E|].
      simpl in Hc, Ht, H4. rewrite <- !app_assoc in Ht. simpl in Ht.
      split; [lia|]. split; [exact Ht|].
      unfold invocations, retries, sleeps in *. simpl.
      rewrite Hi, Hr, Hs. repeat split; try assumption. lia.
Qed.

End DriverOutcomes.

(** X4: whatever the agent does, one call of the driver ends and leaves
    every load counter of the router as it found it (the executor it
    picked is assigned once and released once), provided no counter was
    negative. *)
Theorem execute_task_releases_executor
    (now_at : nat -> Z)
    (agent_run : nat -> TaskDefinition -> string -> WorkflowState
                 -> string + string)
    (t : TaskDefinition) (w : World) :
  loads_nonneg (router w) ->
  exists w',
    execute_task now_at agent_run t w = Some (tt, w')
    /\ agent_routing (router w') = agent_routing (router w)
    /\ forall a, get_agent_load (router w') a = get_agent_load (router w) a.
Proof.
  intros Hn.
  unfold execute_task, get_world, start_task_m, progress, emit, on_router,
    on_sm, now, bind. cbn beta iota.
  match goal with
  | |- context [retry_loop _ _ ?f t ?a 0%nat ?d ?w1] =>
      destruct (retry_loop_releases now_at agent_run t a
                  (max_retries (retry_config t)) 0%nat d f w1)
        as [w' [E Hr]]; [reflexivity | lia |]
  end.
  exists w'. split; [exact E|]. rewrite Hr. simpl.
  split; [reflexivity|]. intros a.
  apply increment_then_decrement_restores_aux. apply Hn.
Qed.

Lemma execute_task_releases_executor_witness :
  exists w',
    execute_task Stub.clock_ticks Stub.boom retry_twice
      (fresh_world (mkWorkflow "w" [retry_twice] SEQUENTIAL None 5 false))
    = Some (tt, w')
    /\ get_agent_load (router w') "code-analyzer" = 0.
Proof.
  destruct (execute_task_releases_executor Stub.clock_ticks Stub.boom
              retry_twice
              (fresh_world (mkWorkflow "w" [retry_twice] SEQUENTIAL None 5 false)))
    as [w' [E [_ Hl]]].
  - intros a. unfold get_agent_load, Py.get_or. simpl. lia.
  - exists w'. split; [exact E|]. rewrite Hl. reflexivity.
Defined.

(** X5: when the agent fails [j] times ([j <= max_retries]) and then
    returns [out], the driver invokes it [j + 1] times, calls
    [retry_task] [j] times, sleeps the first [j] backoff delays
    ([d_0 = initial_delay], [d_(k+1) = min(d_k * backoff_multiplier,
    max_delay)], with the product of the floats, whatever it rounds
    to), and leaves the task completed with output [out], the routed
    executor as [agent_used] and a retry count grown by [j]. *)
Theorem execute_task_succeeds_after_failures
    (float_arith : FloatArith)
    (now_at : nat -> Z)
    (agent_run : nat -> TaskDefinition -> string -> WorkflowState
                 -> string + string)
    (t : TaskDefinition) (w : World) (j : nat) (out : string) :
  (j <= max_retries (retry_config t))%nat ->
  (forall i a s, (i < j)%nat ->
     exists msg, agent_run (calls w + i)%nat t a s = inr msg) ->
  (forall a s, agent_run (calls w + j)%nat t a s = inl out) ->
  exists w' ev r,
    execute_task now_at agent_run t w = Some (tt, w')
    /\ trace w' = trace w ++ ev
    /\ invocations ev = S j
    /\ retries ev = j
    /\ sleeps ev = map (delay_at (retry_config t)) (seq 0 j)
    /\ Py.get (task_results (state (sm w'))) (id t) = Some r
    /\ status r = COMPLETED
    /\ output r = Some out
    /\ agent_used r = Some (route_task (router w) t)
    /\ retry_count r = retries_so_far w (id t) + Z.of_nat j
    /\ In (id t) (completed_tasks (state (sm w'))).
Proof.
  intros Hj Hfail Hok.
  unfold execute_task, get_world, start_task_m, progress, emit, on_router,
    on_sm, now, bind. cbn beta iota.
  set (r0 := match Py.get (task_results (state (sm w))) (id t) with
             | Some r => mkResult (task_id r) RUNNING (output r) (error r)
                           (Some (now_at (clock w))) (completed_at r)
                           (duration_seconds r) (retry_count r) (agent_used r)
             | None => mkResult (id t) RUNNING None None
                         (Some (now_at (clock w))) None None 0 None
             end).
  match goal with
  | |- context [retry_loop _ _ ?f t ?a 0%nat ?d ?w1] =>
      destruct (retry_loop_succeeds now_at agent_run t a out j 0%nat d f w1 r0)
        as [w' [ev [r [E [Hc [Ht [Hi [Hr [Hs [Hg [H1 [H2 [H3 [H4 H5]]]]]]]]]]]]]];
        [simpl; lia | lia | | exact Hfail | exact Hok |]
  end.
  - simpl. unfold r0.
    destruct (Py.get (task_results (state (sm w))) (id t)); apply get_set_same.
  - exists w'. eexists. exists r. split; [exact E|].
    simpl in Ht. rewrite <- app_assoc in Ht.
    split; [exact Ht|].
    unfold invocations, retries, sleeps in *. simpl.
    rewrite Hi, Hr, Hs.
    change (initial_delay (retry_config t)) with (delay_at (retry_config t) 0).
    rewrite backoff_from_delay_at.
    repeat split; try assumption.
    rewrite H4. unfold r0, retries_so_far.
    destruct (Py.get (task_results (state (sm w))) (id t)); reflexivity.
Qed.

Lemma execute_task_succeeds_after_failures_witness :
  exists w' r,
    execute_task Stub.clock_ticks flaky_agent retry_twice
      (fresh_world (mkWorkflow "w" [retry_twice] SEQUENTIAL None 5 false))
    = Some (tt, w')
    /\ invocations (trace w') = 3%nat
    /\ sleeps (trace w') = [1 # 1; 2 # 1]
    /\ Py.get (task_results (state (sm w'))) "A" = Some r
    /\ status r = COMPLETED /\ output r = Some "ok" /\ retry_count r = 2.
Proof.
  destruct (execute_task_succeeds_after_failures exact_products
              Stub.clock_ticks flaky_agent retry_twice
              (fresh_world (mkWorkflow "w" [retry_twice] SEQUENTIAL None 5 false))
              2 "ok")
    as [w' [ev [r [E [Ht [Hi [_ [Hs [Hg [H1 [H2 [_ [H4 _]]]]]]]]]]]]].
  - simpl. lia.
  - intros i a s Hi. exists "boom".
    destruct i as [|[|i]]; [reflexivity | reflexivity | lia].
  - intros a s. reflexivity.
  - exists w', r. simpl in Ht. rewrite Ht.
    repeat split; assumption.
Defined.

(** ** Executors and coordinator *)

(** X6: an empty workflow ends [completed] under every strategy (with or
    without automatic selection): no task result is written and the
    agent is never invoked.  The DAG loop needs one turn, and gathering
    no coroutine does nothing. *)
Theorem empty_workflow_completes
    (now_at : nat -> Z)
    (agent_run : nat -> TaskDefinition -> string -> WorkflowState
                 -> string + string)
    (wait_first_completed : list TaskDefinition -> M (list TaskDefinition))
    (wait_all : list TaskDefinition -> M unit)
    (fuel : nat) (wf : WorkflowDefinition) (auto_strategy : bool) (w : World) :
  tasks wf = [] ->
  (0 < fuel)%nat ->
  (forall w0, wait_all [] w0 = Some (tt, w0)) ->
  exists w',
    execute_workflow now_at agent_run wait_first_completed wait_all fuel wf
      auto_strategy w = Some (tt, w')
    /\ wstatus (state (sm w')) = WfCompleted
    /\ task_results (state (sm w')) = []
    /\ calls w' = calls w
    /\ router w' = router w.
Proof.
  intros Hts Hfuel Hwait.
  assert (forall s, topological_sort (mkSM wf s) = Some (inr [])) as Htopo.
  { intros s. unfold topological_sort, Kahn.in_degrees, build_dependency_graph.
    simpl. rewrite Hts. reflexivity. }
  unfold execute_workflow.
  set (strategy := if auto_strategy then auto_select_strategy wf
                   else execution_strategy wf).
  unfold get_world, now, on_sm, bind. cbn beta iota.
  unfold start_workflow, with_state, StateManager_init.
  cbn [sm router clock calls trace workflow state].
  rewrite Hts. cbn [map].
  destruct strategy; cbn [create_executor].
  - unfold SequentialExecutor_execute, get_world, bind. cbn beta iota.
    cbn [sm workflow]. rewrite Hts. cbn [for_each ret].
    eexists. split; [reflexivity|]. simpl. auto.
  - unfold ParallelExecutor_execute, get_world, bind. cbn beta iota.
    cbn [sm workflow]. rewrite Hts, Hwait.
    eexists. split; [reflexivity|]. simpl. auto.
  - unfold ConditionalExecutor_execute, get_world, bind. cbn beta iota.
    cbn [sm workflow]. rewrite Hts. cbn [for_each ret].
    eexists. split; [reflexivity|]. simpl. auto.
  - unfold DAGExecutor_execute, get_world, bind. cbn beta iota.
    cbn [sm]. rewrite Htopo.
    destruct fuel as [|fuel]; [lia|]. cbn [dag_loop].
    unfold get_world, bind. cbn beta iota.
    eexists. split; [reflexivity|]. simpl. auto.
Qed.

Lemma empty_workflow_completes_witness :
  exists w',
    execute_workflow Stub.clock_ticks Stub.boom
      (run_first Stub.clock_ticks Stub.boom) (run_all Stub.clock_ticks Stub.boom)
      1 (mkWorkflow "empty" [] PARALLEL None 5 false) true
      (fresh_world (mkWorkflow "empty" [] PARALLEL None 5 false))
    = Some (tt, w')
    /\ wstatus (state (sm w')) = WfCompleted
    /\ task_results (state (sm w')) = [].
Proof.
  destruct (empty_workflow_completes Stub.clock_ticks Stub.boom
              (run_first Stub.clock_ticks Stub.boom)
              (run_all Stub.clock_ticks Stub.boom) 1
              (mkWorkflow "empty" [] PARALLEL None 5 false) true
              (fresh_world (mkWorkflow "empty" [] PARALLEL None 5 false)))
    as [w' [E [Hs [Hr _]]]].
  - reflexivity.
  - lia.
  - intros w0. reflexivity.
  - exists w'. auto.
Defined.

(** *** The driver touches only its own task *)

Lemma remove_keeps x y l : x <> y -> In y l -> In y (Py.remove x l).
Proof.
  intros Hxy. induction l as [|z l IH]; simpl; [tauto|].
  destruct (String.eqb_spec x z) as [->|Hne]; simpl; intuition congruence.
Qed.

Lemma discard_other x y l : x <> y -> (In y (Py.discard x l) <-> In y l).
Proof.
  intros Hxy. unfold Py.discard. destruct (Py.mem x l); [|tauto].
  split; [apply remove_In | now apply remove_keeps].
Qed.

Lemma add_other x y l : x <> y -> (In y (Py.add x l) <-> In y l).
Proof. intros Hxy. rewrite add_In. intuition congruence. Qed.

Lemma only_touches_refl tid s : only_touches tid s s.
Proof. split; [reflexivity|]. intros x _. repeat split; auto. Qed.

Lemma only_touches_trans tid s1 s2 s3 :
  only_touches tid s1 s2 -> only_touches tid s2 s3 -> only_touches tid s1 s3.
Proof.
  intros [Hs1 H1] [Hs2 H2]. split; [congruence|].
  intros x Hx. destruct (H1 x Hx) as [A1 [B1 [C1 [D1 E1]]]].
  destruct (H2 x Hx) as [A2 [B2 [C2 [D2 E2]]]].
  repeat split; try congruence; tauto.
Qed.

Ltac frame_step :=
  split; [reflexivity|];
  let x := fresh "x" in
  let Hx := fresh "Hx" in
  intros x Hx; simpl;
  repeat match goal with
         | |- context [match Py.get ?d ?k with _ => _ end] =>
             destruct (Py.get d k)
         end;
  rewrite ?get_set_other by congruence;
  rewrite ?discard_other, ?add_other by congruence;
  repeat split; auto.

Lemma transitions_frame (m : StateManager) (tid : string)
    (t1 t2 : Z) (out agent : option string) (msg : string) :
  only_touches tid (state m) (state (start_task t1 tid m))
  /\ only_touches tid (state m) (state (complete_task t1 tid out agent m))
  /\ only_touches tid (state m) (state (fail_task t1 tid msg m))
  /\ only_touches tid (state m) (state (retry_task tid m))
  /\ only_touches tid (state m) (state (skip_task t1 t2 tid msg m)).
Proof.
  split; [|split; [|split; [|split]]]; frame_step.
Qed.

(** X7: each transition of the state store changes the result and the
    list memberships of the task it is called for and of no other, and
    leaves the workflow status alone. *)
Theorem transitions_touch_one_task (m : StateManager) (tid : string)
    (t1 t2 : Z) (out agent : option string) (msg : string) :
  only_touches tid (state m) (state (start_task t1 tid m))
  /\ only_touches tid (state m) (state (complete_task t1 tid out agent m))
  /\ only_touches tid (state m) (state (fail_task t1 tid msg m))
  /\ only_touches tid (state m) (state (retry_task tid m))
  /\ only_touches tid (state m) (state (skip_task t1 t2 tid msg m)).
Proof. apply transitions_frame. Qed.

Lemma start_task_frame m tid t1 :
  only_touches tid (state m) (state (start_task t1 tid m)).
Proof. apply (transitions_frame m tid t1 0 None None ""). Qed.

Lemma complete_task_frame m tid t1 out agent :
  only_touches tid (state m) (state (complete_task t1 tid out agent m)).
Proof. apply (transitions_frame m tid t1 0 out agent ""). Qed.

Lemma fail_task_frame m tid t1 msg :
  only_touches tid (state m) (state (fail_task t1 tid msg m)).
Proof. apply (transitions_frame m tid t1 0 None None msg). Qed.

Lemma retry_task_frame m tid :
  only_touches tid (state m) (state (retry_task tid m)).
Proof. apply (transitions_frame m tid 0 0 None None ""). Qed.


Section DriverFrame.

Variable now_at : nat -> Z.
Variable agent_run :
  nat -> TaskDefinition -> string -> WorkflowState -> string + string.
Variable t : TaskDefinition.

Lemma retry_loop_frame agent n : forall rc delay fuel w,
  (rc + n = max_retries (retry_config t))%nat -> (n < fuel)%nat ->
  exists w',
    retry_loop now_at agent_run fuel t agent rc delay w = Some (tt, w')
    /\ workflow (sm w') = workflow (sm w)
    /\ only_touches (id t) (state (sm w)) (state (sm w')).
Proof.
  induction n as [|n IH]; intros rc delay fuel w Hrc Hfuel;
    (destruct fuel as [|fuel]; [lia|]); cbn [retry_loop]; cbv zeta;
    (replace (Nat.leb rc (max_retries (retry_config t))) with true
      by (symmetry; apply Nat.leb_le; lia)).
  - replace (Nat.ltb rc (max_retries (retry_config t))) with false
      by (symmetry; apply Nat.ltb_ge; lia).
    unfold bind at 1, execute_single_task.
    destruct (agent_run (calls w) t agent (state (sm w))); stamp;
      eexists; (split; [reflexivity|]); (split; [reflexivity|]);
      cbn [sm state];
      first [apply complete_task_frame | apply fail_task_frame].
  - replace (Nat.ltb rc (max_retries (retry_config t))) with true
      by (symmetry; apply Nat.ltb_lt; lia).
    unfold bind at 1, execute_single_task.
    destruct (agent_run (calls w) t agent (state (sm w))).
    + stamp. eexists; (split; [reflexivity|]); (split; [reflexivity|]);
        cbn [sm state]; apply complete_task_frame.
    + unfold retry_task_m, progress, emit, on_sm, bind. cbn beta iota.
      match goal with
      | |- context [retry_loop _ _ fuel t agent (S rc) ?d ?w1] =>
          destruct (IH (S rc) d fuel w1) as [w' [E [Hw Hf]]]; [lia | lia |]
      end.
      exists w'. split; [exact E|]. cbn [sm state workflow] in Hw, Hf.
      split; [exact Hw|].
      eapply only_touches_trans; [|exact Hf].
      apply retry_task_frame.
Qed.

(** The driver as a whole. *)
Lemma execute_task_frame w :
  exists w',
    execute_task now_at agent_run t w = Some (tt, w')
    /\ workflow (sm w') = workflow (sm w)
    /\ only_touches (id t) (state (sm w)) (state (sm w')).
Proof.
  unfold execute_task, get_world, start_task_m, progress, emit, on_router,
    on_sm, now, bind. cbn beta iota.
  match goal with
  | |- context [retry_loop _ _ ?f t ?a 0%nat ?d ?w1] =>
      destruct (retry_loop_frame a (max_retries (retry_config t)) 0%nat d f w1)
        as [w' [E [Hw Hf]]]; [reflexivity | lia |]
  end.
  exists w'. split; [exact E|]. cbn [sm state workflow] in Hw, Hf.
  split; [exact Hw|].
  eapply only_touches_trans; [|exact Hf].
  apply start_task_frame.
Qed.

End DriverFrame.

(** X8: whatever the agent does, one call of the driver changes the
    result and the list memberships of its own task only; every other
    task and the workflow status are as before. *)
Theorem execute_task_touches_own_task
    (now_at : nat -> Z)
    (agent_run : nat -> TaskDefinition -> string -> WorkflowState
                 -> string + string)
    (t : TaskDefinition) (w : World) :
  exists w',
    execute_task now_at agent_run t w = Some (tt, w')
    /\ workflow (sm w') = workflow (sm w)
    /\ only_touches (id t) (state (sm w)) (state (sm w')).
Proof. apply execute_task_frame. Qed.

(** *** Sequential execution with an agent that never fails *)

Lemma completed_result_kept tid s s' x :
  only_touches tid s s' ->
  completed_result s' tid ->
  completed_result s x -> completed_result s' x.
Proof.
  intros [_ Hf] Htid [Hin [r [Hr Hs]]].
  destruct (String.eqb_spec x tid) as [->|Hne]; [exact Htid|].
  destruct (Hf x Hne) as [Hg [_ [_ [Hc _]]]].
  split; [now apply Hc|]. exists r. now rewrite Hg.
Qed.

Section SucceedsOn.

Variable now_at : nat -> Z.
Variable agent_run :
  nat -> TaskDefinition -> string -> WorkflowState -> string + string.

Lemma execute_task_ok t w :
  (forall k a s, exists out, agent_run k t a s = inl out) ->
  exists w',
    execute_task now_at agent_run t w = Some (tt, w')
    /\ calls w' = S (calls w)
    /\ workflow (sm w') = workflow (sm w)
    /\ failed_tasks (state (sm w')) = failed_tasks (state (sm w))
    /\ completed_result (state (sm w')) (id t)
    /\ only_touches (id t) (state (sm w)) (state (sm w')).
Proof.
  intros always_succeeds. rewrite execute_task_unfold.
  assert (exists r0, Py.get (task_results (state (sm (driver_start now_at t w))))
                       (id t) = Some r0) as [r0 Hr0].
  { simpl. destruct (Py.get (task_results (state (sm w))) (id t));
      eexists; apply get_set_same. }
  assert (calls (driver_start now_at t w) = calls w) as Hc by reflexivity.
  assert (workflow (sm (driver_start now_at t w)) = workflow (sm w)) as Hw
      by reflexivity.
  assert (failed_tasks (state (sm (driver_start now_at t w)))
          = failed_tasks (state (sm w))) as Hf by reflexivity.
  assert (only_touches (id t) (state (sm w))
            (state (sm (driver_start now_at t w)))) as Hfr
      by apply start_task_frame.
  revert Hr0 Hc Hw Hf Hfr. generalize (driver_start now_at t w). intros w1.
  intros Hr0 Hc Hw Hf Hfr.
  cbn [retry_loop]. cbv zeta. cbn [Nat.leb].
  unfold bind at 1, execute_single_task.
  destruct (always_succeeds (calls w1) (route_task (router w) t)
              (state (sm w1))) as [out ->].
  stamp. eexists. split; [reflexivity|]. simpl.
  split; [congruence|]. split; [exact Hw|]. split; [exact Hf|].
  split; [split|].
  - apply add_In. now left.
  - rewrite Hr0. eexists. split; [apply get_set_same|]. reflexivity.
  - eapply only_touches_trans; [exact Hfr|].
    apply (complete_task_frame (sm w1)).
Qed.

Lemma sequential_ok ts :
  (forall t, In t ts -> forall k a s, exists out, agent_run k t a s = inl out) ->
  forall w,
  failed_tasks (state (sm w)) = [] ->
  exists w',
    for_each ts
      (fun t => w <- get_world ;;
                if stop_on_failure w
                then skip_task_m now_at (id t) "Previous task failed"
                else execute_task now_at agent_run t) w = Some (tt, w')
    /\ calls w' = (calls w + List.length ts)%nat
    /\ workflow (sm w') = workflow (sm w)
    /\ wstatus (state (sm w')) = wstatus (state (sm w))
    /\ failed_tasks (state (sm w')) = []
    /\ (forall x, completed_result (state (sm w)) x ->
                  completed_result (state (sm w')) x)
    /\ (forall t, In t ts -> completed_result (state (sm w')) (id t)).
Proof.
  induction ts as [|t ts IH]; intros Hok w Hf.
  - exists w. simpl.
    split; [reflexivity|]. split; [lia|]. split; [reflexivity|].
    split; [reflexivity|]. split; [exact Hf|]. split; [auto|]. intros t [].
  - cbn [for_each]. unfold bind at 1. unfold bind at 1, get_world.
    assert (stop_on_failure w = false) as ->.
    { unfold stop_on_failure, has_failed_tasks. rewrite Hf.
      apply andb_false_r. }
    destruct (execute_task_ok t w (Hok t (or_introl eq_refl)))
      as [w1 [E [Hc [Hw [Hfl [Hres Hfr]]]]]].
    rewrite E.
    destruct (IH (fun t' Ht' => Hok t' (or_intror Ht')) w1)
      as [w' [E' [Hc' [Hw' [Hs' [Hf' [Hk' Hall']]]]]]];
      [congruence|].
    exists w'. split; [exact E'|].
    split; [simpl; lia|]. split; [congruence|].
    split; [destruct Hfr as [Hst _]; congruence|].
    split; [exact Hf'|]. split.
    + intros x Hx. apply Hk'. eapply completed_result_kept; eauto.
    + intros t' [<-|Ht']; [now apply Hk' | now apply Hall'].
Qed.

End SucceedsOn.

(** [execute_workflow] is the executor run from the started world,
    followed by the completion rule. *)
Lemma execute_workflow_steps now_at agent_run wait_first_completed wait_all
    fuel wf auto_strategy w :
  execute_workflow now_at agent_run wait_first_completed wait_all fuel wf
    auto_strategy w
  = match create_executor now_at agent_run wait_first_completed wait_all fuel
            (if auto_strategy then auto_select_strategy wf
             else execution_strategy wf)
            (started_world now_at wf w) with
    | Some (_, w1) => finish_workflow now_at wf (Returned w1) w1
    | None => None
    end.
Proof. reflexivity. Qed.

Lemma SequentialExecutor_execute_unfold now_at agent_run w :
  SequentialExecutor_execute now_at agent_run w
  = for_each (tasks (workflow (sm w)))
      (fun t => w <- get_world ;;
                if stop_on_failure w
                then skip_task_m now_at (id t) "Previous task failed"
                else execute_task now_at agent_run t) w.
Proof. reflexivity. Qed.

(** X9: under the sequential strategy, when every agent call succeeds,
    the workflow ends [completed] with one invocation per task, no
    failed task, and every task recorded as completed. *)
Theorem sequential_workflow_completes
    (now_at : nat -> Z)
    (agent_run : nat -> TaskDefinition -> string -> WorkflowState
                 -> string + string)
    (wait_first_completed : list TaskDefinition -> M (list TaskDefinition))
    (wait_all : list TaskDefinition -> M unit)
    (fuel : nat) (wf : WorkflowDefinition) (w : World) :
  execution_strategy wf = SEQUENTIAL ->
  (forall k t a s, exists out, agent_run k t a s = inl out) ->
  exists w',
    execute_workflow now_at agent_run wait_first_completed wait_all fuel wf
      false w = Some (tt, w')
    /\ wstatus (state (sm w')) = WfCompleted
    /\ calls w' = (calls w + List.length (tasks wf))%nat
    /\ failed_tasks (state (sm w')) = []
    /\ forall t, In t (tasks wf) -> completed_result (state (sm w')) (id t).
Proof.
  intros Hseq Hok.
  rewrite execute_workflow_steps, Hseq. cbn [create_executor].
  destruct (sequential_ok now_at agent_run (tasks wf)
              (fun t _ k a s => Hok k t a s) (started_world now_at wf w))
    as [w1' [E [Hc [Hw [Hs [Hf [_ Hall]]]]]]]; [reflexivity|].
  rewrite SequentialExecutor_execute_unfold.
  change (tasks (workflow (sm (started_world now_at wf w)))) with (tasks wf).
  rewrite E.
  destruct (finish_workflow_returned now_at wf w1' w1')
    as [w' [E' [Hf' [Hcomp [Hres Hs']]]]].
  exists w'. split; [exact E'|].
  assert (has_failed_tasks (sm w1') = false) as Hnf.
  { unfold has_failed_tasks. now rewrite Hf. }
  rewrite Hnf in Hs'. simpl in Hs'.
  split; [exact Hs'|]. split.
  - unfold finish_workflow in E'. rewrite Hnf in E'. simpl in E'.
    injection E' as <-. simpl. simpl in Hc. exact Hc.
  - split; [congruence|].
    intros t Ht. destruct (Hall t Ht) as [Hin [r [Hr Hst]]].
    split; [now rewrite Hcomp|]. exists r. now rewrite Hres.
Qed.

Lemma sequential_workflow_completes_witness :
  exists w',
    execute_workflow Stub.clock_ticks Stub.echo
      (run_first Stub.clock_ticks Stub.echo) (run_all Stub.clock_ticks Stub.echo)
      0 (Stub.a_then_b false) false (fresh_world (Stub.a_then_b false))
    = Some (tt, w')
    /\ wstatus (state (sm w')) = WfCompleted
    /\ calls w' = 2%nat.
Proof.
  destruct (sequential_workflow_completes Stub.clock_ticks Stub.echo
              (run_first Stub.clock_ticks Stub.echo)
              (run_all Stub.clock_ticks Stub.echo)
              0 (Stub.a_then_b false) (fresh_world (Stub.a_then_b false)))
    as [w' [E [Hs [Hc _]]]].
  - reflexivity.
  - intros k t a s. eexists. reflexivity.
  - exists w'. auto.
Defined.

(** ** Result cache *)

Lemma evict_lru_fields c :
  config (evict_lru c) = config c
  /\ disk_files (evict_lru c) = disk_files c
  /\ hits (evict_lru c) = hits c
  /\ misses (evict_lru c) = misses c.
Proof. unfold evict_lru. destruct (lru_key (memory_cache c)); auto. Qed.

Lemma store_in_memory_fields now k r dks c :
  config (store_in_memory now k r dks c) = config c
  /\ disk_files (store_in_memory now k r dks c) = disk_files c
  /\ hits (store_in_memory now k r dks c) = hits c
  /\ misses (store_in_memory now k r dks c) = misses c
  /\ Py.get (memory_cache (store_in_memory now k r dks c)) k
     = Some (mkEntry k r now now 0 dks).
Proof.
  unfold store_in_memory, with_memory. cbv zeta.
  destruct (Nat.leb _ _); simpl; rewrite get_set_same;
    try (destruct (evict_lru_fields c) as [A [B [C D]]]; rewrite A, B, C, D);
    auto.
Qed.

(** X10: a result that was put is returned by the next lookup of the same
    task and dependency results, under every strategy but [NONE], as long
    as the entry is younger than the TTL (or there is none); the lookup
    counts as one hit.  A disk-only cache needs its directory, which the
    constructor always sets. *)
Theorem get_after_put (sha256_hex : string -> string) (now now' : Z)
    (t : TaskDefinition) (r : TaskResult)
    (deps : option (Py.dict TaskResult)) (c : ResultCache) :
  strategy (config c) <> NONE ->
  (strategy (config c) = DISK -> cache_dir (config c) = true) ->
  (forall ttl, ttl_seconds (config c) = Some ttl -> now' - now < ttl) ->
  let c1 := cache_put sha256_hex now t r deps c in
  let c2 := snd (cache_get sha256_hex now' t deps c1) in
  fst (cache_get sha256_hex now' t deps c1) = Some r
  /\ hits c2 = hits c + 1
  /\ misses c2 = misses c.
Proof.
  intros Hs Hdir Httl. cbv zeta.
  set (k := generate sha256_hex t deps (include_dependencies (config c))).
  set (dks := dep_keys_of sha256_hex t deps c).
  destruct (store_in_memory_fields now k r dks c) as [M1 [M2 [M3 [M4 M5]]]].
  assert (forall e, created_at e = now -> is_valid now' c e = true) as Hvalid.
  { intros e He. unfold is_valid. destruct (ttl_seconds (config c)) as [ttl|] eqn:E;
      [|reflexivity]. rewrite He. apply Z.ltb_lt. now apply Httl. }
  unfold cache_put. fold k dks.
  destruct (strategy (config c)) eqn:Es; [congruence| | |].
  - (* MEMORY *)
    unfold uses_memory, uses_disk. rewrite Es.
    unfold cache_get, uses_memory. rewrite M1, Es. fold k. rewrite M5.
    unfold is_valid. rewrite M1. fold (is_valid now' c (mkEntry k r now now 0 dks)).
    rewrite Hvalid by reflexivity.
    unfold count_hit, with_memory. cbn [fst snd hits misses result].
    rewrite M3, M4. auto.
  - (* DISK *)
    unfold uses_memory, uses_disk. rewrite Es.
    unfold save_to_disk. rewrite (Hdir eq_refl).
    unfold cache_get, uses_memory. cbn [config]. rewrite Es. fold k.
    unfold get_from_disk, uses_disk, load_from_disk. cbn [config disk_files].
    rewrite Es, (Hdir eq_refl), get_set_same.
    destruct (ttl_seconds (config c)) as [ttl|] eqn:E.
    + specialize (Httl ttl eq_refl).
      replace (ttl <=? now' - now) with false by (symmetry; apply Z.leb_gt; lia).
      simpl. auto.
    + simpl. auto.
  - (* HYBRID *)
    unfold uses_memory, uses_disk. rewrite Es.
    assert (forall c0, config c0 = config c ->
              Py.get (memory_cache c0) k = Some (mkEntry k r now now 0 dks) ->
              hits c0 = hits c -> misses c0 = misses c ->
              fst (cache_get sha256_hex now' t deps c0) = Some r
              /\ hits (snd (cache_get sha256_hex now' t deps c0)) = hits c + 1
              /\ misses (snd (cache_get sha256_hex now' t deps c0)) = misses c)
      as Hget.
    { intros c0 H0 H1 H2 H3.
      unfold cache_get, uses_memory. rewrite H0, Es. fold k. rewrite H1.
      unfold is_valid. rewrite H0.
      fold (is_valid now' c (mkEntry k r now now 0 dks)).
      rewrite Hvalid by reflexivity.
      unfold count_hit, with_memory. cbn [fst snd hits misses result].
      rewrite H2, H3. auto. }
    apply Hget; unfold save_to_disk; rewrite M1;
      destruct (cache_dir (config c)); simpl; auto.
Qed.

Lemma get_after_put_witness :
  fst (cache_get stub_digest 59 report_task None
         (cache_put stub_digest 0 report_task report_result None
            (cache_of HYBRID 2)))
  = Some report_result.
Proof.
  refine (proj1 (get_after_put stub_digest 0 59 report_task report_result None
                   (cache_of HYBRID 2) _ _ _)).
  - discriminate.
  - discriminate.
  - intros ttl H. injection H as <-. lia.
Defined.

Lemma get_from_disk_counts now k c :
  let res := get_from_disk now k c in
  match fst res with
  | Some _ => hits (snd res) = hits c + 1 /\ misses (snd res) = misses c
  | None => hits (snd res) = hits c /\ misses (snd res) = misses c + 1
  end.
Proof.
  cbv zeta. unfold get_from_disk, load_from_disk.
  destruct (uses_disk c); [|simpl; auto].
  destruct (cache_dir (config c)); [|simpl; auto].
  destruct (Py.get (disk_files c) k) as [[r mtime]|]; [|simpl; auto].
  destruct (ttl_seconds (config c)) as [ttl|].
  - destruct (ttl <=? now - mtime); [simpl; auto|].
    cbn [fst snd]. destruct (strategy (config c)); cbn [count_hit hits misses];
      try (split; reflexivity).
    destruct (store_in_memory_fields now k r [] (count_hit c)) as [_ [_ [A [B _]]]].
    rewrite A, B. simpl. auto.
  - cbn [fst snd]. destruct (strategy (config c)); cbn [count_hit hits misses];
      try (split; reflexivity).
    destruct (store_in_memory_fields now k r [] (count_hit c)) as [_ [_ [A [B _]]]].
    rewrite A, B. simpl. auto.
Qed.

(** X12: every lookup is counted exactly once, as a hit when it returns
    a result and as a miss when it returns none; under [NONE] it returns
    none, counts nothing and leaves the cache as it is. *)
Theorem lookups_are_counted (sha256_hex : string -> string) (now : Z)
    (t : TaskDefinition) (deps : option (Py.dict TaskResult))
    (c : ResultCache) :
  let res := cache_get sha256_hex now t deps c in
  match strategy (config c), fst res with
  | NONE, found => found = None /\ snd res = c
  | _, Some _ => hits (snd res) = hits c + 1 /\ misses (snd res) = misses c
  | _, None => hits (snd res) = hits c /\ misses (snd res) = misses c + 1
  end.
Proof.
  cbv zeta. unfold cache_get.
  set (k := generate sha256_hex t deps (include_dependencies (config c))).
  pose proof (get_from_disk_counts now k c) as Hd. cbv zeta in Hd.
  destruct (strategy (config c)) eqn:Es; [simpl; auto| | |];
    (destruct (if uses_memory c then Py.get (memory_cache c) k else None)
       as [e|]; [destruct (is_valid now c e); [simpl; auto|]|]);
    destruct (fst (get_from_disk now k c)); exact Hd.
Qed.

(** X11: once the TTL has passed, a result that was put is no longer
    returned, under any strategy; the lookup counts as a miss, and the
    expired entry is not removed from the memory tier. *)
Theorem get_after_ttl (sha256_hex : string -> string) (now now' ttl : Z)
    (t : TaskDefinition) (r : TaskResult)
    (deps : option (Py.dict TaskResult)) (c : ResultCache) :
  ttl_seconds (config c) = Some ttl ->
  ttl <= now' - now ->
  let c1 := cache_put sha256_hex now t r deps c in
  let c2 := snd (cache_get sha256_hex now' t deps c1) in
  fst (cache_get sha256_hex now' t deps c1) = None
  /\ memory_cache c2 = memory_cache c1
  /\ (strategy (config c) <> NONE ->
      hits c2 = hits c /\ misses c2 = misses c + 1).
Proof.
  intros Httl Hold. cbv zeta.
  set (k := generate sha256_hex t deps (include_dependencies (config c))).
  set (dks := dep_keys_of sha256_hex t deps c).
  destruct (store_in_memory_fields now k r dks c) as [M1 [M2 [M3 [M4 M5]]]].
  assert ((ttl <=? now' - now) = true) as Hleb by (apply Z.leb_le; lia).
  assert ((now' - now <? ttl) = false) as Hltb by (apply Z.ltb_ge; lia).
  unfold cache_put. fold k dks.
  destruct (strategy (config c)) eqn:Es.
  - unfold cache_get. rewrite Es. simpl. repeat split; congruence.
  - (* MEMORY *)
    unfold uses_memory, uses_disk. rewrite Es.
    unfold cache_get, uses_memory. rewrite M1, Es. fold k. rewrite M5.
    unfold is_valid. rewrite M1, Httl. cbn [created_at]. rewrite Hltb.
    unfold get_from_disk, uses_disk. rewrite M1, Es.
    cbn [fst snd count_miss memory_cache hits misses].
    rewrite M3, M4. auto.
  - (* DISK *)
    unfold uses_memory, uses_disk. rewrite Es.
    unfold save_to_disk.
    destruct (cache_dir (config c)) eqn:Ed.
    + unfold cache_get, uses_memory. cbn [config]. rewrite Es. fold k.
      unfold get_from_disk, uses_disk, load_from_disk. cbn [config disk_files].
      rewrite Es, Ed, get_set_same, Httl, Hleb.
      cbn [fst snd count_miss memory_cache hits misses]. auto.
    + unfold cache_get, uses_memory. rewrite Es. fold k.
      unfold get_from_disk, uses_disk, load_from_disk. rewrite Es, Ed.
      cbn [fst snd count_miss memory_cache hits misses]. auto.
  - (* HYBRID *)
    unfold uses_memory, uses_disk. rewrite Es.
    unfold save_to_disk. rewrite M1.
    destruct (cache_dir (config c)) eqn:Ed.
    + unfold cache_get, uses_memory. cbn [config memory_cache].
      rewrite Es. fold k. rewrite M5.
      unfold is_valid. cbn [config]. rewrite Httl. cbn [created_at].
      rewrite Hltb.
      unfold get_from_disk, uses_disk, load_from_disk. cbn [config disk_files].
      rewrite Es, Ed, get_set_same, Httl, Hleb.
      cbn [fst snd count_miss memory_cache hits misses].
      rewrite M3, M4. auto.
    + unfold cache_get, uses_memory. rewrite M1, Es. fold k. rewrite M5.
      unfold is_valid. rewrite M1, Httl. cbn [created_at]. rewrite Hltb.
      unfold get_from_disk, uses_disk, load_from_disk. rewrite M1, Es, Ed.
      cbn [fst snd count_miss memory_cache hits misses].
      rewrite M3, M4. auto.
Qed.

Lemma get_after_ttl_witness :
  fst (cache_get stub_digest 60 report_task None
         (cache_put stub_digest 0 report_task report_result None
            (cache_of HYBRID 2)))
  = None.
Proof.
  refine (proj1 (get_after_ttl stub_digest 0 60 60 report_task report_result
                   None (cache_of HYBRID 2) _ _)).
  - reflexivity.
  - lia.
Defined.

(** *** Eviction *)

Lemma get_In_keys {V} (d : Py.dict V) k v :
  Py.get d k = Some v -> In k (Py.keys d).
Proof.
  induction d as [|[k0 v0] d IH]; simpl; [discriminate|].
  destruct (String.eqb_spec k k0) as [->|_]; auto.
Qed.

Lemma get_In {V} (d : Py.dict V) k v :
  Py.get d k = Some v -> In (k, v) d.
Proof.
  induction d as [|[k0 v0] d IH]; simpl; [discriminate|].
  destruct (String.eqb_spec k k0) as [->|_].
  - intros H. injection H as ->. now left.
  - auto.
Qed.

Lemma length_del {V} (d : Py.dict V) k :
  In k (Py.keys d) -> S (List.length (Py.del d k)) = List.length d.
Proof.
  induction d as [|[k0 v0] d IH]; simpl; [tauto|].
  destruct (String.eqb_spec k k0) as [->|Hne]; [reflexivity|].
  intros [H|H]; [congruence|]. simpl. now rewrite IH.
Qed.

Lemma get_del_same {V} (d : Py.dict V) k :
  NoDup (Py.keys d) -> Py.get (Py.del d k) k = None.
Proof.
  induction d as [|[k0 v0] d IH]; simpl; [reflexivity|].
  intros H. inversion H as [|? ? Hk Hd]; subst.
  destruct (String.eqb_spec k k0) as [->|Hne].
  - destruct (Py.get d k0) eqn:E; [|reflexivity].
    exfalso. apply Hk. exact (get_In_keys _ _ _ E).
  - simpl. destruct (String.eqb_spec k k0); [congruence|]. now apply IH.
Qed.

Lemma get_del_other {V} (d : Py.dict V) k k' :
  k' <> k -> Py.get (Py.del d k) k' = Py.get d k'.
Proof.
  intros Hne. induction d as [|[k0 v0] d IH]; simpl; [reflexivity|].
  destruct (String.eqb_spec k k0) as [->|Hk].
  - destruct (String.eqb_spec k' k0); [congruence | reflexivity].
  - simpl. now rewrite IH.
Qed.

(** [lru_key] names an entry whose last access is the oldest. *)
Lemma lru_key_least (m : Py.dict CacheEntry) :
  NoDup (Py.keys m) -> m <> [] ->
  exists k e,
    lru_key m = Some k /\ Py.get m k = Some e
    /\ forall k' e', Py.get m k' = Some e' -> accessed_at e <= accessed_at e'.
Proof.
  induction m as [|[k0 e0] m IH]; [congruence|]. intros Hnd _.
  inversion Hnd as [|? ? Hk Hm]; subst.
  destruct m as [|p m'].
  - exists k0, e0. simpl. rewrite String.eqb_refl. repeat split; auto.
    intros k' e'. destruct (String.eqb k' k0); [|discriminate].
    intros H. injection H as <-. lia.
  - remember (p :: m') as m eqn:Em.
    destruct (IH Hm) as [k [e [Hl [Hg Hmin]]]]; [subst; discriminate|].
    assert (k <> k0) as Hne.
    { intros ->. apply Hk. exact (get_In_keys _ _ _ Hg). }
    cbn [lru_key]. rewrite Hl, Hg.
    destruct (Z.ltb_spec (accessed_at e) (accessed_at e0)).
    + exists k, e. split; [reflexivity|]. split.
      * simpl. destruct (String.eqb_spec k k0); [congruence | exact Hg].
      * intros k' e'. simpl. destruct (String.eqb k' k0).
        -- intros H'. injection H' as <-. lia.
        -- apply Hmin.
    + exists k0, e0. split; [reflexivity|]. split.
      * simpl. now rewrite String.eqb_refl.
      * intros k' e'. simpl. destruct (String.eqb k' k0).
        -- intros H'. injection H' as <-. lia.
        -- intros H'. specialize (Hmin k' e' H'). lia.
Qed.

(** X13: eviction removes exactly one entry, one whose last access is
    not later than that of any other entry, keeps every other entry and
    counts one eviction. *)
Theorem evict_lru_removes_oldest (c : ResultCache) :
  NoDup (Py.keys (memory_cache c)) ->
  memory_cache c <> [] ->
  exists k e,
    Py.get (memory_cache c) k = Some e
    /\ (forall k' e', Py.get (memory_cache c) k' = Some e' ->
          accessed_at e <= accessed_at e')
    /\ Py.get (memory_cache (evict_lru c)) k = None
    /\ (forall k', k' <> k ->
          Py.get (memory_cache (evict_lru c)) k' = Py.get (memory_cache c) k')
    /\ S (List.length (memory_cache (evict_lru c)))
       = List.length (memory_cache c)
    /\ evictions (evict_lru c) = evictions c + 1.
Proof.
  intros Hnd Hne.
  destruct (lru_key_least (memory_cache c) Hnd Hne) as [k [e [Hl [Hg Hmin]]]].
  exists k, e. unfold evict_lru. rewrite Hl. simpl.
  split; [exact Hg|]. split; [exact Hmin|].
  split; [now apply get_del_same|].
  split; [intros k' Hk'; now apply get_del_other|].
  split; [|reflexivity].
  apply length_del. exact (get_In_keys _ _ _ Hg).
Qed.

Lemma evict_lru_removes_oldest_witness :
  exists k e,
    Py.get (memory_cache two_entries) k = Some e
    /\ (forall k' e', Py.get (memory_cache two_entries) k' = Some e' ->
          accessed_at e <= accessed_at e')
    /\ Py.get (memory_cache (evict_lru two_entries)) k = None
    /\ (forall k', k' <> k ->
          Py.get (memory_cache (evict_lru two_entries)) k'
          = Py.get (memory_cache two_entries) k')
    /\ S (List.length (memory_cache (evict_lru two_entries)))
       = List.length (memory_cache two_entries)
    /\ evictions (evict_lru two_entries) = evictions two_entries + 1.
Proof.
  apply (evict_lru_removes_oldest two_entries).
  - simpl. repeat constructor; simpl; intuition discriminate.
  - discriminate.
Defined.

Lemma lru_key_In (m : Py.dict CacheEntry) :
  m <> [] -> exists k, lru_key m = Some k /\ In k (Py.keys m).
Proof.
  induction m as [|[k0 e0] m IH]; [congruence|]. intros _.
  cbn [lru_key]. destruct m as [|p m'].
  - exists k0. simpl. auto.
  - remember (p :: m') as m eqn:Em.
    destruct IH as [k [Hl Hin]]; [subst; discriminate|].
    rewrite Hl. destruct (Py.get m k) as [e'|].
    + destruct (accessed_at e' <? accessed_at e0).
      * exists k. split; [reflexivity|]. now right.
      * exists k0. split; [reflexivity|]. now left.
    + exists k0. split; [reflexivity|]. now left.
Qed.

Lemma store_in_memory_bounded now k r dks c :
  (1 <= max_size (config c))%nat ->
  (List.length (memory_cache c) <= max_size (config c))%nat ->
  (List.length (memory_cache (store_in_memory now k r dks c))
   <= max_size (config c))%nat.
Proof.
  intros H1 Hb. unfold store_in_memory, with_memory. cbv zeta.
  destruct (Nat.leb_spec (max_size (config c)) (List.length (memory_cache c)))
    as [Hfull|Hroom]; cbn [memory_cache]; rewrite length_set.
  - assert (memory_cache c <> []) as Hne.
    { intros E. rewrite E in Hfull. simpl in Hfull. lia. }
    destruct (lru_key_In _ Hne) as [k0 [Hl Hin]].
    unfold evict_lru. rewrite Hl. cbn [memory_cache].
    pose proof (length_del _ _ Hin) as Hlen.
    destruct (Py.mem k _); lia.
  - destruct (Py.mem k _); lia.
Qed.

(** X14: with [max_size >= 1], a memory tier that holds at most
    [max_size] entries still does after a put and after a lookup
    (promotion from disk included). *)
Theorem memory_cache_bounded (sha256_hex : string -> string) (now : Z)
    (t : TaskDefinition) (r : TaskResult)
    (deps : option (Py.dict TaskResult)) (c : ResultCache) :
  (1 <= max_size (config c))%nat ->
  (List.length (memory_cache c) <= max_size (config c))%nat ->
  (List.length (memory_cache (cache_put sha256_hex now t r deps c))
   <= max_size (config c))%nat
  /\ (List.length (memory_cache (snd (cache_get sha256_hex now t deps c)))
      <= max_size (config c))%nat.
Proof.
  intros H1 Hb. split.
  - unfold cache_put.
    set (k := generate sha256_hex t deps (include_dependencies (config c))).
    set (dks := dep_keys_of sha256_hex t deps c).
    pose proof (store_in_memory_bounded now k r dks c H1 Hb) as Hs.
    destruct (strategy (config c)) eqn:Es; [exact Hb| | |];
      unfold uses_memory, uses_disk, save_to_disk; rewrite Es.
    + exact Hs.
    + destruct (cache_dir (config c)); exact Hb.
    + destruct (cache_dir (config _)); exact Hs.
  - unfold cache_get.
    set (k := generate sha256_hex t deps (include_dependencies (config c))).
    assert ((List.length (memory_cache (snd (get_from_disk now k c)))
             <= max_size (config c))%nat) as Hd.
    { unfold get_from_disk, load_from_disk.
      destruct (uses_disk c); [|exact Hb].
      destruct (cache_dir (config c)); [|exact Hb].
      destruct (Py.get (disk_files c) k) as [[r0 mtime]|]; [|exact Hb].
      assert ((List.length
                 (memory_cache
                    (match strategy (config c) with
                     | HYBRID => store_in_memory now k r0 [] (count_hit c)
                     | _ => count_hit c
                     end)) <= max_size (config c))%nat) as Hp.
      { destruct (strategy (config c)); try exact Hb.
        exact (store_in_memory_bounded now k r0 [] (count_hit c) H1 Hb). }
      destruct (ttl_seconds (config c)) as [ttl|];
        [destruct (ttl <=? now - mtime); [exact Hb|]|]; exact Hp. }
    destruct (strategy (config c)) eqn:Es; [exact Hb| | |];
      (destruct (if uses_memory c then Py.get (memory_cache c) k else None)
         as [e|] eqn:Eg; [destruct (is_valid now c e); [|exact Hd] | exact Hd]);
      cbn [snd count_hit with_memory memory_cache]; rewrite length_set;
      (destruct (uses_memory c); [|discriminate]);
      apply get_In_keys in Eg; apply mem_In in Eg; rewrite Eg; exact Hb.
Qed.

Lemma memory_cache_bounded_witness :
  (List.length
     (memory_cache
        (cache_put stub_digest 7 report_task report_result None two_entries))
   <= 2)%nat.
Proof.
  refine (proj1 (memory_cache_bounded stub_digest 7 report_task report_result
                   None two_entries _ _)).
  - simpl. lia.
  - simpl. lia.
Defined.

(** *** Cache keys *)

Lemma dep_outputs_ext (t : TaskDefinition) (d1 d2 : Py.dict TaskResult) :
  (forall dep, In dep (depends_on t) ->
     option_map output (Py.get d1 dep) = option_map output (Py.get d2 dep)) ->
  dep_outputs t d1 = dep_outputs t d2.
Proof.
  unfold dep_outputs. generalize (@nil (string * json)).
  induction (depends_on t) as [|dep l IH]; intros acc H; simpl; [reflexivity|].
  pose proof (H dep (or_introl eq_refl)) as Hd.
  assert (forall x, In x l ->
            option_map output (Py.get d1 x) = option_map output (Py.get d2 x))
    as Hl by (intros x Hx; apply H; now right).
  destruct (Py.get d1 dep) as [r1|], (Py.get d2 dep) as [r2|];
    simpl in Hd; try discriminate.
  - injection Hd as ->. now apply IH.
  - now apply IH.
Qed.

(** X15: the cache key depends on the dependency results only through
    the outputs of the dependencies the task lists (and on whether the
    dictionary is empty): status, timing, retry count and results of
    other tasks do not change it. *)
Theorem key_ignores_dependency_metadata (sha256_hex : string -> string)
    (t : TaskDefinition) (d1 d2 : Py.dict TaskResult) (include_deps : bool) :
  (d1 = [] <-> d2 = []) ->
  (forall dep, In dep (depends_on t) ->
     option_map output (Py.get d1 dep) = option_map output (Py.get d2 dep)) ->
  generate sha256_hex t (Some d1) include_deps
  = generate sha256_hex t (Some d2) include_deps.
Proof.
  intros He H. unfold generate, key_json, key_components. f_equal. f_equal.
  destruct d1 as [|p1 d1], d2 as [|p2 d2].
  - reflexivity.
  - destruct He as [He _]. discriminate (He eq_refl).
  - destruct He as [_ He]. discriminate (He eq_refl).
  - cbn [nonempty_dict]. destruct include_deps; [|reflexivity].
    cbn [andb]. now rewrite (dep_outputs_ext t (p1 :: d1) (p2 :: d2) H).
Qed.

Lemma key_ignores_dependency_metadata_witness :
  generate stub_digest report_task (Some [("fetch", fetch_result 3 0)]) true
  = generate stub_digest report_task (Some [("fetch", fetch_result 9 2)]) true.
Proof.
  apply (key_ignores_dependency_metadata stub_digest report_task
           [("fetch", fetch_result 3 0)] [("fetch", fetch_result 9 2)] true).
  - split; discriminate.
  - intros dep [<-|[]]. reflexivity.
Defined.

(** ** Topological sort: the order it returns and when it raises *)

Lemma full_count (deps l : list string) :
  NoDup l ->
  List.length (filter (fun u => Py.mem u deps) l) = List.length deps ->
  incl deps l.
Proof.
  intros Hnd Hlen.
  assert (incl deps (filter (fun u => Py.mem u deps) l)) as H.
  { apply NoDup_length_incl.
    - now apply NoDup_filter.
    - lia.
    - intros x Hx. apply filter_In in Hx as [_ Hx]. now apply mem_In. }
  intros x Hx. apply H in Hx. apply filter_In in Hx. tauto.
Qed.

Lemma order_inv_step wf K d tid q result d' q' :
  queue_inv K d (tid :: q) result -> order_inv wf d (tid :: q) result ->
  fold_left (Kahn.relax tid) (build_dependency_graph wf) (d, q) = (d', q') ->
  order_inv wf d' q' (result ++ [tid]).
Proof.
  intros Hinv [HF [HQ [HO HC]]] E.
  destruct (relax_fold tid (build_dependency_graph wf) (graph_NoDup wf) d q)
    as [d1 [E1 Hd1]].
  rewrite E1 in E. injection E as <- <-.
  destruct Hinv as [Hnd Hdone _].
  assert (NoDup (result ++ [tid])) as Hnd1.
  { apply NoDup_app_remove_r with (l' := q). now rewrite <- app_assoc. }
  assert (forall v deps, In (v, deps) (build_dependency_graph wf) ->
            Py.get_or d1 v 0
            = Z.of_nat (List.length deps)
              - Z.of_nat (List.length
                            (filter (fun u => Py.mem u deps) (result ++ [tid]))))
    as HF1.
  { intros v deps Hin. rewrite Hd1, (HF v deps Hin).
    rewrite (hit_spec tid _ v deps (graph_NoDup wf) Hin).
    rewrite filter_app, length_app. simpl.
    destruct (Py.mem tid deps); simpl; lia. }
  split; [exact HF1|]. split; [|split].
  - intros v deps Hv Hin. apply in_app_iff in Hv as [Hv|Hv].
    + apply incl_appl. apply (HQ v deps); [now right | exact Hin].
    + apply pushed_In in Hv as [deps0 [Hin0 [Hm Hz]]].
      assert (deps0 = deps) as ->.
      { pose proof (In_get _ _ _ (graph_NoDup wf) Hin) as H1.
        pose proof (In_get _ _ _ (graph_NoDup wf) Hin0) as H2. congruence. }
      apply full_count; [exact Hnd1|].
      pose proof (HF v deps Hin) as H1. rewrite Hz in H1.
      rewrite filter_app, length_app. simpl. rewrite Hm. simpl. lia.
  - intros l1 v l2 deps Hsplit Hin.
    destruct l2 as [|x l2] using rev_ind.
    + apply app_inj_tail in Hsplit as [-> ->].
      apply (HQ v deps); [now left | exact Hin].
    + clear IHl2. rewrite app_comm_cons, app_assoc in Hsplit.
      apply app_inj_tail in Hsplit as [Hr _].
      exact (HO l1 v l2 deps Hr Hin).
  - intros v deps Hin Hz. rewrite Hd1 in Hz.
    rewrite (hit_spec tid _ v deps (graph_NoDup wf) Hin) in Hz.
    destruct (Z_le_gt_dec (Py.get_or d v 0) 0) as [Hle|Hgt].
    + pose proof (HC v deps Hin Hle) as Hv.
      rewrite <- app_assoc. simpl. apply in_app_iff in Hv as [Hv|[Hv|Hv]].
      * apply in_app_iff. now left.
      * apply in_app_iff. right. now left.
      * apply in_app_iff. right. right. apply in_app_iff. now left.
    + destruct (Py.mem tid deps) eqn:Hm; [|lia].
      apply in_app_iff. right. apply in_app_iff. right.
      apply pushed_In. exists deps. repeat split; auto. lia.
Qed.

Lemma in_degrees_keys wf :
  known_dependencies wf ->
  NoDup (Py.keys (Kahn.in_degrees wf))
  /\ forall v, In v (Py.keys (Kahn.in_degrees wf)) <-> In v (map id (tasks wf)).
Proof.
  intros Hknown.
  destruct (zeros_fold (tasks wf) [] (NoDup_nil _) (fun _ => eq_refl))
    as [Z1 [Z2 [Z3 Z4]]].
  destruct (degrees_fold (build_dependency_graph wf) _ Z1 (graph_NoDup wf))
    as [A [B [C E]]].
  fold (zero_degrees wf) in *.
  assert (Py.keys (Kahn.in_degrees wf) = Py.keys (zero_degrees wf)) as Hk.
  { apply E. intros v deps Hin.
    apply graph_from_task in Hin as [t [Ht [<- <-]]]. split.
    - apply Z3. right. now apply in_map.
    - intros dep Hdep. apply Z3. right. exact (Hknown t dep Ht Hdep). }
  split; [exact A|]. intros v. rewrite Hk, Z3. simpl. tauto.
Qed.

(** One run of the sort: the loop ends, and its result satisfies both
    invariants. *)
Lemma topological_sort_run wf s :
  exists res d',
    topological_sort (mkSM wf s)
    = Some (if Nat.eqb (List.length res) (List.length (tasks wf))
            then inr res else inl cycle_message)
    /\ queue_inv (Py.keys (Kahn.in_degrees wf)) d' [] res
    /\ order_inv wf d' [] res.
Proof.
  unfold topological_sort. simpl workflow.
  destruct (in_degrees_facts wf) as [HD [HG [Hdeg Hlen]]].
  destruct (loop_total (build_dependency_graph wf) (graph_NoDup wf)
              (Py.keys (Kahn.in_degrees wf)) HG
              (order_inv wf) (order_inv_step wf _)
              (S (List.length (Kahn.in_degrees wf)))
              (Kahn.in_degrees wf) (Kahn.initial_queue (Kahn.in_degrees wf)) [])
    as [res [d' [E [Hq Ho]]]].
  - now apply initial_queue_inv.
  - split; [|split; [|split]].
    + intros v deps Hin. simpl. rewrite (Hdeg v deps Hin). lia.
    + intros v deps Hv Hin x Hx.
      apply in_map_iff in Hv as [[v' z] [Hv' Hv]]. simpl in Hv'. subst v'.
      apply filter_In in Hv as [Hv Hz]. simpl in Hz. apply Z.eqb_eq in Hz.
      subst z. pose proof (Hdeg v deps Hin) as Hd.
      unfold Py.get_or in Hd. rewrite (In_get _ _ _ HD Hv) in Hd.
      destruct deps; [destruct Hx | simpl in Hd; lia].
    + intros l1 v l2 deps Hsplit. destruct l1; discriminate.
    + intros v deps Hin Hz. simpl.
      assert (In v (Py.keys (Kahn.in_degrees wf))) as Hk.
      { apply HG. change v with (fst (v, deps)). now apply in_map. }
      apply in_map_iff in Hk as [[v' z] [Hv' Hk]]. simpl in Hv'. subst v'.
      pose proof (Hdeg v deps Hin) as Hd.
      unfold Py.get_or in Hd, Hz. rewrite (In_get _ _ _ HD Hk) in Hd, Hz.
      unfold Kahn.initial_queue. apply in_map_iff. exists (v, z).
      split; [reflexivity|]. apply filter_In. split; [exact Hk|].
      simpl. apply Z.eqb_eq. lia.
  - unfold Py.keys. rewrite length_map. simpl. lia.
  - exists res, d'. rewrite E. split; [|auto].
    now destruct (Nat.eqb _ _).
Qed.

Lemma set_In_same {V} (d : Py.dict V) k v : In (k, v) (Py.set d k v).
Proof.
  induction d as [|[k0 v0] d IH]; simpl; [now left|].
  destruct (String.eqb_spec k k0) as [->|_]; [now left | now right].
Qed.

Lemma set_In_other {V} (d : Py.dict V) k v k' v' :
  k' <> k -> In (k', v') d -> In (k', v') (Py.set d k v).
Proof.
  intros Hne. induction d as [|[k0 v0] d IH]; simpl; [tauto|].
  destruct (String.eqb_spec k k0) as [->|_].
  - intros [H|H]; [injection H as <- <-; congruence | now right].
  - intros [H|H]; [now left | right; auto].
Qed.

Lemma graph_of_task wf t :
  NoDup (map id (tasks wf)) -> In t (tasks wf) ->
  In (id t, depends_on t) (build_dependency_graph wf).
Proof.
  unfold build_dependency_graph. intros Hnd Ht.
  assert (forall ts g, NoDup (map id ts) ->
            In t ts \/ (In (id t, depends_on t) g /\ ~ In (id t) (map id ts)) ->
            In (id t, depends_on t)
               (fold_left (fun g t => Py.set g (id t) (depends_on t)) ts g))
    as H.
  { induction ts as [|t0 ts IH]; intros g Hts Hor; simpl.
    - destruct Hor as [[]|[H _]]. exact H.
    - inversion Hts as [|? ? H0 Hts']; subst. apply IH; [exact Hts'|].
      destruct Hor as [[->|Hin]|[Hin Hn]].
      + right. split; [apply set_In_same | exact H0].
      + now left.
      + right. simpl in Hn. split.
        * apply set_In_other; [|exact Hin]. intros Heq. apply Hn. now left.
        * intros Hin'. apply Hn. now right. }
  apply H; [exact Hnd | now left].
Qed.

(** X16: when every [depends_on] id names a task and the sort returns
    an order, the order is a permutation of the task ids (each id once)
    and every task comes after all the dependencies it lists. *)
Theorem topological_sort_sound (wf : WorkflowDefinition) (s : WorkflowState)
    (order : list string) :
  known_dependencies wf ->
  topological_sort (mkSM wf s) = Some (inr order) ->
  Permutation order (map id (tasks wf))
  /\ forall t l1 l2, In t (tasks wf) -> order = l1 ++ id t :: l2 ->
                     incl (depends_on t) l1.
Proof.
  intros Hknown Hsort.
  destruct (topological_sort_run wf s) as [res [d' [E [[Hnd _ HK] [_ [_ [HO _]]]]]]].
  rewrite E in Hsort.
  destruct (Nat.eqb_spec (List.length res) (List.length (tasks wf))) as [Hlen|];
    [|discriminate].
  injection Hsort as ->. rewrite app_nil_r in *.
  destruct (in_degrees_keys wf Hknown) as [_ Hkeys].
  assert (Permutation order (map id (tasks wf))) as Hperm.
  { apply NoDup_Permutation_bis; [exact Hnd | rewrite length_map; lia |].
    intros x Hx. apply Hkeys, HK, Hx. }
  split; [exact Hperm|].
  intros t l1 l2 Ht Hsplit.
  apply (HO l1 (id t) l2 (depends_on t) Hsplit).
  apply graph_of_task; [|exact Ht].
  exact (Permutation_NoDup Hperm Hnd).
Qed.

Lemma chain_known : known_dependencies Samples.chain.
Proof.
  intros t dep [<-|[<-|[<-|[]]]]; simpl; intuition (subst; simpl; tauto).
Qed.

Lemma topological_sort_sound_witness :
  Permutation ["A"; "B"; "C"] (map id (tasks Samples.chain))
  /\ forall t l1 l2, In t (tasks Samples.chain) ->
       ["A"; "B"; "C"] = l1 ++ id t :: l2 -> incl (depends_on t) l1.
Proof.
  apply (topological_sort_sound Samples.chain
           (state (StateManager_init Samples.chain)) ["A"; "B"; "C"]).
  - exact chain_known.
  - reflexivity.
Defined.

(** *** When the sort raises *)

Lemma missing_element (l l' : list string) :
  NoDup l' -> (List.length l < List.length l')%nat ->
  exists x, In x l' /\ ~ In x l.
Proof.
  intros Hnd Hlen.
  destruct (Forall_Exists_dec (fun x => In x l)
              (fun x => in_dec string_dec x l) l') as [Hall|Hex].
  - exfalso. rewrite Forall_forall in Hall.
    pose proof (NoDup_incl_length Hnd Hall). lia.
  - apply Exists_exists in Hex. exact Hex.
Qed.

Lemma repeated_element (l : list string) :
  ~ NoDup l -> exists a l1 l2 l3, l = l1 ++ a :: l2 ++ a :: l3.
Proof.
  induction l as [|x l IH]; intros H.
  - exfalso. apply H. constructor.
  - destruct (in_dec string_dec x l) as [Hin|Hnin].
    + apply in_split in Hin as [l2 [l3 ->]]. now exists x, [], l2, l3.
    + destruct IH as [a [l1 [l2 [l3 ->]]]].
      * intros Hl. apply H. now constructor.
      * now exists a, (x :: l1), l2, l3.
Qed.

Lemma walk_tail R l1 l : walk R (l1 ++ l) -> walk R l.
Proof.
  induction l1 as [|a l1 IH]; [auto|]. simpl.
  destruct (l1 ++ l) eqn:E; [|intros [_ H]; auto].
  intros _. destruct l1; [simpl in E; now subst | discriminate].
Qed.

Lemma walk_path R l2 : forall a b l3,
  walk R (a :: l2 ++ b :: l3) -> clos_trans string R b a.
Proof.
  induction l2 as [|c l2 IH]; intros a b l3.
  - simpl. intros [H _]. now apply t_step.
  - intros H. change (R c a /\ walk R (c :: l2 ++ b :: l3)) in H.
    destruct H as [H1 H2].
    eapply t_trans; [exact (IH c b l3 H2) | now apply t_step].
Qed.

(** A walk that never leaves a finite set comes back to a node. *)
Lemma endless_walk_cycle (R : string -> string -> Prop) (S0 : list string) :
  (forall v, In v S0 -> exists u, In u S0 /\ R v u) ->
  forall v0, In v0 S0 -> exists a, clos_trans string R a a.
Proof.
  intros Hnext v0 Hv0.
  assert (forall n, exists a l, List.length (a :: l) = S n
                               /\ incl (a :: l) S0 /\ walk R (a :: l)) as Hw.
  { induction n as [|n [a [l [Hlen [Hincl Hwalk]]]]].
    - exists v0, []. repeat split; auto. intros x [<-|[]]. exact Hv0.
    - destruct (Hnext a (Hincl a (or_introl eq_refl))) as [u [Hu HR]].
      exists u, (a :: l). split; [simpl in *; lia|]. split.
      + intros x [<-|Hx]; auto.
      + split; assumption. }
  destruct (Hw (List.length S0)) as [a [l [Hlen [Hincl Hwalk]]]].
  assert (~ NoDup (a :: l)) as Hdup.
  { intros Hnd. pose proof (NoDup_incl_length Hnd Hincl). lia. }
  apply repeated_element in Hdup as [b [l1 [l2 [l3 E]]]].
  rewrite E in Hwalk. apply walk_tail in Hwalk.
  exists b. exact (walk_path R l2 b b l3 Hwalk).
Qed.

Lemma filter_short (deps l : list string) :
  NoDup l -> ~ NoDup deps ->
  (List.length (filter (fun u => Py.mem u deps) l) < List.length deps)%nat.
Proof.
  intros Hl Hd.
  destruct (Nat.lt_ge_cases
              (List.length (filter (fun u => Py.mem u deps) l))
              (List.length deps)) as [H|H]; [exact H|].
  exfalso. apply Hd.
  apply (NoDup_incl_NoDup (NoDup_filter (fun u => Py.mem u deps) Hl)); [exact H|].
  intros x Hx. apply filter_In in Hx as [_ Hx]. now apply mem_In.
Qed.

Section SortError.

Variable wf : WorkflowDefinition.
Hypothesis known : known_dependencies wf.
Variable res : list string.
Variable d' : Py.dict Z.
Hypothesis Hq : queue_inv (Py.keys (Kahn.in_degrees wf)) d' [] res.
Hypothesis Ho : order_inv wf d' [] res.

Lemma result_not_longer :
  (List.length res <= List.length (Py.keys (Kahn.in_degrees wf)))%nat
  /\ (List.length (Py.keys (Kahn.in_degrees wf)) <= List.length (tasks wf))%nat.
Proof.
  destruct Hq as [Hnd _ HK]. rewrite app_nil_r in *. split.
  - exact (NoDup_incl_length Hnd HK).
  - destruct (in_degrees_facts wf) as [_ [_ [_ Hlen]]].
    unfold Py.keys. rewrite length_map. exact (Hlen known).
Qed.

Lemma short_of_missing v :
  In v (Py.keys (Kahn.in_degrees wf)) -> ~ In v res ->
  List.length res <> List.length (tasks wf).
Proof.
  intros Hv Hn. destruct Hq as [Hnd _ HK]. rewrite app_nil_r in *.
  assert (NoDup (v :: res)) as Hnd' by now constructor.
  assert (incl (v :: res) (Py.keys (Kahn.in_degrees wf))) as Hincl
      by (intros x [<-|Hx]; auto).
  pose proof (NoDup_incl_length Hnd' Hincl) as H. simpl in H.
  destruct result_not_longer as [_ H2]. lia.
Qed.

Lemma short_of_duplicate_id :
  ~ NoDup (map id (tasks wf)) ->
  List.length res <> List.length (tasks wf).
Proof.
  intros Hdup. destruct (in_degrees_keys wf known) as [HD Hkeys].
  destruct result_not_longer as [H1 _].
  assert (List.length (Py.keys (Kahn.in_degrees wf))
          < List.length (map id (tasks wf)))%nat as H2.
  { destruct (Nat.lt_ge_cases (List.length (Py.keys (Kahn.in_degrees wf)))
                (List.length (map id (tasks wf)))) as [H|H]; [exact H|].
    exfalso. apply Hdup. apply (NoDup_incl_NoDup HD H).
    intros x Hx. now apply Hkeys. }
  rewrite length_map in H2. lia.
Qed.

Lemma short_of_duplicate_dependency v deps :
  In (v, deps) (build_dependency_graph wf) -> ~ NoDup deps ->
  List.length res <> List.length (tasks wf).
Proof.
  intros Hin Hdup. apply (short_of_missing v).
  - destruct (in_degrees_facts wf) as [_ [HG _]]. apply HG.
    change v with (fst (v, deps)). now apply in_map.
  - intros Hv. destruct Hq as [Hnd Hdone _]. destruct Ho as [HF _].
    rewrite app_nil_r in *.
    pose proof (Hdone v Hv) as Hz. rewrite (HF v deps Hin) in Hz.
    pose proof (filter_short deps res Hnd Hdup). lia.
Qed.

Lemma cycle_of_short :
  NoDup (map id (tasks wf)) ->
  (forall t, In t (tasks wf) -> NoDup (depends_on t)) ->
  List.length res <> List.length (tasks wf) ->
  has_cycle wf.
Proof.
  intros Hids Hdeps Hshort.
  destruct (in_degrees_keys wf known) as [HD Hkeys].
  destruct Hq as [Hnd Hdone HK]. destruct Ho as [HF [_ [_ HC]]].
  rewrite app_nil_r in *.
  assert (List.length (Py.keys (Kahn.in_degrees wf)) = List.length (tasks wf))
    as HlenK.
  { rewrite <- (length_map id (tasks wf)). apply Permutation_length.
    apply NoDup_Permutation; assumption. }
  pose proof (NoDup_incl_length Hnd HK) as Hle.
  destruct (missing_element res (Py.keys (Kahn.in_degrees wf)) HD)
    as [v0 [Hv0 Hn0]]; [lia|].
  set (S0 := filter (fun v => negb (Py.mem v res)) (map id (tasks wf))).
  assert (forall v, In v S0 <-> In v (map id (tasks wf)) /\ ~ In v res) as HS.
  { intros v. unfold S0. rewrite filter_In, negb_true_iff. split.
    - intros [H1 H2]. split; [exact H1|]. intros H. apply mem_In in H.
      congruence.
    - intros [H1 H2]. split; [exact H1|]. apply not_true_is_false.
      intros H. apply H2. now apply mem_In. }
  apply (endless_walk_cycle (edge wf) S0) with (v0 := v0).
  - intros v Hv. apply HS in Hv as [Hv Hn].
    apply in_map_iff in Hv as [t [<- Ht]].
    pose proof (graph_of_task wf t Hids Ht) as Hin.
    assert (0 < Py.get_or d' (id t) 0) as Hpos.
    { destruct (Z_le_gt_dec (Py.get_or d' (id t) 0) 0) as [Hz|Hz]; [|lia].
      exfalso. apply Hn. exact (HC _ _ Hin Hz). }
    rewrite (HF _ _ Hin) in Hpos.
    destruct (Forall_Exists_dec (fun x => In x res)
                (fun x => in_dec string_dec x res) (depends_on t))
      as [Hall|Hex].
    + exfalso. rewrite Forall_forall in Hall.
      assert (incl (depends_on t)
                (filter (fun u => Py.mem u (depends_on t)) res)) as Hincl.
      { intros x Hx. apply filter_In. split; [now apply Hall|].
        now apply mem_In. }
      pose proof (NoDup_incl_length (Hdeps t Ht) Hincl). lia.
    + apply Exists_exists in Hex as [u [Hu Hnu]].
      exists u. split.
      * apply HS. split; [exact (known t u Ht Hu) | exact Hnu].
      * exists (depends_on t). split; assumption.
  - apply HS. split; [now apply Hkeys | exact Hn0].
Qed.

End SortError.

(** X17: when every [depends_on] id names a task, the sort raises its
    circular-dependency error exactly when the graph has a cycle, or two
    tasks share an id, or some task lists a dependency twice; in every
    other case it returns an order. *)
Theorem topological_sort_raises_iff (wf : WorkflowDefinition)
    (s : WorkflowState) :
  known_dependencies wf ->
  (topological_sort (mkSM wf s) = Some (inl cycle_message)
   <-> has_cycle wf
       \/ ~ NoDup (map id (tasks wf))
       \/ exists t, In t (tasks wf) /\ ~ NoDup (depends_on t)).
Proof.
  intros Hknown.
  destruct (topological_sort_run wf s) as [res [d' [E [Hq Ho]]]].
  rewrite E.
  destruct (Nat.eqb_spec (List.length res) (List.length (tasks wf)))
    as [Hlen|Hlen].
  - split; [discriminate|]. intros H. exfalso.
    assert (~ NoDup (map id (tasks wf)) -> False) as Hids.
    { intros Hd. exact (short_of_duplicate_id wf Hknown res d' Hq Hd Hlen). }
    destruct H as [Hc|[Hd|[t [Ht Hd]]]].
    + pose proof (topological_sort_cycle wf Hknown Hc s) as Hcy.
      rewrite E in Hcy.
      destruct (Nat.eqb_spec (List.length res) (List.length (tasks wf)));
        [discriminate | contradiction].
    + exact (Hids Hd).
    + destruct (NoDup_dec string_dec (map id (tasks wf))) as [Hn|Hn];
        [|exact (Hids Hn)].
      exact (short_of_duplicate_dependency wf Hknown res d' Hq Ho _ _
               (graph_of_task wf t Hn Ht) Hd Hlen).
  - split; [intros _|reflexivity].
    destruct (NoDup_dec string_dec (map id (tasks wf))) as [Hn|Hn];
      [|now right; left].
    destruct (Forall_Exists_dec (fun t => NoDup (depends_on t))
                (fun t => NoDup_dec string_dec (depends_on t)) (tasks wf))
      as [Hall|Hex].
    + left. rewrite Forall_forall in Hall.
      exact (cycle_of_short wf Hknown res d' Hq Ho Hn Hall Hlen).
    + right. right. apply Exists_exists in Hex. exact Hex.
Qed.

Lemma doubled_dependency_known : known_dependencies doubled_dependency.
Proof.
  intros t dep [<-|[<-|[]]]; simpl; intuition (subst; simpl; tauto).
Qed.

Lemma topological_sort_raises_iff_witness :
  topological_sort (StateManager_init doubled_dependency)
  = Some (inl cycle_message).
Proof.
  apply (topological_sort_raises_iff doubled_dependency
           (state (StateManager_init doubled_dependency))
           doubled_dependency_known).
  right. right. exists (Samples.dep_task "b" ["a"; "a"]). split.
  - simpl. tauto.
  - simpl. intros H. inversion H as [|? ? Hn _]. apply Hn. now left.
Defined.

(** X18: the [while queue:] loop of the sort ends on every workflow,
    cyclic or not, with known or unknown dependency ids: each node is
    queued at most once. *)
Theorem topological_sort_terminates (m : StateManager) :
  exists r, topological_sort m = Some r.
Proof.
  destruct (topological_sort_run (workflow m) (state m)) as [res [d' [E _]]].
  destruct m as [wf s]. simpl in E. rewrite E. eauto.
Qed.

(** *** Sequential execution that stops at the first failure *)


Lemma NoDup_app_disjoint (l l' : list string) x :
  NoDup (l ++ l') -> In x l -> ~ In x l'.
Proof.
  induction l as [|a l IH]; simpl; [tauto|].
  intros H. inversion H as [|? ? Ha Hl]; subst.
  intros [->|Hx]; [|now apply IH].
  intros Hin. apply Ha. apply in_app_iff. now right.
Qed.




Section FailFast.

Variable now_at : nat -> Z.
Variable agent_run :
  nat -> TaskDefinition -> string -> WorkflowState -> string + string.



End FailFast.



(** *** Conditional execution does not wait for dependencies *)






Section Conditional.

Variable now_at : nat -> Z.
Variable agent_run :
  nat -> TaskDefinition -> string -> WorkflowState -> string + string.




End Conditional.




(** *** Ready tasks *)

Lemma discard_incl x l : incl (Py.discard x l) l.
Proof.
  unfold Py.discard. destruct (Py.mem x l); [|apply incl_refl].
  intros y Hy. exact (remove_In _ _ _ Hy).
Qed.

Lemma discard_NoDup x l : NoDup l -> NoDup (Py.discard x l).
Proof.
  unfold Py.discard. destruct (Py.mem x l); [apply remove_NoDup | auto].
Qed.

Lemma discard_gone x l : NoDup l -> ~ In x (Py.discard x l).
Proof.
  unfold Py.discard. destruct (Py.mem x l) eqn:E; [apply remove_gone|].
  intros _. now apply mem_false.
Qed.

Section Ready.

Variable now_at : nat -> Z.



End Ready.



(** ** Router: which executor is picked *)

Lemma key_leb_first (x y : Z * Z * Z) :
  key_leb x y = true -> fst (fst x) <= fst (fst y).
Proof.
  destruct x as [[a1 b1] c1], y as [[a2 b2] c2].
  unfold key_leb, key_ltb. simpl.
  destruct (Z.ltb_spec a2 a1); [discriminate|]. intros _. lia.
Qed.

(** X22: when the task names no executor and some configured executor
    provides the required capabilities and is below its limit, the
    executor picked is a configured one that provides the required
    capabilities, is itself below its limit, and has no higher load than
    any such executor: load comes before priority. *)
Theorem route_task_balances_load (r : TaskRouter) (t : TaskDefinition)
    (a : AgentRouting) :
  Py.truthy (agent_type t) = false ->
  In a (agent_routing r) ->
  (forall c, In c (required_capabilities t) -> In c (capabilities a)) ->
  has_capacity r a = true ->
  exists best,
    In best (agent_routing r)
    /\ route_task r t = r_agent_type best
    /\ (forall c, In c (required_capabilities t) -> In c (capabilities best))
    /\ has_capacity r best = true
    /\ get_agent_load r (r_agent_type best)
       <= get_agent_load r (r_agent_type a).
Proof.
  intros Hexp Ha Hcaps Hcap.
  assert (In a (find_suitable_agents r t)) as Hsuit.
  { apply filter_In. split; [exact Ha|]. now apply agent_matches_superset. }
  assert (In a (candidates r (find_suitable_agents r t))) as Hcand.
  { apply candidates_spec. auto. }
  unfold route_task, select_best_agent. rewrite Hexp.
  destruct (find_suitable_agents r t) as [|s0 ss] eqn:Es; [destruct Hsuit|].
  rewrite <- Es in *.
  pose proof (sort_by_head_least (sort_key r)
                (candidates r (find_suitable_agents r t))) as Hleast.
  assert (In a (sort_by (sort_key r) (candidates r (find_suitable_agents r t))))
    as Hsorted by now apply sort_by_In.
  destruct (sort_by (sort_key r) (candidates r (find_suitable_agents r t)))
    as [|best rest] eqn:Esort; [destruct Hsorted|].
  assert (In best (candidates r (find_suitable_agents r t))) as Hbest.
  { apply (sort_by_In (sort_key r)). rewrite Esort. now left. }
  apply candidates_spec in Hbest as [Hbs Hbc].
  apply filter_In in Hbs as [Hbin Hbm].
  exists best. simpl. split; [exact Hbin|]. split; [reflexivity|].
  split; [now apply agent_matches_superset|]. split.
  - destruct Hbc as [Hbc|Hnone]; [exact Hbc|].
    rewrite (Hnone a Hsuit) in Hcap. discriminate.
  - exact (key_leb_first _ _ (Hleast a Hsorted)).
Qed.

Lemma route_task_balances_load_witness :
  exists best,
    In best (agent_routing busy_router)
    /\ route_task busy_router analysis_task = r_agent_type best
    /\ (forall c, In c (required_capabilities analysis_task) ->
          In c (capabilities best))
    /\ has_capacity busy_router best = true
    /\ get_agent_load busy_router (r_agent_type best)
       <= get_agent_load busy_router "code-analyzer".
Proof.
  apply (route_task_balances_load busy_router analysis_task
           (mkRouting "code-analyzer" [CODE_ANALYSIS; DEBUGGING; GENERAL] 7 2)).
  - reflexivity.
  - simpl. tauto.
  - intros c [<-|[]]. simpl. tauto.
  - reflexivity.
Defined.

(** *** A retried task is pending again *)

Section Retried.

Variable now_at : nat -> Z.
Variable agent_run :
  nat -> TaskDefinition -> string -> WorkflowState -> string + string.
Variable t : TaskDefinition.
Variable agent : string.

(** The loop takes nothing out of the pending list, and ends with the
    task completed or failed. *)
Lemma retry_loop_outcome n : forall rc delay fuel w,
  (rc + n = max_retries (retry_config t))%nat -> (n < fuel)%nat ->
  exists w',
    retry_loop now_at agent_run fuel t agent rc delay w = Some (tt, w')
    /\ (forall x, In x (pending_tasks (state (sm w))) ->
                  In x (pending_tasks (state (sm w'))))
    /\ (In (id t) (completed_tasks (state (sm w')))
        \/ In (id t) (failed_tasks (state (sm w')))).
Proof.
  induction n as [|n IH]; intros rc delay fuel w Hrc Hfuel;
    (destruct fuel as [|fuel]; [lia|]); cbn [retry_loop]; cbv zeta;
    (replace (Nat.leb rc (max_retries (retry_config t))) with true
      by (symmetry; apply Nat.leb_le; lia)).
  - replace (Nat.ltb rc (max_retries (retry_config t))) with false
      by (symmetry; apply Nat.ltb_ge; lia).
    unfold bind at 1, execute_single_task.
    destruct (agent_run (calls w) t agent (state (sm w))); stamp;
      eexists; (split; [reflexivity|]); simpl; (split; [auto|]).
    + left. apply add_In. now left.
    + right. apply add_In. now left.
  - replace (Nat.ltb rc (max_retries (retry_config t))) with true
      by (symmetry; apply Nat.ltb_lt; lia).
    unfold bind at 1, execute_single_task.
    destruct (agent_run (calls w) t agent (state (sm w))).
    + stamp. eexists; (split; [reflexivity|]); simpl; (split; [auto|]).
      left. apply add_In. now left.
    + unfold retry_task_m, progress, emit, on_sm, bind. cbn beta iota.
      match goal with
      | |- context [retry_loop _ _ fuel t agent (S rc) ?d ?w1] =>
          destruct (IH (S rc) d fuel w1) as [w' [E [Hp Ho]]]; [lia | lia |]
      end.
      exists w'. split; [exact E|]. split; [|exact Ho].
      intros x Hx. apply Hp. simpl. apply add_In. now right.
Qed.

End Retried.

(** X23: when the first attempt of a task fails and at least one retry
    is allowed, the task id is in [pending_tasks] when the driver
    returns, whatever the later attempts do, although it is then also in
    [completed_tasks] or in [failed_tasks]: [retry_task] puts it back
    and nothing takes it out. *)
Theorem retried_task_stays_pending
    (now_at : nat -> Z)
    (agent_run : nat -> TaskDefinition -> string -> WorkflowState
                 -> string + string)
    (t : TaskDefinition) (w : World) :
  (1 <= max_retries (retry_config t))%nat ->
  (forall a s, exists msg, agent_run (calls w) t a s = inr msg) ->
  exists w',
    execute_task now_at agent_run t w = Some (tt, w')
    /\ In (id t) (pending_tasks (state (sm w')))
    /\ (In (id t) (completed_tasks (state (sm w')))
        \/ In (id t) (failed_tasks (state (sm w')))).
Proof.
  intros Hmax Hfail. rewrite execute_task_unfold.
  assert (calls (driver_start now_at t w) = calls w) as Hc by reflexivity.
  revert Hc. generalize (driver_start now_at t w). intros w1 Hc.
  remember (S (max_retries (retry_config t))) as f eqn:Hf.
  cbn [retry_loop]. cbv zeta. cbn [Nat.leb].
  replace (Nat.ltb 0 (max_retries (retry_config t))) with true
    by (symmetry; apply Nat.ltb_lt; lia).
  unfold bind at 1, execute_single_task.
  destruct (Hfail (route_task (router w) t) (state (sm w1))) as [msg Hmsg].
  rewrite Hc, Hmsg.
  unfold retry_task_m, progress, emit, on_sm, bind. cbn beta iota.
  match goal with
  | |- context [retry_loop _ _ f t ?a 1%nat ?d ?w2] =>
      destruct (retry_loop_outcome now_at agent_run t a
                  (max_retries (retry_config t) - 1) 1%nat d f w2)
        as [w' [E [Hp Ho]]]; [lia | lia |]
  end.
  exists w'. split; [exact E|]. split; [|exact Ho].
  apply Hp. simpl. apply add_In. now left.
Qed.

Lemma retried_task_stays_pending_witness :
  exists w',
    execute_task Stub.clock_ticks flaky_agent retry_twice
      (fresh_world (mkWorkflow "w" [retry_twice] SEQUENTIAL None 5 false))
    = Some (tt, w')
    /\ In "A" (pending_tasks (state (sm w')))
    /\ (In "A" (completed_tasks (state (sm w')))
        \/ In "A" (failed_tasks (state (sm w')))).
Proof.
  apply (retried_task_stays_pending Stub.clock_ticks flaky_agent retry_twice).
  - simpl. lia.
  - intros a s. exists "boom". reflexivity.
Defined.

(** *** Without a retry the lists stay disjoint *)

(** X24: on a pending task, when the four membership lists are disjoint
    and the first attempt succeeds, or fails with no retry allowed, the
    driver leaves the lists disjoint: the id has left [pending_tasks]
    and is in [completed_tasks] or [failed_tasks]. *)
Theorem unretried_task_keeps_lists_disjoint
    (now_at : nat -> Z)
    (agent_run : nat -> TaskDefinition -> string -> WorkflowState
                 -> string + string)
    (t : TaskDefinition) (w : World) :
  sets_disjoint (state (sm w)) ->
  In (id t) (pending_tasks (state (sm w))) ->
  (forall a s, exists out, agent_run (calls w) t a s = inl out)
  \/ max_retries (retry_config t) = 0%nat ->
  exists w',
    execute_task now_at agent_run t w = Some (tt, w')
    /\ sets_disjoint (state (sm w'))
    /\ ~ In (id t) (pending_tasks (state (sm w')))
    /\ (In (id t) (completed_tasks (state (sm w')))
        \/ In (id t) (failed_tasks (state (sm w')))).
Proof.
  intros Hdis Hpend Hcase. rewrite execute_task_unfold.
  assert (calls (driver_start now_at t w) = calls w) as Hc by reflexivity.
  assert (sets_disjoint (state (sm (driver_start now_at t w)))) as Hdis1.
  { apply (guarded_transitions_disjoint (sm w) (id t) (now_at (clock w)) 0
             None None "" Hdis). exact Hpend. }
  assert (In (id t) (current_tasks (state (sm (driver_start now_at t w)))))
    as Hcur.
  { simpl. apply add_In. now left. }
  assert (~ In (id t) (pending_tasks (state (sm (driver_start now_at t w)))))
    as Hnp.
  { simpl. apply discard_gone. unfold sets_disjoint in Hdis.
    now apply NoDup_app_remove_r in Hdis. }
  revert Hc Hdis1 Hcur Hnp. generalize (driver_start now_at t w).
  intros w1 Hc Hdis1 Hcur Hnp.
  remember (S (max_retries (retry_config t))) as f eqn:Hf.
  cbn [retry_loop]. cbv zeta. cbn [Nat.leb].
  unfold bind at 1, execute_single_task. rewrite Hc.
  destruct (agent_run (calls w) t (route_task (router w) t) (state (sm w1)))
    as [out|msg] eqn:Eagent.
  - stamp. eexists. split; [reflexivity|].
    cbn [sm router clock calls trace].
    destruct (guarded_transitions_disjoint (sm w1) (id t) (now_at (clock w1)) 0
                (Some out) (Some (route_task (router w) t)) "" Hdis1)
      as [_ [Hcomp _]].
    split; [exact (Hcomp Hcur)|]. split; [exact Hnp|].
    left. simpl. apply add_In. now left.
  - destruct Hcase as [Hok|Hmax].
    { destruct (Hok (route_task (router w) t) (state (sm w1))) as [out Hout].
      congruence. }
    rewrite Hmax. cbn [Nat.ltb Nat.leb].
    stamp. eexists. split; [reflexivity|].
    cbn [sm router clock calls trace].
    destruct (guarded_transitions_disjoint (sm w1) (id t) (now_at (clock w1)) 0
                None None msg Hdis1)
      as [_ [_ [Hfail _]]].
    split; [exact (Hfail Hcur)|]. split; [exact Hnp|].
    right. simpl. apply add_In. now left.
Qed.

Lemma unretried_task_keeps_lists_disjoint_witness :
  exists w',
    execute_task Stub.clock_ticks Stub.echo (Stub.once "A")
      (fresh_world (Stub.a_then_b false)) = Some (tt, w')
    /\ sets_disjoint (state (sm w'))
    /\ ~ In "A" (pending_tasks (state (sm w')))
    /\ (In "A" (completed_tasks (state (sm w')))
        \/ In "A" (failed_tasks (state (sm w')))).
Proof.
  apply (unretried_task_keeps_lists_disjoint Stub.clock_ticks Stub.echo
           (Stub.once "A") (fresh_world (Stub.a_then_b false))).
  - unfold sets_disjoint. simpl. repeat constructor; simpl; intuition discriminate.
  - simpl. tauto.
  - left. intros a s. eexists. reflexivity.
Defined.

(** ** The DAG executor when no agent call suspends *)

Lemma topological_sort_workflow m s :
  topological_sort m = topological_sort (mkSM (workflow m) s).
Proof. reflexivity. Qed.

(** What a returned order looks like. *)
Lemma sorted_order_facts wf s order :
  known_dependencies wf ->
  topological_sort (mkSM wf s) = Some (inr order) ->
  Permutation order (map id (tasks wf))
  /\ NoDup (map id (tasks wf))
  /\ forall t l1 l2, In t (tasks wf) -> order = l1 ++ id t :: l2 ->
                     incl (depends_on t) l1.
Proof.
  intros Hknown Hsort.
  destruct (topological_sort_run wf s)
    as [res [d' [E [[Hnd _ HK] [_ [_ [HO _]]]]]]].
  rewrite E in Hsort.
  destruct (Nat.eqb_spec (List.length res) (List.length (tasks wf))) as [Hlen|];
    [|discriminate].
  injection Hsort as ->. rewrite app_nil_r in *.
  destruct (in_degrees_keys wf Hknown) as [_ Hkeys].
  assert (Permutation order (map id (tasks wf))) as Hperm.
  { apply NoDup_Permutation_bis; [exact Hnd | rewrite length_map; lia |].
    intros x Hx. apply Hkeys, HK, Hx. }
  pose proof (Permutation_NoDup Hperm Hnd) as Hids.
  split; [exact Hperm|]. split; [exact Hids|].
  intros t l1 l2 Ht Hsplit.
  apply (HO l1 (id t) l2 (depends_on t) Hsplit).
  now apply graph_of_task.
Qed.

Lemma get_ready_no_conditions now_at ts : forall ready w,
  (forall t, In t ts -> condition t = None) ->
  get_ready_tasks_from now_at ts ready w
  = Some (ready ++ filter (fun t => Py.mem (id t) (pending_tasks (state (sm w)))
                                    && is_task_ready (state (sm w)) t) ts,
          w).
Proof.
  induction ts as [|t ts IH]; intros ready w Hc.
  - simpl. now rewrite app_nil_r.
  - cbn [get_ready_tasks_from filter]. unfold bind at 1, get_world.
    rewrite (Hc t (or_introl eq_refl)). cbn [Py.truthy andb].
    destruct (Py.mem (id t) (pending_tasks (state (sm w)))
              && is_task_ready (state (sm w)) t).
    + rewrite IH by (intros t' Ht'; apply Hc; now right).
      now rewrite <- app_assoc.
    + apply IH. intros t' Ht'. apply Hc. now right.
Qed.

Lemma discard_add_nil x : Py.discard x (Py.add x []) = [].
Proof.
  unfold Py.add, Py.discard. simpl. now rewrite String.eqb_refl.
Qed.

Lemma add_fresh x l : ~ In x l -> Py.add x l = l ++ [x].
Proof.
  intros H. unfold Py.add. apply mem_false in H. now rewrite H.
Qed.

Lemma discard_In x y l : In y (Py.discard x l) -> In y l.
Proof. apply discard_incl. Qed.

Lemma discard_keeps x y l : y <> x -> In y l -> In y (Py.discard x l).
Proof.
  intros Hne. unfold Py.discard. destruct (Py.mem x l); [|auto].
  induction l as [|z l IH]; simpl; [tauto|].
  destruct (String.eqb_spec x z) as [->|Hz].
  - intros [H|H]; [congruence | exact H].
  - intros [H|H]; [now left | right; auto].
Qed.

Lemma discard_length x l :
  In x l -> S (List.length (Py.discard x l)) = List.length l.
Proof.
  intros H. unfold Py.discard.
  replace (Py.mem x l) with true by (symmetry; now apply mem_In).
  induction l as [|z l IH]; simpl; [destruct H|].
  destruct (String.eqb_spec x z) as [->|Hz]; [reflexivity|].
  simpl. rewrite IH; [reflexivity|]. destruct H; congruence.
Qed.

Lemma same_id_same_task (ts : list TaskDefinition) t t' :
  NoDup (map id ts) -> In t ts -> In t' ts -> id t = id t' -> t = t'.
Proof.
  induction ts as [|a ts IH]; simpl; [tauto|].
  intros H. inversion H as [|? ? Ha Hts]; subst.
  intros [->|Ht] [->|Ht'] Heq; auto.
  - exfalso. apply Ha. rewrite Heq. now apply in_map.
  - exfalso. apply Ha. rewrite <- Heq. now apply in_map.
Qed.

Lemma first_pending (pend : list string) : forall order,
  (exists x, In x order /\ In x pend) ->
  exists l1 x l2,
    order = l1 ++ x :: l2 /\ In x pend /\ forall y, In y l1 -> ~ In y pend.
Proof.
  induction order as [|a order IH]; intros [x [Hx Hp]]; [destruct Hx|].
  destruct (in_dec string_dec a pend) as [Ha|Ha].
  - exists [], a, order. split; [reflexivity|]. split; [exact Ha|]. intros y [].
  - destruct IH as [l1 [x' [l2 [-> [Hx' Hl1]]]]].
    + exists x. split; [|exact Hp]. destruct Hx as [->|Hx]; [contradiction | exact Hx].
    + exists (a :: l1), x', l2. split; [reflexivity|]. split; [exact Hx'|].
      intros y [<-|Hy]; auto.
Qed.

Lemma NoDup_map_filter {A} (f : A -> string) (p : A -> bool) (l : list A) :
  NoDup (map f l) -> NoDup (map f (filter p l)).
Proof.
  induction l as [|a l IH]; simpl; [auto|].
  intros H. inversion H as [|? ? Ha Hl]; subst.
  destruct (p a); simpl; [|auto].
  constructor; [|auto]. intros Hin. apply Ha.
  apply in_map_iff in Hin as [b [<- Hb]]. apply filter_In in Hb as [Hb _].
  now apply in_map.
Qed.

Lemma firstn_incl {A} n (l : list A) : incl (firstn n l) l.
Proof.
  intros x Hx. rewrite <- (firstn_skipn n l). apply in_app_iff. now left.
Qed.

Lemma NoDup_map_firstn {A} (f : A -> string) n (l : list A) :
  NoDup (map f l) -> NoDup (map f (firstn n l)).
Proof.
  intros H. rewrite <- (firstn_skipn n l), map_app in H.
  exact (NoDup_app_remove_r _ _ H).
Qed.

Section DagRun.

Variable now_at : nat -> Z.
Variable agent_run :
  nat -> TaskDefinition -> string -> WorkflowState -> string + string.
Hypothesis always_succeeds :
  forall k t a s, exists out, agent_run k t a s = inl out.

(** The driver on a task whose first attempt succeeds: where the id
    goes. *)
Lemma execute_task_moves t w :
  exists w',
    execute_task now_at agent_run t w = Some (tt, w')
    /\ calls w' = S (calls w)
    /\ workflow (sm w') = workflow (sm w)
    /\ pending_tasks (state (sm w'))
       = Py.discard (id t) (pending_tasks (state (sm w)))
    /\ current_tasks (state (sm w'))
       = Py.discard (id t) (Py.add (id t) (current_tasks (state (sm w))))
    /\ completed_tasks (state (sm w'))
       = Py.add (id t) (completed_tasks (state (sm w)))
    /\ failed_tasks (state (sm w')) = failed_tasks (state (sm w))
    /\ (exists r, Py.get (task_results (state (sm w'))) (id t) = Some r
                  /\ status r = COMPLETED)
    /\ (forall x, x <> id t ->
          Py.get (task_results (state (sm w'))) x
          = Py.get (task_results (state (sm w))) x).
Proof.
  destruct (execute_task_frame now_at agent_run t w) as [w2 [E2 [_ [_ Hfr]]]].
  rewrite execute_task_unfold in *.
  assert (exists r0, Py.get (task_results (state (sm (driver_start now_at t w))))
                       (id t) = Some r0) as [r0 Hr0].
  { simpl. destruct (Py.get (task_results (state (sm w))) (id t));
      eexists; apply get_set_same. }
  assert (calls (driver_start now_at t w) = calls w) as Hc by reflexivity.
  assert (workflow (sm (driver_start now_at t w)) = workflow (sm w)) as Hw
      by reflexivity.
  assert (pending_tasks (state (sm (driver_start now_at t w)))
          = Py.discard (id t) (pending_tasks (state (sm w)))) as Hp
      by reflexivity.
  assert (current_tasks (state (sm (driver_start now_at t w)))
          = Py.add (id t) (current_tasks (state (sm w)))) as Hcu
      by reflexivity.
  assert (completed_tasks (state (sm (driver_start now_at t w)))
          = completed_tasks (state (sm w))) as Hco by reflexivity.
  assert (failed_tasks (state (sm (driver_start now_at t w)))
          = failed_tasks (state (sm w))) as Hf by reflexivity.
  revert E2 Hr0 Hc Hw Hp Hcu Hco Hf. generalize (driver_start now_at t w).
  intros w1 E2 Hr0 Hc Hw Hp Hcu Hco Hf.
  remember (S (max_retries (retry_config t))) as f eqn:Hfuel.
  cbn [retry_loop] in *. cbv zeta in *. cbn [Nat.leb] in *.
  unfold bind at 1, execute_single_task in E2.
  unfold bind at 1, execute_single_task.
  destruct (always_succeeds (calls w1) t (route_task (router w) t)
              (state (sm w1))) as [out Hout].
  rewrite Hout in *.
  unfold bind in E2. rewrite complete_task_m_run in E2. cbn beta iota in E2.
  stamp. eexists. split; [reflexivity|].
  assert (forall x, x <> id t ->
            Py.get (task_results (state (sm w2))) x
            = Py.get (task_results (state (sm w))) x) as Hother.
  { intros x Hx. exact (proj1 (Hfr x Hx)). }
  injection E2 as <-. simpl in Hother |- *.
  split; [congruence|]. split; [exact Hw|].
  split; [exact Hp|]. split; [now rewrite Hcu|].
  split; [now rewrite Hco|]. split; [exact Hf|]. split; [|exact Hother].
  rewrite Hr0. eexists. split; [apply get_set_same | reflexivity].
Qed.

Variable wf : WorkflowDefinition.
Variable c0 : nat.
Hypothesis known : known_dependencies wf.
Hypothesis ids_nodup : NoDup (map id (tasks wf)).

(** Under the invariant a dependency is [COMPLETED] exactly when it is
    in the completed list. *)
Lemma dag_inv_ready w t :
  dag_inv wf c0 w -> In t (tasks wf) ->
  (is_task_ready (state (sm w)) t = true
   <-> incl (depends_on t) (completed_tasks (state (sm w)))).
Proof.
  intros Hinv Ht. unfold is_task_ready. rewrite forallb_forall. split.
  - intros H d Hd. specialize (H d Hd).
    assert (In d (map id (tasks wf))) as Hid by exact (known t d Ht Hd).
    apply (di_ids _ _ _ Hinv) in Hid. apply in_app_iff in Hid as [Hp|Hc];
      [|exact Hc].
    exfalso. unfold get_task_status in H.
    rewrite (di_pending _ _ _ Hinv d Hp), (di_current _ _ _ Hinv) in H.
    simpl in H. apply mem_In in Hp. rewrite Hp in H. discriminate H.
  - intros H d Hd. destruct (di_completed _ _ _ Hinv d (H d Hd)) as [r [Hr Hs]].
    unfold get_task_status. now rewrite Hr, Hs.
Qed.

(** One driver call on a pending task whose dependencies are completed
    keeps the invariant. *)
Lemma dag_inv_step w t :
  dag_inv wf c0 w -> In t (tasks wf) ->
  In (id t) (pending_tasks (state (sm w))) ->
  incl (depends_on t) (completed_tasks (state (sm w))) ->
  exists w',
    execute_task now_at agent_run t w = Some (tt, w')
    /\ dag_inv wf c0 w'
    /\ pending_tasks (state (sm w'))
       = Py.discard (id t) (pending_tasks (state (sm w)))
    /\ completed_tasks (state (sm w'))
       = completed_tasks (state (sm w)) ++ [id t].
Proof.
  intros Hinv Ht Hpend Hdeps.
  destruct (execute_task_moves t w)
    as [w' [E [Hc [Hw [Hp [Hcu [Hco [Hf [Hres Hother]]]]]]]]].
  pose proof (di_nodup _ _ _ Hinv) as Hnd.
  assert (~ In (id t) (completed_tasks (state (sm w)))) as Hfresh.
  { intros H. exact (NoDup_app_disjoint _ _ _ Hnd Hpend H). }
  rewrite (add_fresh _ _ Hfresh) in Hco.
  assert (NoDup (pending_tasks (state (sm w)))) as Hndp
      by exact (NoDup_app_remove_r _ _ Hnd).
  exists w'. split; [exact E|]. split; [|split; [exact Hp | exact Hco]].
  constructor.
  - rewrite Hw. exact (di_workflow _ _ _ Hinv).
  - rewrite Hcu, (di_current _ _ _ Hinv). apply discard_add_nil.
  - rewrite Hf. exact (di_failed _ _ _ Hinv).
  - rewrite Hp, Hco, app_assoc. apply NoDup_app.
    + apply NoDup_app.
      * now apply discard_NoDup.
      * now apply NoDup_app_remove_l in Hnd.
      * intros x Hx Hx'. apply discard_In in Hx.
        exact (NoDup_app_disjoint _ _ _ Hnd Hx Hx').
    + repeat constructor. simpl. tauto.
    + intros x Hx [<-|[]]. apply in_app_iff in Hx as [Hx|Hx].
      * exact (discard_gone _ _ Hndp Hx).
      * exact (Hfresh Hx).
  - intros x. rewrite (di_ids _ _ _ Hinv x), Hp, Hco, !in_app_iff. simpl.
    split.
    + intros [Hx|Hx]; [|tauto].
      destruct (String.eqb_spec x (id t)) as [->|Hne]; [tauto|].
      left. now apply discard_keeps.
    + intros [Hx|[Hx|[<-|[]]]]; [left; now apply discard_In in Hx | tauto | tauto].
  - intros x Hx. rewrite Hp in Hx.
    assert (x <> id t) as Hne.
    { intros ->. exact (discard_gone _ _ Hndp Hx). }
    rewrite (Hother x Hne). apply (di_pending _ _ _ Hinv).
    now apply discard_In in Hx.
  - intros x Hx. rewrite Hco in Hx. apply in_app_iff in Hx as [Hx|[<-|[]]].
    + assert (x <> id t) as Hne by (intros ->; exact (Hfresh Hx)).
      rewrite (Hother x Hne). now apply (di_completed _ _ _ Hinv).
    + exact Hres.
  - intros t' l1 l2 Ht' Hsplit. rewrite Hco in Hsplit.
    destruct l2 as [|y l2] using rev_ind.
    + apply app_inj_tail in Hsplit as [<- Hid].
      rewrite (same_id_same_task _ _ _ ids_nodup Ht' Ht (eq_sym Hid)).
      exact Hdeps.
    + clear IHl2. rewrite app_comm_cons, app_assoc in Hsplit.
      apply app_inj_tail in Hsplit as [Hs _].
      exact (di_order _ _ _ Hinv t' l1 l2 Ht' Hs).
  - rewrite Hc, Hco, length_app, (di_calls _ _ _ Hinv). simpl. lia.
Qed.

(** A batch of ready tasks, run one driver after the other. *)
Lemma dag_inv_batch batch : forall w,
  dag_inv wf c0 w ->
  NoDup (map id batch) ->
  (forall t, In t batch ->
     In t (tasks wf) /\ In (id t) (pending_tasks (state (sm w)))
     /\ incl (depends_on t) (completed_tasks (state (sm w)))) ->
  exists w',
    run_all now_at agent_run batch w = Some (tt, w')
    /\ dag_inv wf c0 w'
    /\ (List.length (pending_tasks (state (sm w'))) + List.length batch
        = List.length (pending_tasks (state (sm w))))%nat.
Proof.
  unfold run_all.
  induction batch as [|t batch IH]; intros w Hinv Hnd Hall.
  - exists w. split; [reflexivity|]. split; [exact Hinv|]. simpl. lia.
  - inversion Hnd as [|? ? Ht_fresh Hnd']; subst.
    destruct (Hall t (or_introl eq_refl)) as [Ht [Hp Hd]].
    destruct (dag_inv_step w t Hinv Ht Hp Hd) as [w1 [E1 [Hinv1 [Hp1 Hc1]]]].
    cbn [for_each]. unfold bind at 1. rewrite E1.
    destruct (IH w1 Hinv1 Hnd') as [w' [E' [Hinv' Hlen']]].
    + intros t' Ht'. destruct (Hall t' (or_intror Ht')) as [A [B C]].
      split; [exact A|]. split.
      * rewrite Hp1. apply discard_keeps; [|exact B].
        intros Heq. apply Ht_fresh. rewrite <- Heq. now apply in_map.
      * rewrite Hc1. now apply incl_appl.
    + exists w'. split; [exact E'|]. split; [exact Hinv'|].
      rewrite Hp1 in Hlen'. pose proof (discard_length _ _ Hp) as Hl.
      simpl. lia.
Qed.

Variable order : list string.
Hypothesis order_perm : Permutation order (map id (tasks wf)).
Hypothesis order_deps :
  forall t l1 l2, In t (tasks wf) -> order = l1 ++ id t :: l2 ->
                  incl (depends_on t) l1.

(** While a task is pending, some pending task has all its dependencies
    completed: the first pending one in the sorted order. *)
Lemma ready_nonempty w :
  dag_inv wf c0 w -> pending_tasks (state (sm w)) <> [] ->
  filter (fun t => Py.mem (id t) (pending_tasks (state (sm w)))
                   && is_task_ready (state (sm w)) t) (tasks wf) <> [].
Proof.
  intros Hinv Hne.
  destruct (pending_tasks (state (sm w))) as [|p ps] eqn:Ep; [congruence|].
  rewrite <- Ep in *. clear Hne.
  assert (In p (pending_tasks (state (sm w)))) as Hp by (rewrite Ep; now left).
  assert (forall x, In x (pending_tasks (state (sm w))) -> In x order) as Hpo.
  { intros x Hx. apply (Permutation_in _ (Permutation_sym order_perm)).
    apply (di_ids _ _ _ Hinv). apply in_app_iff. now left. }
  destruct (first_pending (pending_tasks (state (sm w))) order)
    as [l1 [x [l2 [Hsplit [Hx Hl1]]]]]; [exists p; auto|].
  assert (In x (map id (tasks wf))) as Hxi.
  { apply (di_ids _ _ _ Hinv). apply in_app_iff. now left. }
  apply in_map_iff in Hxi as [t [Hid Ht]]. subst x.
  assert (incl (depends_on t) (completed_tasks (state (sm w)))) as Hd.
  { intros d Hdd. pose proof (order_deps t l1 l2 Ht Hsplit d Hdd) as Hdl.
    assert (In d (map id (tasks wf))) as Hdi by exact (known t d Ht Hdd).
    apply (di_ids _ _ _ Hinv) in Hdi. apply in_app_iff in Hdi as [H|H];
      [|exact H].
    exfalso. exact (Hl1 d Hdl H). }
  intros Hnil.
  assert (In t (filter (fun t => Py.mem (id t) (pending_tasks (state (sm w)))
                                 && is_task_ready (state (sm w)) t) (tasks wf)))
    as Hin.
  { apply filter_In. split; [exact Ht|]. apply andb_true_iff. split.
    - now apply mem_In.
    - now apply (dag_inv_ready w t Hinv Ht). }
  rewrite Hnil in Hin. exact Hin.
Qed.

Hypothesis no_conditions : forall t, In t (tasks wf) -> condition t = None.
Hypothesis room_for_one : (1 <= max_parallel_tasks wf)%nat.

Lemma dag_loop_completes fuel : forall w,
  dag_inv wf c0 w ->
  (List.length (pending_tasks (state (sm w))) < fuel)%nat ->
  exists w',
    dag_loop now_at (run_first now_at agent_run) (run_all now_at agent_run)
      fuel [] w = Some (tt, w')
    /\ dag_inv wf c0 w'
    /\ pending_tasks (state (sm w')) = [].
Proof.
  induction fuel as [|fuel IH]; intros w Hinv Hfuel; [lia|].
  cbn [dag_loop]. unfold bind at 1, get_world.
  unfold is_workflow_complete. rewrite (di_current _ _ _ Hinv).
  destruct (pending_tasks (state (sm w))) as [|p ps] eqn:Ep.
  - exists w. split; [reflexivity|]. split; [exact Hinv | exact Ep].
  - cbn [List.length Nat.eqb andb]. rewrite <- Ep in *.
    unfold bind at 1, get_ready_tasks. unfold bind at 1, get_world.
    rewrite (di_workflow _ _ _ Hinv).
    rewrite (get_ready_no_conditions now_at (tasks wf) [] w no_conditions).
    cbn [app]. unfold bind at 1, get_world.
    assert (stop_on_failure w = false) as ->.
    { unfold stop_on_failure, has_failed_tasks.
      rewrite (di_failed _ _ _ Hinv). apply andb_false_r. }
    rewrite (di_workflow _ _ _ Hinv). cbn [List.length app].
    pose proof (ready_nonempty w Hinv) as Hready.
    set (ready := filter (fun t => Py.mem (id t) (pending_tasks (state (sm w)))
                                   && is_task_ready (state (sm w)) t)
                         (tasks wf)) in *.
    assert (forall t, In t ready ->
              In t (tasks wf) /\ In (id t) (pending_tasks (state (sm w)))
              /\ incl (depends_on t) (completed_tasks (state (sm w)))) as Hok.
    { intros t Ht. apply filter_In in Ht as [Ht Hb].
      apply andb_true_iff in Hb as [Hm Hr]. split; [exact Ht|]. split.
      - now apply mem_In.
      - now apply (dag_inv_ready w t Hinv Ht). }
    assert (NoDup (map id ready)) as Hndr by now apply NoDup_map_filter.
    set (batch := firstn (max_parallel_tasks wf - 0) ready).
    assert (batch <> []) as Hbatch.
    { unfold batch. destruct ready as [|r0 rs]; [exfalso; apply Hready; [rewrite Ep; discriminate | reflexivity]|].
      destruct (max_parallel_tasks wf - 0)%nat eqn:En; [lia|]. discriminate. }
    destruct (dag_inv_batch batch w Hinv) as [w1 [E1 [Hinv1 Hlen1]]].
    + unfold batch. now apply NoDup_map_firstn.
    + intros t Ht. apply Hok. exact (firstn_incl _ _ _ Ht).
    + destruct batch as [|b0 bs] eqn:Eb; [congruence|]. rewrite <- Eb in *.
      unfold bind at 1, run_first. unfold bind at 1. rewrite E1.
      unfold ret. apply IH; [exact Hinv1|].
      assert (List.length batch <> 0%nat) by (rewrite Eb; discriminate).
      lia.
Qed.

End DagRun.

(** X25: the DAG executor on a workflow that passes validation (every
    [depends_on] id names a task, the sort returns an order), without
    conditions and with room for at least one task, when every agent
    call succeeds and returns without suspending: the workflow ends
    [completed], every task is completed with exactly one agent call,
    and [completed_tasks] lists every task after all its
    dependencies. *)
Theorem dag_workflow_completes
    (now_at : nat -> Z)
    (agent_run : nat -> TaskDefinition -> string -> WorkflowState
                 -> string + string)
    (fuel : nat) (wf : WorkflowDefinition) (w : World) (order : list string) :
  execution_strategy wf = DAG ->
  known_dependencies wf ->
  topological_sort (StateManager_init wf) = Some (inr order) ->
  (forall t, In t (tasks wf) -> condition t = None) ->
  (1 <= max_parallel_tasks wf)%nat ->
  (forall k t a s, exists out, agent_run k t a s = inl out) ->
  (List.length (tasks wf) < fuel)%nat ->
  exists w',
    execute_workflow now_at agent_run (run_first now_at agent_run)
      (run_all now_at agent_run) fuel wf false w = Some (tt, w')
    /\ wstatus (state (sm w')) = WfCompleted
    /\ calls w' = (calls w + List.length (tasks wf))%nat
    /\ (forall t, In t (tasks wf) -> completed_result (state (sm w')) (id t))
    /\ Permutation (completed_tasks (state (sm w'))) (map id (tasks wf))
    /\ (forall t l1 l2, In t (tasks wf) ->
          completed_tasks (state (sm w')) = l1 ++ id t :: l2 ->
          incl (depends_on t) l1).
Proof.
  intros Hstrat Hknown Hsort Hcond Hroom Hok Hfuel.
  destruct (sorted_order_facts wf _ order Hknown Hsort)
    as [Hperm [Hids Hdeps]].
  rewrite execute_workflow_steps, Hstrat. cbn [create_executor].
  unfold DAGExecutor_execute. unfold bind at 1, get_world.
  change (topological_sort (sm (started_world now_at wf w)))
    with (topological_sort (StateManager_init wf)).
  rewrite Hsort.
  destruct (dag_loop_completes now_at agent_run Hok wf (calls w) Hknown Hids
              order Hperm Hdeps Hcond Hroom fuel (started_world now_at wf w))
    as [w1 [E1 [Hinv1 Hp1]]].
  - constructor; simpl; try reflexivity.
    + now rewrite app_nil_r.
    + intros x. rewrite app_nil_r. tauto.
    + intros x [].
    + intros t l1 l2 _ H. destruct l1; discriminate.
    + lia.
  - simpl. rewrite length_map. exact Hfuel.
  - rewrite E1.
    destruct (finish_workflow_returned now_at wf w1 w1)
      as [w' [E' [Hf' [Hcomp' [Hres' Hs']]]]].
    exists w'. split; [exact E'|].
    assert (has_failed_tasks (sm w1) = false) as Hnf.
    { unfold has_failed_tasks. now rewrite (di_failed _ _ _ Hinv1). }
    rewrite Hnf in Hs'. simpl in Hs'.
    pose proof (di_nodup _ _ _ Hinv1) as Hnd. rewrite Hp1 in Hnd.
    simpl in Hnd.
    assert (Permutation (completed_tasks (state (sm w1))) (map id (tasks wf)))
      as Hpc.
    { apply NoDup_Permutation; [exact Hnd | exact Hids |].
      intros x. rewrite (di_ids _ _ _ Hinv1 x), Hp1. simpl. tauto. }
    split; [exact Hs'|]. split; [|split; [|split]].
    + unfold finish_workflow in E'. rewrite Hnf in E'. simpl in E'.
      injection E' as <-. simpl.
      rewrite (di_calls _ _ _ Hinv1), (Permutation_length Hpc), length_map.
      reflexivity.
    + intros t Ht.
      assert (In (id t) (completed_tasks (state (sm w1)))) as Hin.
      { apply (Permutation_in _ (Permutation_sym Hpc)). now apply in_map. }
      split; [now rewrite Hcomp'|].
      rewrite Hres'. exact (di_completed _ _ _ Hinv1 _ Hin).
    + now rewrite Hcomp'.
    + rewrite Hcomp'. exact (di_order _ _ _ Hinv1).
Qed.

Lemma dag_workflow_completes_witness :
  exists w',
    execute_workflow Stub.clock_ticks Stub.echo
      (run_first Stub.clock_ticks Stub.echo)
      (run_all Stub.clock_ticks Stub.echo) 16 Samples.chain false
      (fresh_world Samples.chain) = Some (tt, w')
    /\ wstatus (state (sm w')) = WfCompleted
    /\ calls w' = 3%nat.
Proof.
  destruct (dag_workflow_completes Stub.clock_ticks Stub.echo 16 Samples.chain
              (fresh_world Samples.chain) ["A"; "B"; "C"])
    as [w' [E [Hs [Hc _]]]].
  - reflexivity.
  - exact chain_known.
  - reflexivity.
  - intros t [<-|[<-|[<-|[]]]]; reflexivity.
  - simpl. lia.
  - intros k t a s. eexists. reflexivity.
  - simpl. lia.
  - exists w'. split; [exact E|]. split; [exact Hs | exact Hc].
Defined.

(** ** Ad-hoc execution of one task *)

(** X26: ad-hoc execution of a task that lists any dependency never
    invokes the agent and finds no result to return (the [KeyError] of
    [state.task_results[task.id]]): in the one-task workflow the
    dependency can never be completed, whether validation raises or
    not, whatever the agent and the event loop do. *)
Theorem adhoc_task_with_dependency_has_no_result
    (now_at : nat -> Z)
    (agent_run : nat -> TaskDefinition -> string -> WorkflowState
                 -> string + string)
    (wait_first_completed : list TaskDefinition -> M (list TaskDefinition))
    (wait_all : list TaskDefinition -> M unit)
    (fuel : nat) (t : TaskDefinition) (workflow_id : string) (w : World) :
  depends_on t <> [] ->
  (0 < fuel)%nat ->
  exists w',
    TaskOrchestrator_execute_task now_at agent_run wait_first_completed
      wait_all fuel t workflow_id w = Some (None, w')
    /\ calls w' = calls w
    /\ trace w' = trace w ++ [EvProgress (state (sm w'))].
Proof.
  intros Hdeps Hfuel.
  unfold TaskOrchestrator_execute_task. unfold bind at 1.
  rewrite execute_workflow_steps.
  change (execution_strategy (adhoc_workflow t workflow_id)) with DAG.
  cbn [create_executor].
  unfold DAGExecutor_execute. unfold bind at 1, get_world.
  set (wf := adhoc_workflow t workflow_id).
  set (w0 := started_world now_at wf w).
  assert (is_task_ready (state (sm w0)) t = false) as Hnr.
  { unfold is_task_ready. destruct (depends_on t) as [|d ds]; [congruence|].
    cbn [forallb]. unfold get_task_status. simpl.
    destruct (String.eqb d (id t)); reflexivity. }
  assert (forall w1, task_results (state (sm w1)) = [] ->
            calls w1 = calls w -> trace w1 = trace w ->
            exists w',
              match finish_workflow now_at wf (Returned w1) w1 with
              | Some (_, w2) =>
                  (w3 <- get_world ;;
                   ret (Py.get (task_results (state (sm w3))) (id t))) w2
              | None => None
              end = Some (None, w')
              /\ calls w' = calls w
              /\ trace w' = trace w ++ [EvProgress (state (sm w'))]) as Htail.
  { intros w1 Hr1 Hc1 Ht1.
    destruct (finish_workflow_returned now_at wf w1 w1)
      as [w' [E' [_ [_ [Hres' _]]]]].
    rewrite E'. unfold bind at 1, get_world. unfold ret.
    rewrite Hres', Hr1. exists w'. split; [reflexivity|].
    unfold finish_workflow in E'.
    destruct (has_failed_tasks (sm w1) && negb (continue_on_failure wf));
      simpl in E'; injection E' as <-; simpl; rewrite Ht1; auto. }
  destruct (topological_sort_total (sm w0)) as [[e|ord] ->].
  - apply Htail; reflexivity.
  - destruct fuel as [|fuel]; [lia|].
    cbn [dag_loop]. unfold bind at 1, get_world.
    change (is_workflow_complete (sm w0)) with false. cbv iota.
    unfold bind at 1, get_ready_tasks. unfold bind at 1, get_world.
    change (tasks (workflow (sm w0))) with [t].
    cbn [get_ready_tasks_from]. unfold bind at 1, get_world.
    rewrite Hnr, andb_false_r. unfold ret at 1.
    unfold bind at 1, get_world.
    change (stop_on_failure w0) with false. cbv iota.
    apply Htail; reflexivity.
Qed.

Lemma adhoc_task_with_dependency_has_no_result_witness :
  exists w',
    TaskOrchestrator_execute_task Stub.clock_ticks Stub.echo
      (run_first Stub.clock_ticks Stub.echo)
      (run_all Stub.clock_ticks Stub.echo) 16 (Samples.dep_task "B" ["A"])
      "adhoc" (fresh_world (adhoc_workflow (Samples.dep_task "B" ["A"]) "adhoc"))
    = Some (None, w')
    /\ calls w' = 0%nat.
Proof.
  destruct (adhoc_task_with_dependency_has_no_result Stub.clock_ticks
              Stub.echo (run_first Stub.clock_ticks Stub.echo)
              (run_all Stub.clock_ticks Stub.echo) 16
              (Samples.dep_task "B" ["A"]) "adhoc"
              (fresh_world (adhoc_workflow (Samples.dep_task "B" ["A"])
                              "adhoc")))
    as [w' [E [Hc _]]].
  - discriminate.
  - lia.
  - exists w'. split; [exact E | exact Hc].
Defined.

(** ** Executors that attempt every task *)

Section Attempts.

Variable now_at : nat -> Z.
Variable agent_run :
  nat -> TaskDefinition -> string -> WorkflowState -> string + string.



Variable wf : WorkflowDefinition.


End Attempts.



(** ** Backoff delays of the driver *)







Section Sleeps.

Variable now_at : nat -> Z.
Variable agent_run :
  nat -> TaskDefinition -> string -> WorkflowState -> string + string.
Variable t : TaskDefinition.
Variable agent : string.


End Sleeps.


(** ** Dependency chains *)

Lemma get_task_by_id_id m x t :
  get_task_by_id m x = Some t -> In t (tasks (workflow m)) /\ id t = x.
Proof.
  unfold get_task_by_id. intros H. apply find_some in H as [H1 H2].
  apply String.eqb_eq in H2. auto.
Qed.

Lemma filter_length_le {A} (p q : A -> bool) (l : list A) :
  (forall x, q x = true -> p x = true) ->
  (List.length (filter q l) <= List.length (filter p l))%nat.
Proof.
  intros H. induction l as [|a l IH]; simpl; [lia|].
  destruct (q a) eqn:Eq.
  - rewrite (H a Eq). simpl. lia.
  - destruct (p a); simpl; lia.
Qed.

Lemma filter_length_lt {A} (p q : A -> bool) (l : list A) a :
  (forall x, q x = true -> p x = true) ->
  In a l -> p a = true -> q a = false ->
  (List.length (filter q l) < List.length (filter p l))%nat.
Proof.
  intros H. induction l as [|b l IH]; simpl; [tauto|].
  intros [->|Hin] Hp Hq.
  - rewrite Hp, Hq. simpl. pose proof (filter_length_le p q l H). lia.
  - specialize (IH Hin Hp Hq). destruct (q b) eqn:Eq.
    + rewrite (H b Eq). simpl. lia.
    + destruct (p b); simpl; lia.
Qed.

Lemma unvisited_mono m a b :
  incl a b -> (unvisited m b <= unvisited m a)%nat.
Proof.
  intros H. apply filter_length_le. intros x Hx.
  apply negb_true_iff in Hx. apply negb_true_iff.
  apply mem_false. intros Hin. apply mem_false in Hx. apply Hx, H, Hin.
Qed.

Lemma unvisited_visit m tid visited t :
  get_task_by_id m tid = Some t -> ~ In tid visited ->
  (unvisited m (tid :: visited) < unvisited m visited)%nat.
Proof.
  intros Ht Hn. apply get_task_by_id_id in Ht as [Hin <-].
  apply filter_length_lt with (a := id t).
  - intros x Hx. apply negb_true_iff in Hx. apply negb_true_iff.
    apply mem_false. intros H. apply mem_false in Hx. apply Hx. now right.
  - now apply in_map.
  - apply negb_true_iff. now apply mem_false.
  - apply negb_false_iff. apply mem_In. now left.
Qed.

Section Chain.

Variable m : StateManager.

Lemma traversed_nothing from visited chain :
  traversed m from visited visited chain chain [].
Proof.
  constructor.
  - now rewrite app_nil_r.
  - apply incl_refl.
  - intros x [].
  - constructor.
  - intros x _ Hx. now left.
  - intros x t [].
  - intros n1 x n2 t d H. destruct n1; discriminate.
Qed.

(** Two calls in a row. *)
Lemma traversed_seq from1 from2 visited v1 v chain c1 c new1 new2 :
  traversed m from1 visited v1 chain c1 new1 ->
  traversed m from2 v1 v c1 c new2 ->
  traversed m (from1 ++ from2) visited v chain c (new1 ++ new2).
Proof.
  intros T1 T2. constructor.
  - rewrite (tr_chain _ _ _ _ _ _ _ T2), (tr_chain _ _ _ _ _ _ _ T1).
    now rewrite app_assoc.
  - eapply incl_tran; [exact (tr_visited _ _ _ _ _ _ _ T1)|].
    exact (tr_visited _ _ _ _ _ _ _ T2).
  - intros x Hx. apply in_app_iff in Hx as [Hx|Hx].
    + destruct (tr_new _ _ _ _ _ _ _ T1 x Hx) as [A [B [C [a [Ha Hr]]]]].
      split; [exact A|]. split; [exact B|]. split.
      * exact (tr_visited _ _ _ _ _ _ _ T2 x C).
      * exists a. split; [apply in_app_iff; now left | exact Hr].
    + destruct (tr_new _ _ _ _ _ _ _ T2 x Hx) as [A [B [C [a [Ha Hr]]]]].
      split; [exact A|]. split.
      * intros H. apply B. exact (tr_visited _ _ _ _ _ _ _ T1 x H).
      * split; [exact C|]. exists a. split; [apply in_app_iff; now right | exact Hr].
  - apply NoDup_app.
    + exact (tr_nodup _ _ _ _ _ _ _ T1).
    + exact (tr_nodup _ _ _ _ _ _ _ T2).
    + intros x H1 H2.
      destruct (tr_new _ _ _ _ _ _ _ T1 x H1) as [_ [_ [C _]]].
      destruct (tr_new _ _ _ _ _ _ _ T2 x H2) as [_ [B _]]. exact (B C).
  - intros x Hx Hv.
    destruct (tr_appended _ _ _ _ _ _ _ T2 x Hx Hv) as [H|H].
    + destruct (tr_appended _ _ _ _ _ _ _ T1 x Hx H) as [H'|H'];
        [now left | right; apply in_app_iff; now left].
    + right. apply in_app_iff. now right.
  - intros x t Hx Ht. apply in_app_iff in Hx as [Hx|Hx].
    + eapply incl_tran; [exact (tr_closed _ _ _ _ _ _ _ T1 x t Hx Ht)|].
      exact (tr_visited _ _ _ _ _ _ _ T2).
    + exact (tr_closed _ _ _ _ _ _ _ T2 x t Hx Ht).
  - intros n1 x n2 t d Hsplit Ht Hd Htd.
    assert (In d v1 -> In d visited \/ In d new1) as Hv1
        by (intros H; exact (tr_appended _ _ _ _ _ _ _ T1 d Htd H)).
    apply app_eq_app in Hsplit as [l [[E1 E2]|[E1 E2]]].
    + destruct l as [|y l].
      * simpl in E2. rewrite app_nil_r in E1. subst n1.
        destruct (tr_order _ _ _ _ _ _ _ T2 [] x n2 t d (eq_sym E2) Ht Hd Htd)
          as [H|[[]|H]]; [|now right; right].
        destruct (Hv1 H); [now left | right; now left].
      * injection E2 as Hxy E2. subst y.
        exact (tr_order _ _ _ _ _ _ _ T1 n1 x l t d E1 Ht Hd Htd).
    + destruct (tr_order _ _ _ _ _ _ _ T2 l x n2 t d E2 Ht Hd Htd)
        as [H|[H|H]].
      * destruct (Hv1 H) as [H'|H']; [now left|].
        right. left. rewrite E1. apply in_app_iff. now left.
      * right. left. rewrite E1. apply in_app_iff. now right.
      * now right; right.
Qed.

Lemma traverse_spec fuel : forall tid visited chain,
  (unvisited m visited < fuel)%nat ->
  exists v c new,
    traverse fuel m tid (visited, chain) = Some (v, c)
    /\ traversed m [tid] visited v chain c new
    /\ In tid v
    /\ (~ In tid visited -> is_task m tid -> exists n, new = n ++ [tid]).
Proof.
  induction fuel as [|f IH]; intros tid visited chain Hfuel; [lia|].
  cbn [traverse]. destruct (Py.mem tid visited) eqn:Em.
  - exists visited, chain, []. split; [reflexivity|].
    split; [apply traversed_nothing|]. apply mem_In in Em.
    split; [exact Em|]. intros H. contradiction.
  - apply mem_false in Em.
    destruct (get_task_by_id m tid) as [t|] eqn:Et.
    + pose proof (unvisited_visit m tid visited t Et Em) as Hless.
      assert (forall deps visited1 chain1,
                (unvisited m visited1 < f)%nat ->
                exists v c new,
                  fold_left
                    (fun acc dep =>
                       match acc with
                       | Some st' => traverse f m dep st'
                       | None => None
                       end) deps (Some (visited1, chain1)) = Some (v, c)
                  /\ traversed m deps visited1 v chain1 c new
                  /\ incl deps v) as Hfold.
      { induction deps as [|d0 ds IHds]; intros visited1 chain1 H1.
        - exists visited1, chain1, []. split; [reflexivity|].
          split; [apply traversed_nothing | intros x []].
        - cbn [fold_left].
          destruct (IH d0 visited1 chain1 H1)
            as [v1 [c1 [new1 [E1 [T1 [Hd0 _]]]]]].
          rewrite E1.
          destruct (IHds v1 c1) as [v [c [new2 [E2 [T2 Hds]]]]].
          { pose proof (unvisited_mono m _ _ (tr_visited _ _ _ _ _ _ _ T1)).
            lia. }
          exists v, c, (new1 ++ new2). split; [exact E2|]. split.
          + exact (traversed_seq [d0] ds _ _ _ _ _ _ _ _ T1 T2).
          + intros x [<-|Hx]; [|now apply Hds].
            exact (tr_visited _ _ _ _ _ _ _ T2 _ Hd0). }
      destruct (Hfold (depends_on t) (tid :: visited) chain)
        as [v [c [new [E [T Hdeps]]]]]; [lia|].
      rewrite E. exists v, (c ++ [tid]), (new ++ [tid]).
      assert (In tid v) as Htv
          by (apply (tr_visited _ _ _ _ _ _ _ T); now left).
      assert (is_task m tid) as Htask by (exists t; exact Et).
      split; [reflexivity|]. split; [|split; [exact Htv|]].
      * constructor.
        -- rewrite (tr_chain _ _ _ _ _ _ _ T). now rewrite app_assoc.
        -- intros x Hx. apply (tr_visited _ _ _ _ _ _ _ T). now right.
        -- intros x Hx. apply in_app_iff in Hx as [Hx|[<-|[]]].
           ++ destruct (tr_new _ _ _ _ _ _ _ T x Hx) as [A [B [C [a [Ha Hr]]]]].
              split; [exact A|]. split; [intros H; apply B; now right|].
              split; [exact C|]. exists tid. split; [now left|].
              eapply rt_trans; [|exact Hr]. apply rt_step. exists t. auto.
           ++ split; [exact Htask|]. split; [exact Em|]. split; [exact Htv|].
              exists tid. split; [now left | apply rt_refl].
        -- apply NoDup_app; [exact (tr_nodup _ _ _ _ _ _ _ T) | |].
           ++ repeat constructor. simpl. tauto.
           ++ intros x Hx [Heq|[]]. subst x.
              destruct (tr_new _ _ _ _ _ _ _ T tid Hx) as [_ [B _]].
              apply B. now left.
        -- intros x Hx Hv.
           destruct (tr_appended _ _ _ _ _ _ _ T x Hx Hv) as [[<-|H]|H].
           ++ right. apply in_app_iff. right. now left.
           ++ now left.
           ++ right. apply in_app_iff. now left.
        -- intros x t' Hx Ht'. apply in_app_iff in Hx as [Hx|[<-|[]]].
           ++ exact (tr_closed _ _ _ _ _ _ _ T x t' Hx Ht').
           ++ assert (t' = t) as -> by congruence. exact Hdeps.
        -- intros n1 x n2 t' d Hsplit Ht' Hd Htd.
           assert (x = tid -> In d (tid :: visited) \/ In d new ->
                   In d visited \/ In d new
                   \/ clos_trans string (dep_of m) d d) as Hself.
           { intros -> [[<-|H]|H]; [|now left|now right; left].
             right. right. apply t_step. exists t'. auto. }
           apply app_eq_app in Hsplit as [l [[E1 E2]|[E1 E2]]].
           ++ destruct l as [|y l].
              ** simpl in E2. injection E2 as Hx2 Hn2. subst x n2.
                 rewrite app_nil_r in E1. subst n1.
                 assert (t' = t) as -> by congruence.
                 apply (Hself eq_refl).
                 apply (tr_appended _ _ _ _ _ _ _ T d Htd). now apply Hdeps.
              ** injection E2 as Hxy E2. subst y.
                 destruct (tr_order _ _ _ _ _ _ _ T n1 x l t' d E1 Ht' Hd Htd)
                   as [[<-|H]|[H|H]];
                   [|now left | now right; left | now right; right].
                 right. right.
                 destruct (tr_new _ _ _ _ _ _ _ T x) as [_ [_ [_ [a [Ha Hr]]]]].
                 { rewrite E1. apply in_app_iff. right. now left. }
                 apply clos_rt_t with x.
                 --- eapply rt_trans; [|exact Hr]. apply rt_step.
                     exists t. auto.
                 --- apply t_step. exists t'. auto.
           ++ destruct l as [|y l].
              ** simpl in E2. injection E2 as Hx2 Hn2. subst x n2.
                 rewrite app_nil_r in E1. subst n1.
                 assert (t' = t) as -> by congruence.
                 apply (Hself eq_refl).
                 apply (tr_appended _ _ _ _ _ _ _ T d Htd). now apply Hdeps.
              ** injection E2 as _ E2. destruct l; discriminate.
      * intros _ _. now exists new.
    + exists (tid :: visited), chain, []. split; [reflexivity|]. split.
      * constructor.
        -- now rewrite app_nil_r.
        -- apply incl_tl, incl_refl.
        -- intros x [].
        -- constructor.
        -- intros x [t Hx] [<-|H]; [congruence | now left].
        -- intros x t [].
        -- intros n1 x n2 t d H. destruct n1; discriminate.
      * split; [now left|]. intros _ [t Ht]. congruence.
Qed.

End Chain.

Lemma unvisited_nil m : unvisited m [] = List.length (tasks (workflow m)).
Proof.
  assert (forall l : list string,
            List.length (filter (fun x => negb (Py.mem x [])) l)
            = List.length l) as H.
  { induction l as [|a l IH]; simpl in *; [reflexivity | now rewrite IH]. }
  unfold unvisited. now rewrite H, length_map.
Qed.

(** X29: [get_dependency_chain] always returns, also on cyclic graphs.
    For an unknown id the chain is empty; otherwise it ends with the
    requested task, repeats no id, holds only task ids and, with each
    task, every dependency of it that names a task.  When no task
    depends on itself through a chain of dependencies, every such
    dependency comes before the task. *)
Theorem get_dependency_chain_spec (m : StateManager) (task_id : string) :
  exists chain,
    get_dependency_chain m task_id = Some chain
    /\ (get_task_by_id m task_id = None -> chain = [])
    /\ (is_task m task_id -> exists c, chain = c ++ [task_id])
    /\ NoDup chain
    /\ (forall x, In x chain ->
          exists t, get_task_by_id m x = Some t
                    /\ forall d, In d (depends_on t) -> is_task m d ->
                                 In d chain)
    /\ ((forall a, ~ clos_trans string (dep_of m) a a) ->
        forall c1 x c2 t d,
          chain = c1 ++ x :: c2 -> get_task_by_id m x = Some t ->
          In d (depends_on t) -> is_task m d -> In d c1).
Proof.
  unfold get_dependency_chain.
  destruct (get_task_by_id m task_id) as [t0|] eqn:Et0.
  - destruct (traverse_spec m (S (List.length (tasks (workflow m)))) task_id
                [] [])
      as [v [c [new [E [T [Hv Hlast]]]]]].
    { rewrite unvisited_nil. lia. }
    rewrite E. pose proof (tr_chain _ _ _ _ _ _ _ T) as Hc. simpl in Hc.
    subst c. exists new. split; [reflexivity|].
    split; [discriminate|]. split; [|split; [|split]].
    + intros Ht. apply Hlast; [intros [] | exact Ht].
    + exact (tr_nodup _ _ _ _ _ _ _ T).
    + intros x Hx.
      destruct (tr_new _ _ _ _ _ _ _ T x Hx) as [[t Ht] _].
      exists t. split; [exact Ht|]. intros d Hd Htd.
      pose proof (tr_closed _ _ _ _ _ _ _ T x t Hx Ht d Hd) as Hdv.
      destruct (tr_appended _ _ _ _ _ _ _ T d Htd Hdv) as [[]|H]. exact H.
    + intros Hacyclic c1 x c2 t d Hsplit Ht Hd Htd.
      destruct (tr_order _ _ _ _ _ _ _ T c1 x c2 t d Hsplit Ht Hd Htd)
        as [[]|[H|H]]; [exact H|].
      exfalso. exact (Hacyclic d H).
  - exists []. split; [reflexivity|]. split; [reflexivity|].
    split; [intros [t Ht]; congruence|]. split; [constructor|].
    split; [intros x []|].
    intros _ c1 x c2 t d H. destruct c1; discriminate.
Qed.

Example get_dependency_chain_sample :
  get_dependency_chain (StateManager_init Samples.chain) "C"
  = Some ["A"; "B"; "C"]
  /\ get_dependency_chain (StateManager_init (Samples.two_cycle false)) "task1"
     = Some ["task2"; "task1"].
Proof. split; reflexivity. Qed.

(** *** Invalidation by task id *)

Lemma prefix_chars s : forall t,
  String.prefix s t = true ->
  incl (list_ascii_of_string s) (list_ascii_of_string t).
Proof.
  induction s as [|a s IH]; intros t H; simpl;
    [intros x Hx; destruct Hx|].
  destruct t as [|b t]; simpl in H; [congruence|].
  destruct (ascii_dec a b) as [->|]; [|congruence].
  intros x [<-|Hx]; simpl; [now left | right; now apply (IH t)].
Qed.

Lemma substring_chars s t :
  Py.substring_of s t = true ->
  incl (list_ascii_of_string s) (list_ascii_of_string t).
Proof.
  induction t as [|b t IH]; cbn [Py.substring_of].
  - destruct (String.prefix s "") eqn:E; [|discriminate].
    intros _. now apply prefix_chars.
  - destruct (String.prefix s (String b t)) eqn:E.
    + intros _. now apply prefix_chars.
    + intros H x Hx. simpl. right. now apply IH.
Qed.

(** X30: on a cache without a directory whose memory keys are strings
    of hexadecimal digits (digests), [invalidate] for a task id that
    holds any other character finds no key that contains the id: it
    returns 0, removes nothing and counts nothing. *)
Theorem invalidate_misses_hex_keys (glob_matches : string -> string -> bool)
    (tid : string) (c : ResultCache) (ch : ascii) :
  cache_dir (config c) = false ->
  hex_keys c ->
  In ch (list_ascii_of_string tid) ->
  is_hex ch = false ->
  fst (invalidate glob_matches tid c) = 0
  /\ memory_cache (snd (invalidate glob_matches tid c)) = memory_cache c
  /\ invalidations (snd (invalidate glob_matches tid c)) = invalidations c.
Proof.
  intros Hdir Hhex Hch Hnot. unfold invalidate. rewrite Hdir.
  assert (filter (fun k => Py.substring_of tid k) (Py.keys (memory_cache c))
          = []) as ->.
  { apply filter_none. intros k Hk. apply not_true_is_false. intros Hsub.
    pose proof (substring_chars _ _ Hsub ch Hch) as Hin.
    pose proof (Hhex k Hk) as Hall. rewrite forallb_forall in Hall.
    rewrite (Hall ch Hin) in Hnot. discriminate. }
  simpl. repeat split. lia.
Qed.

Lemma invalidate_misses_hex_keys_witness :
  let c := cache_put stub_digest 0 report_task report_result None
             (cache_of MEMORY 2) in
  fst (invalidate (fun _ _ => true) "report" c) = 0
  /\ memory_cache (snd (invalidate (fun _ _ => true) "report" c))
     = memory_cache c
  /\ invalidations (snd (invalidate (fun _ _ => true) "report" c))
     = invalidations c.
Proof.
  intros c.
  apply (invalidate_misses_hex_keys (fun _ _ => true) "report" c "r"%char).
  - reflexivity.
  - intros k Hk. vm_compute in Hk. destruct Hk as [<-|[]]. reflexivity.
  - simpl. tauto.
  - reflexivity.
Defined.
